(** * Standard-to-SPIR-V conversion patterns

    A shallow embedding of
    [mlir/lib/Conversion/StandardToSPIRV/ConvertStandardToSPIRV.cpp]:
    the attribute converters, the rewrite patterns and the sub-word
    load/store emulation, together with an evaluator for the SPIR-V
    instructions the patterns emit. *)

From Stdlib Require Import ZArith List Bool Lia String.
Import ListNotations.

Local Open Scope Z_scope.

(* ================================================================== *)
(** * Types *)
(* ================================================================== *)

Inductive Signedness := Signless | Signed | Unsigned.

Inductive FloatKind := F16 | F32 | F64.

Inductive StorageClass := StorageBuffer | Uniform | Workgroup | PushConstant.

(** The builtin and SPIR-V dialect types used by this file.  A memref is
    converted to a pointer to a struct whose member 0 is an array, so a
    struct is kept by its member 0. *)
Inductive Ty : Type :=
| IndexType
| IntegerType (width : Z) (sign : Signedness)
| FloatType (kind : FloatKind)
| VectorType (shape : list Z) (elementType : Ty)
| RankedTensorType (shape : list Z) (elementType : Ty)
| MemRefType (shape : list Z) (elementType : Ty)
| SpvArrayType (elementType : Ty) (numElements : Z)
| SpvRuntimeArrayType (elementType : Ty)
| SpvStructType (elementType0 : Ty)
| SpvPointerType (pointeeType : Ty) (storageClass : StorageClass).

Definition Signedness_eq_dec (a b : Signedness) : {a = b} + {a <> b}.
Proof. decide equality. Defined.

Definition FloatKind_eq_dec (a b : FloatKind) : {a = b} + {a <> b}.
Proof. decide equality. Defined.

Definition StorageClass_eq_dec (a b : StorageClass) : {a = b} + {a <> b}.
Proof. decide equality. Defined.

Definition shape_eq_dec (a b : list Z) : {a = b} + {a <> b}.
Proof. apply list_eq_dec, Z.eq_dec. Defined.

Definition Ty_eq_dec (a b : Ty) : {a = b} + {a <> b}.
Proof.
  decide equality;
    auto using Z.eq_dec, Signedness_eq_dec, FloatKind_eq_dec,
               StorageClass_eq_dec, shape_eq_dec.
Defined.

Definition Ty_eqb (a b : Ty) : bool := if Ty_eq_dec a b then true else false.

(** [Type] is a nullable handle in MLIR; a null type is [None]. *)
Definition NType_eqb (a b : option Ty) : bool :=
  match a, b with
  | Some x, Some y => Ty_eqb x y
  | None, None => true
  | _, _ => false
  end.

Definition i1 : Ty := IntegerType 1 Signless.
Definition i8 : Ty := IntegerType 8 Signless.
Definition i16 : Ty := IntegerType 16 Signless.
Definition i32 : Ty := IntegerType 32 Signless.
Definition i64 : Ty := IntegerType 64 Signless.
Definition f32 : Ty := FloatType F32.

(** [Type::isInteger(width)]. *)
Definition isInteger (t : Ty) (w : Z) : bool :=
  match t with
  | IntegerType width _ => width =? w
  | _ => false
  end.

Definition isaIntegerType (t : Ty) : bool :=
  match t with IntegerType _ _ => true | _ => false end.

Definition isaFloatType (t : Ty) : bool :=
  match t with FloatType _ => true | _ => false end.

Definition isaVectorType (t : Ty) : bool :=
  match t with VectorType _ _ => true | _ => false end.

Definition isaRankedTensorType (t : Ty) : bool :=
  match t with RankedTensorType _ _ => true | _ => false end.

(** [Type::isSignlessInteger()]. *)
Definition isSignlessInteger (t : Ty) : bool :=
  match t with IntegerType _ Signless => true | _ => false end.

Definition isSignedInteger (t : Ty) : bool :=
  match t with IntegerType _ Signed => true | _ => false end.

Definition isIndex (t : Ty) : bool :=
  match t with IndexType => true | _ => false end.

Definition isF32 (t : Ty) : bool :=
  match t with FloatType F32 => true | _ => false end.

Definition floatWidth (k : FloatKind) : Z :=
  match k with F16 => 16 | F32 => 32 | F64 => 64 end.

(** [Type::getIntOrFloatBitWidth()]; it asserts on any other type. *)
Definition getIntOrFloatBitWidth (t : Ty) : option Z :=
  match t with
  | IntegerType w _ => Some w
  | FloatType k => Some (floatWidth k)
  | _ => None
  end.

(** The shaped types: [dyn_cast<ShapedType>] succeeds on these. *)
Definition isaShapedType (t : Ty) : bool :=
  match t with
  | VectorType _ _ | RankedTensorType _ _ | MemRefType _ _ => true
  | _ => false
  end.

Definition getShape (t : Ty) : list Z :=
  match t with
  | VectorType s _ | RankedTensorType s _ | MemRefType s _ => s
  | _ => []
  end.

Definition getElementType (t : Ty) : Ty :=
  match t with
  | VectorType _ e | RankedTensorType _ e | MemRefType _ e => e
  | SpvArrayType e _ | SpvRuntimeArrayType e | SpvStructType e => e
  | SpvPointerType e _ => e
  | _ => t
  end.

Definition getRank (t : Ty) : Z := Z.of_nat (List.length (getShape t)).

Definition getNumElements (t : Ty) : Z := fold_right Z.mul 1 (getShape t).

(** Returns true if the given [type] is a boolean scalar or vector type. *)
Definition isBoolScalarOrVector (type : Ty) : bool :=
  if isInteger type 1 then true
  else match type with
       | VectorType _ elementType => isInteger elementType 1
       | _ => false
       end.

(** The type converter is a collaborator of the patterns
    ([SPIRVTypeConverter], defined in SPIRVLowering.cpp); the patterns only
    call its [convertType], which returns a null type on failure. *)
Record SPIRVTypeConverter := { convertType : Ty -> option Ty }.

(* ================================================================== *)
(** * Arbitrary-precision integers and floats *)
(* ================================================================== *)

(** [llvm::APInt]: a bit width and the bit pattern, kept as the unsigned
    number it spells. *)
Record APInt := mkAPInt { BitWidth : Z; U : Z }.

(** [APInt(numBits, val, isSigned)]: [val] arrives as a 64-bit word; a
    narrower result keeps its low bits, a wider one extends it. *)
Definition APInt_of (numBits : Z) (val : Z) (isSigned : bool) : APInt :=
  let v64 := val mod 2 ^ 64 in
  if numBits <=? 64 then mkAPInt numBits (v64 mod 2 ^ numBits)
  else if isSigned then mkAPInt numBits (val mod 2 ^ numBits)
  else mkAPInt numBits v64.

(** [APInt::getActiveBits()]: the width less the leading zeros. *)
Definition getActiveBits (a : APInt) : Z :=
  if U a =? 0 then 0 else Z.log2 (U a) + 1.

Definition isNegative (a : APInt) : bool := Z.testbit (U a) (BitWidth a - 1).

Definition flipAllBits (a : APInt) : APInt :=
  mkAPInt (BitWidth a) (2 ^ BitWidth a - 1 - U a).

(** [APInt::getMinSignedBits()]:
    [isNegative() ? BitWidth - countLeadingOnes() + 1 : getActiveBits() + 1]. *)
Definition getMinSignedBits (a : APInt) : Z :=
  if isNegative a then getActiveBits (flipAllBits a) + 1
  else getActiveBits a + 1.

(** [APInt::isIntN(N)]: the value fits in [N] bits read unsigned. *)
Definition isIntN (N : Z) (a : APInt) : bool := getActiveBits a <=? N.

(** [APInt::isSignedIntN(N)]: the value fits in [N] bits read signed. *)
Definition isSignedIntN (N : Z) (a : APInt) : bool := getMinSignedBits a <=? N.

(** [APInt::getSExtValue()]: the pattern read as a two's-complement number. *)
Definition getSExtValue (a : APInt) : Z :=
  if isNegative a then U a - 2 ^ BitWidth a else U a.

(** [APInt::getBoolValue()]. *)
Definition getBoolValue (a : APInt) : bool := negb (U a =? 0).

Inductive fltSemantics := IEEEhalf | IEEEsingle | IEEEdouble.

Inductive roundingMode :=
  rmNearestTiesToEven | rmTowardPositive | rmTowardNegative | rmTowardZero
| rmNearestTiesToAway.

Inductive opStatus :=
  opOK | opInvalidOp | opDivByZero | opOverflow | opUnderflow | opInexact.

Definition opStatus_eqb (a b : opStatus) : bool :=
  match a, b with
  | opOK, opOK | opInvalidOp, opInvalidOp | opDivByZero, opDivByZero
  | opOverflow, opOverflow | opUnderflow, opUnderflow
  | opInexact, opInexact => true
  | _, _ => false
  end.

Inductive fltCategory := fcInfinity | fcNaN | fcNormal | fcZero.

(** [llvm::APFloat], as the class stores it. *)
Record APFloat := mkAPFloat {
  semantics : fltSemantics;
  category : fltCategory;
  sign : bool;
  exponent : Z;
  significand : Z
}.

(* ================================================================== *)
(** * Attributes *)
(* ================================================================== *)

#[warnings="-register-all"]
Inductive Attribute : Type :=
| BoolAttr (value : bool)
| IntegerAttr (type : Ty) (value : APInt)
| FloatAttr (type : Ty) (value : APFloat)
| DenseElementsAttr (type : Ty) (values : list Attribute)
| SparseElementsAttr (type : Ty) (indices : list (list Z)) (values : list Attribute)
| OpaqueElementsAttr (type : Ty) (bytes : string)
| UnitAttr.

(** [IntegerAttr::getInt()]: [getValue().getSExtValue()]. *)
Definition getInt (value : APInt) : Z := getSExtValue value.

(** [Builder::getIntegerAttr(Type, int64_t)]. *)
Definition getIntegerAttr (type : Ty) (value : Z) : Attribute :=
  if isIndex type then IntegerAttr type (APInt_of 64 value false)
  else
    match getIntOrFloatBitWidth type with
    | Some w => IntegerAttr type (APInt_of w value (isSignedInteger type))
    | None => IntegerAttr type (APInt_of 0 value false)
    end.

(** What [LLVM_DEBUG] prints to the debug stream. *)
Inductive DebugMessage :=
| DbgConverted (srcAttr dstAttr : Attribute) (dstType : Ty)
| DbgIllegal (srcAttr : Attribute) (dstType : Ty).

(** Converts the given [srcAttr] into a boolean attribute if it holds an
    integral value. Returns null attribute if conversion fails. *)
Definition convertBoolAttr (srcAttr : Attribute) : option Attribute :=
  match srcAttr with
  | BoolAttr b => Some (BoolAttr b)
  | IntegerAttr _ v => Some (BoolAttr (getBoolValue v))
  | _ => None
  end.

(** Converts the given [srcAttr] to a new attribute of the given [dstType].
    Returns null attribute if conversion fails.  [srcType]/[srcValue] are
    the fields of the source [IntegerAttr]; the destination [IntegerType]
    is given by its width and signedness.  The second component is what
    the call writes to the debug stream. *)
Definition convertIntegerAttr (srcType : Ty) (srcValue : APInt)
    (dstWidth : Z) (dstSign : Signedness)
    : option Attribute * list DebugMessage :=
  let dstType := IntegerType dstWidth dstSign in
  if isIntN dstWidth srcValue then
    (Some (getIntegerAttr dstType (getInt srcValue)), [])
  else if isSignedIntN dstWidth srcValue then
    let dstAttr := getIntegerAttr dstType (getInt srcValue) in
    (Some dstAttr, [DbgConverted (IntegerAttr srcType srcValue) dstAttr dstType])
  else
    (None, [DbgIllegal (IntegerAttr srcType srcValue) dstType]).

(* ================================================================== *)
(** * Operations and the rewriter *)
(* ================================================================== *)

(** An SSA value: its number and its type. *)
Record Value := mkValue { valueId : nat; valueType : Ty }.

Module spirv.

Inductive Scope :=
  CrossDevice | Device | Workgroup | Subgroup | Invocation | QueueFamily.

Inductive MemorySemantics :=
  None | Acquire | Release | AcquireRelease | SequentiallyConsistent.

(** The SPIR-V dialect operations this file creates. *)
Inductive Opcode :=
| GLSLFAbsOp | FAddOp | IAddOp | GLSLCeilOp | GLSLCosOp | FDivOp | GLSLExpOp
| GLSLLogOp | FMulOp | IMulOp | FNegateOp | FRemOp | GLSLInverseSqrtOp
| ShiftLeftLogicalOp | SDivOp | SRemOp | ShiftRightArithmeticOp | GLSLSinOp
| GLSLSqrtOp | FSubOp | ISubOp | GLSLTanhOp | UDivOp | UModOp
| ShiftRightLogicalOp
| LogicalAndOp | BitwiseAndOp | LogicalOrOp | BitwiseOrOp | BitwiseXorOp
| NotOp | SModOp
| ConstantOp
| LogicalEqualOp | LogicalNotEqualOp
| IEqualOp | INotEqualOp | SLessThanOp | SLessThanEqualOp | SGreaterThanOp
| SGreaterThanEqualOp | ULessThanOp | ULessThanEqualOp | UGreaterThanOp
| UGreaterThanEqualOp
| SConvertOp | ConvertSToFOp | UConvertOp | ConvertFToSOp | FConvertOp
| AccessChainOp | LoadOp | StoreOp | AtomicAndOp | AtomicOrOp.

(** The attributes an operation is created with. *)
Inductive Attrs :=
| NoAttrs
| ValueAttr (value : Attribute)
| AtomicAttrs (scope : Scope) (semantics : MemorySemantics)
| MemoryAccessAttrs (memory_access alignment : option Attribute).

Record Operation := mkOp {
  opcode : Opcode;
  resultType : option Ty;
  operands : list Value;
  attrs : Attrs
}.

End spirv.

(** The Standard dialect operations that have a pattern in this file. *)
Inductive StdOpKind :=
| AbsFOp | AddFOp | AddIOp | CeilFOp | CosOp | DivFOp | ExpOp | LogOp | MulFOp
| MulIOp | NegFOp | RemFOp | RsqrtOp | ShiftLeftOp | SignedDivIOp
| SignedRemIOp | SignedShiftRightOp | SinOp | SqrtOp | SubFOp | SubIOp
| TanhOp | UnsignedDivIOp | UnsignedRemIOp | UnsignedShiftRightOp
| AndOp | OrOp | XOrOp
| CmpFOp | CmpIOpKind | ConstantOpKind | LoadOpKind | ReturnOp | SelectOp
| StoreOpKind
| IndexCastOp | SIToFPOp | ZeroExtendIOp | TruncateIOp | FPToSIOp | FPExtOp
| FPTruncOp.

Definition StdOpKind_eq_dec (a b : StdOpKind) : {a = b} + {a <> b}.
Proof. decide equality. Defined.

Definition StdOpKind_eqb (a b : StdOpKind) : bool :=
  if StdOpKind_eq_dec a b then true else false.

(** A one-result Standard operation, as the template patterns see it. *)
Record StdOp := mkStdOp { stdKind : StdOpKind; getType : Ty }.

Module CmpIPredicate.
Inductive t := eq | ne | slt | sle | sgt | sge | ult | ule | ugt | uge.
End CmpIPredicate.

(** [std.cmpi]: the predicate, the type of the original [lhs] operand and
    the type of the result. *)
Record CmpIOp := mkCmpIOp {
  getPredicate : CmpIPredicate.t;
  lhsType : Ty;
  cmpResultType : Ty
}.

(** [std.constant]. *)
Record ConstantOp := mkConstantOp { constType : Ty; value : Attribute }.

(** [std.load]: the memref type and the two optional attributes the
    pattern forwards. *)
Record LoadOp := mkLoadOp {
  loadMemrefType : Ty;
  loadMemoryAccess : option Attribute;
  loadAlignment : option Attribute
}.

(** [std.store]. *)
Record StoreOp := mkStoreOp { storeMemrefType : Ty }.

Inductive LogicalResult := success | failure.

(** What the rewriter has been told about the operation being matched. *)
Inductive RootEdit :=
| Untouched
| ReplacedWith (results : list nat)
| Erased.

(** The rewriter: the next free value number, the operations created so
    far in insertion order, each under the number of its result, and the
    fate of the matched operation. *)
Record RewriterState := mkState {
  nextValue : nat;
  created : list (nat * spirv.Operation);
  root : RootEdit
}.

(** A pattern either runs to its end, or stops in a failed [assert] or
    [cast], or runs into undefined behaviour. *)
Inductive Result (A : Type) :=
| Done (a : A)
| AssertionFailed (what : string)
| Undefined (what : string).
Arguments Done {A} a.
Arguments AssertionFailed {A} what.
Arguments Undefined {A} what.

Definition Rewriter (A : Type) : Type := RewriterState -> Result (A * RewriterState).

Definition ret {A} (a : A) : Rewriter A := fun s => Done (a, s).

Definition bind {A B} (m : Rewriter A) (k : A -> Rewriter B) : Rewriter B :=
  fun s =>
    match m s with
    | Done (a, s') => k a s'
    | AssertionFailed w => AssertionFailed w
    | Undefined w => Undefined w
    end.

Declare Scope rewriter_scope.
Delimit Scope rewriter_scope with rewriter.
Notation "x <- m ;; k" := (bind m (fun x => k))
  (at level 61, m at next level, right associativity) : rewriter_scope.
Notation "m ;;; k" := (bind m (fun _ => k))
  (at level 61, right associativity) : rewriter_scope.
Local Open Scope rewriter_scope.

Definition assert_ (cond : bool) (what : string) : Rewriter unit :=
  fun s => if cond then Done (tt, s) else AssertionFailed what.

(** [x.cast<T>()] on an [x] that is not a [T]. *)
Definition cast {A} (x : option A) (what : string) : Rewriter A :=
  fun s => match x with Some a => Done (a, s) | Datatypes.None => AssertionFailed what end.

Definition undefined {A} (what : string) : Rewriter A := fun _ => Undefined what.

(** [rewriter.create<Op>(loc, type, operands..., attrs...)]. *)
Definition create (opc : spirv.Opcode) (type : Ty) (operands : list Value)
    (attrs : spirv.Attrs) : Rewriter Value :=
  fun s =>
    let id := nextValue s in
    Done (mkValue id type,
          mkState (S id)
                  (created s ++ [(id, spirv.mkOp opc (Some type) operands attrs)])
                  (root s)).

(** [rewriter.replaceOp(op, values)]. *)
Definition replaceOp (values : list Value) : Rewriter unit :=
  fun s => Done (tt, mkState (nextValue s) (created s)
                             (ReplacedWith (map valueId values))).

(** [rewriter.replaceOpWithNewOp<Op>(op, type, operands, attrs)]: the new
    operation is created and its results replace the matched operation;
    the result type is passed on as it is, null or not. *)
Definition replaceOpWithNewOp (opc : spirv.Opcode) (type : option Ty)
    (operands : list Value) (attrs : spirv.Attrs) : Rewriter unit :=
  fun s =>
    let id := nextValue s in
    Done (tt, mkState (S id)
                      (created s ++ [(id, spirv.mkOp opc type operands attrs)])
                      (ReplacedWith [id])).

(** [replaceOpWithNewOp] for an operation without results ([spv.Store]). *)
Definition replaceOpWithNewOp0 (opc : spirv.Opcode) (operands : list Value)
    (attrs : spirv.Attrs) : Rewriter unit :=
  fun s =>
    let id := nextValue s in
    Done (tt, mkState (S id)
                      (created s ++ [(id, spirv.mkOp opc Datatypes.None operands attrs)])
                      (ReplacedWith [])).

(** [rewriter.eraseOp(op)] on the matched operation. *)
Definition eraseOp : Rewriter unit :=
  fun s => Done (tt, mkState (nextValue s) (created s) Erased).

Definition uses (v : Value) (op : nat * spirv.Operation) : bool :=
  existsb (fun o => Nat.eqb (valueId o) (valueId v)) (spirv.operands (snd op)).

(** [op.use_empty()] for an operation created in this rewrite. *)
Definition use_empty (v : Value) : Rewriter bool :=
  fun s => Done (negb (existsb (uses v) (created s)), s).

(** [rewriter.eraseOp(op)] on an operation created in this rewrite. *)
Definition eraseCreatedOp (v : Value) : Rewriter unit :=
  fun s =>
    Done (tt, mkState (nextValue s)
                      (filter (fun o => negb (Nat.eqb (fst o) (valueId v))) (created s))
                      (root s)).

(* ================================================================== *)
(** * Utility functions *)
(* ================================================================== *)

(** The C expression [(1 << srcBits) - 1] on [int]; it is exact while
    [srcBits < 31]. *)
Definition lowBitsMask (srcBits : Z) : Z := Z.shiftl 1 srcBits - 1.

(** Returns the offset of the value in [targetBits] representation.
    [srcIdx] is an index into a 1-D array with each element having
    [sourceBits]; the x-th element is located at
    [(x % (targetBits / sourceBits)) * sourceBits]. *)
Definition getOffsetForBitwidth (srcIdx : Value) (sourceBits targetBits : Z)
    : Rewriter Value :=
  assert_ (targetBits mod sourceBits =? 0) "targetBits % sourceBits == 0" ;;;
  let targetType := IntegerType targetBits Signless in
  let idxAttr := getIntegerAttr targetType (targetBits / sourceBits) in
  idx <- create spirv.ConstantOp targetType [] (spirv.ValueAttr idxAttr) ;;
  let srcBitsAttr := getIntegerAttr targetType sourceBits in
  srcBitsValue <- create spirv.ConstantOp targetType [] (spirv.ValueAttr srcBitsAttr) ;;
  m <- create spirv.SModOp (valueType srcIdx) [srcIdx; idx] spirv.NoAttrs ;;
  create spirv.IMulOp targetType [m; srcBitsValue] spirv.NoAttrs.

(** An access chain created by [spirv::getElementPtr]: its result, its
    base pointer and its indices. *)
Record AccessChain := mkAccessChain {
  acResult : Value;
  base_ptr : Value;
  indices : list Value
}.

(** [op.getOperation()->getOperand(op.getNumOperands() - 1)]: the operands
    of an access chain are the base pointer followed by the indices. *)
Definition lastOperand (op : AccessChain) : Value :=
  last (base_ptr op :: indices op) (base_ptr op).

(** [indices.back() = v]. *)
Definition setBack (indices : list Value) (v : Value) : list Value :=
  removelast indices ++ [v].

Section Patterns.

Variable typeConverter : SPIRVTypeConverter.

(** [APFloat::convert(toSemantics, roundingMode, &losesInfo)] lives in
    LLVM's support library: the converted value, the status and
    [losesInfo]. *)
Variable APFloat_convert :
  APFloat -> fltSemantics -> roundingMode -> APFloat * opStatus * bool.

(** Converts the given [srcAttr] to a new attribute of the given
    [dstType]. Returns null attribute if [dstType] is not 32-bit or
    conversion fails. *)
Definition convertFloatAttr (srcType : Ty) (srcValue : APFloat)
    (dstType : FloatKind) : option Attribute * list DebugMessage :=
  if negb (isF32 (FloatType dstType)) then (None, [])
  else
    let '(dstVal, status, losesInfo) :=
      APFloat_convert srcValue IEEEsingle rmTowardZero in
    if negb (opStatus_eqb status opOK) || losesInfo then
      (None, [DbgIllegal (FloatAttr srcType srcValue) (FloatType dstType)])
    else (Some (FloatAttr f32 dstVal), []).

(** Returns an adjusted [spirv::AccessChainOp]: the last index is divided
    by the number of source elements per target word.  Note that this
    only works for a 1-D tensor. *)
Definition adjustAccessChainForBitwidth (op : AccessChain)
    (sourceBits targetBits : Z) : Rewriter Value :=
  assert_ (targetBits mod sourceBits =? 0) "targetBits % sourceBits == 0" ;;;
  let targetType := IntegerType targetBits Signless in
  let attr := getIntegerAttr targetType (targetBits / sourceBits) in
  idx <- create spirv.ConstantOp targetType [] (spirv.ValueAttr attr) ;;
  let lastDim := lastOperand op in
  let indices := indices op in
  assert_ (Nat.eqb (List.length indices) 2) "indices.size() == 2" ;;;
  back <- create spirv.SDivOp (valueType lastDim) [lastDim; idx] spirv.NoAttrs ;;
  let indices := setBack indices back in
  match convertType typeConverter (valueType (acResult op)) with
  | Some t => create spirv.AccessChainOp t (base_ptr op :: indices) spirv.NoAttrs
  | None => undefined "spirv::AccessChainOp built with a null result type"
  end.

(** Returns the shifted [targetBits]-bit value with the given offset. *)
Definition shiftValue (value offset mask : Value) (targetBits : Z)
    : Rewriter Value :=
  let targetType := IntegerType targetBits Signless in
  result <- create spirv.BitwiseAndOp (valueType value) [value; mask] spirv.NoAttrs ;;
  create spirv.ShiftLeftLogicalOp targetType [result; offset] spirv.NoAttrs.

(* ================================================================ *)
(** * Operation conversion *)
(* ================================================================ *)

(** Converts unary and binary standard operations to SPIR-V operations. *)
Definition UnaryAndBinaryOpPattern (SPIRVOp : spirv.Opcode)
    (operation : StdOp) (operands : list Value) : Rewriter LogicalResult :=
  assert_ (Nat.leb (List.length operands) 2) "operands.size() <= 2" ;;;
  match convertType typeConverter (getType operation) with
  | None => ret failure
  | Some dstType =>
      replaceOpWithNewOp SPIRVOp (Some dstType) operands spirv.NoAttrs ;;;
      ret success
  end.

(** Converts bitwise standard operations to SPIR-V operations: if the
    operands are boolean values SPIR-V uses [SPIRVLogicalOp], for
    non-boolean operands [SPIRVBitwiseOp]. *)
Definition BitwiseOpPattern (SPIRVLogicalOp SPIRVBitwiseOp : spirv.Opcode)
    (operation : StdOp) (operands : list Value) : Rewriter LogicalResult :=
  assert_ (Nat.eqb (List.length operands) 2) "operands.size() == 2" ;;;
  match convertType typeConverter (getType operation) with
  | None => ret failure
  | Some dstType =>
      front <- cast (hd_error operands) "operands.front()" ;;
      (if isBoolScalarOrVector (valueType front) then
         replaceOpWithNewOp SPIRVLogicalOp (Some dstType) operands spirv.NoAttrs
       else
         replaceOpWithNewOp SPIRVBitwiseOp (Some dstType) operands spirv.NoAttrs) ;;;
      ret success
  end.

(** Converts type-casting standard operations to SPIR-V operations. *)
Definition TypeCastingOpPattern (SPIRVOp : spirv.Opcode)
    (operation : StdOp) (operands : list Value) : Rewriter LogicalResult :=
  assert_ (Nat.eqb (List.length operands) 1) "operands.size() == 1" ;;;
  let dstType := convertType typeConverter (getType operation) in
  front <- cast (hd_error operands) "operands.front()" ;;
  (if NType_eqb dstType (Some (valueType front)) then
     (* Due to type conversion, we are seeing the same source and target
        type. Then we can just erase this operation by forwarding its
        operand. *)
     replaceOp [front]
   else
     replaceOpWithNewOp SPIRVOp dstType operands spirv.NoAttrs) ;;;
  ret success.

(** Converts std.xor to SPIR-V operations. *)
Definition XOrOpPattern (xorOp : StdOp) (operands : list Value)
    : Rewriter LogicalResult :=
  assert_ (Nat.eqb (List.length operands) 2) "operands.size() == 2" ;;;
  front <- cast (hd_error operands) "operands.front()" ;;
  if isBoolScalarOrVector (valueType front) then ret failure
  else
    match convertType typeConverter (getType xorOp) with
    | None => ret failure
    | Some dstType =>
        replaceOpWithNewOp spirv.BitwiseXorOp (Some dstType) operands spirv.NoAttrs ;;;
        ret success
    end.

(** Converts integer compare operation on i1 type operands to SPIR-V ops. *)
Definition BoolCmpIOpPattern (cmpIOp : CmpIOp) (lhs rhs : Value)
    : Rewriter LogicalResult :=
  let operandType := lhsType cmpIOp in
  if negb (isaIntegerType operandType)
     || negb (match operandType with IntegerType w _ => w =? 1 | _ => false end)
  then ret failure
  else
    let DISPATCH spirvOp :=
      replaceOpWithNewOp spirvOp (Some (cmpResultType cmpIOp)) [lhs; rhs]
                         spirv.NoAttrs ;;;
      ret success in
    match getPredicate cmpIOp with
    | CmpIPredicate.eq => DISPATCH spirv.LogicalEqualOp
    | CmpIPredicate.ne => DISPATCH spirv.LogicalNotEqualOp
    | _ => ret failure
    end.

(** Converts integer compare operation to SPIR-V ops. *)
Definition CmpIOpPattern (cmpIOp : CmpIOp) (lhs rhs : Value)
    : Rewriter LogicalResult :=
  let operandType := lhsType cmpIOp in
  if isaIntegerType operandType
     && (match operandType with IntegerType w _ => w =? 1 | _ => false end)
  then ret failure
  else
    let DISPATCH spirvOp :=
      replaceOpWithNewOp spirvOp (Some (cmpResultType cmpIOp)) [lhs; rhs]
                         spirv.NoAttrs ;;;
      ret success in
    match getPredicate cmpIOp with
    | CmpIPredicate.eq => DISPATCH spirv.IEqualOp
    | CmpIPredicate.ne => DISPATCH spirv.INotEqualOp
    | CmpIPredicate.slt => DISPATCH spirv.SLessThanOp
    | CmpIPredicate.sle => DISPATCH spirv.SLessThanEqualOp
    | CmpIPredicate.sgt => DISPATCH spirv.SGreaterThanOp
    | CmpIPredicate.sge => DISPATCH spirv.SGreaterThanEqualOp
    | CmpIPredicate.ult => DISPATCH spirv.ULessThanOp
    | CmpIPredicate.ule => DISPATCH spirv.ULessThanEqualOp
    | CmpIPredicate.ugt => DISPATCH spirv.UGreaterThanOp
    | CmpIPredicate.uge => DISPATCH spirv.UGreaterThanEqualOp
    end.

(* ================================================================ *)
(** ** ConstantOp with composite type *)
(* ================================================================ *)

(** The float branch of the element loop: it returns [failure] at the
    first element that does not convert. *)
Fixpoint convertFloatElements (dstElemType : Ty) (attrs : list Attribute)
    : Rewriter (option (list Attribute)) :=
  match attrs with
  | [] => ret (Some [])
  | srcAttr :: rest =>
      src <- cast (match srcAttr with FloatAttr t v => Some (t, v) | _ => None end)
                  "srcAttr.cast<FloatAttr>()" ;;
      dst <- cast (match dstElemType with FloatType k => Some k | _ => None end)
                  "dstElemType.cast<FloatType>()" ;;
      match fst (convertFloatAttr (fst src) (snd src) dst) with
      | None => ret None
      | Some dstAttr =>
          elements <- convertFloatElements dstElemType rest ;;
          ret (option_map (cons dstAttr) elements)
      end
  end.

(** The integer branch of the element loop. *)
Fixpoint convertIntegerElements (dstElemType : Ty) (attrs : list Attribute)
    : Rewriter (option (list Attribute)) :=
  match attrs with
  | [] => ret (Some [])
  | srcAttr :: rest =>
      src <- cast (match srcAttr with IntegerAttr t v => Some (t, v) | _ => None end)
                  "srcAttr.cast<IntegerAttr>()" ;;
      dst <- cast (match dstElemType with IntegerType w s => Some (w, s) | _ => None end)
                  "dstElemType.cast<IntegerType>()" ;;
      match fst (convertIntegerAttr (fst src) (snd src) (fst dst) (snd dst)) with
      | None => ret None
      | Some dstAttr =>
          elements <- convertIntegerElements dstElemType rest ;;
          ret (option_map (cons dstAttr) elements)
      end
  end.

(** [attr.dyn_cast<DenseElementsAttr>()]: null unless the attribute is a
    dense one. *)
Definition dyn_cast_DenseElementsAttr (attr : Attribute)
    : option (Ty * list Attribute) :=
  match attr with
  | DenseElementsAttr type values => Some (type, values)
  | _ => None
  end.

(** [attr.getType()] on a [DenseElementsAttr] handle; the handle of a
    failed [dyn_cast] holds a null pointer, which [getType] reads
    through. *)
Definition DenseElementsAttr_getType (attr : option (Ty * list Attribute))
    : Rewriter Ty :=
  match attr with
  | Some (type, _) => ret type
  | None => undefined "getType() on a null DenseElementsAttr"
  end.

(** The second half of [ConstantCompositeOpPattern::matchAndRewrite], from
    [Type srcElemType = srcType.getElementType()] on: the element type of
    the converted type is looked up and, if it differs from the source
    element type, the elements are converted one by one. *)
Definition convertCompositeElements (dstType srcElemType dstAttrType : Ty)
    (values : list Attribute) : Rewriter LogicalResult :=
  (* Tensor types are converted to SPIR-V array types; vector types are
     converted to SPIR-V vector/array types. *)
  dstElemType <-
    match dstType with
    | SpvArrayType e _ => ret e
    | VectorType _ e => ret e
    | _ => fun _ => AssertionFailed "dstType.cast<VectorType>()"
    end ;;
  (* If the source and destination element types are different, perform
     attribute conversion. *)
  if negb (Ty_eqb srcElemType dstElemType) then
    let finish elements :=
      match elements with
      | None => ret failure
      | Some elements =>
          (* element attributes only work with standard types *)
          let dstAttrType :=
            if isaRankedTensorType dstAttrType
            then RankedTensorType (getShape dstAttrType) dstElemType
            else VectorType (getShape dstAttrType) dstElemType in
          replaceOpWithNewOp spirv.ConstantOp (Some dstType) []
            (spirv.ValueAttr (DenseElementsAttr dstAttrType elements)) ;;;
          ret success
      end in
    if isaFloatType srcElemType then
      elements <- convertFloatElements dstElemType values ;;
      finish elements
    else if isInteger srcElemType 1 then ret failure
    else
      elements <- convertIntegerElements dstElemType values ;;
      finish elements
  else
    replaceOpWithNewOp spirv.ConstantOp (Some dstType) []
                       (spirv.ValueAttr (DenseElementsAttr dstAttrType values)) ;;;
    ret success.

(** Converts composite std.constant operation to spv.constant. *)
Definition ConstantCompositeOpPattern (constOp : ConstantOp)
    (operands : list Value) : Rewriter LogicalResult :=
  if negb (isaShapedType (constType constOp)) then ret failure
  else
    let srcType := constType constOp in
    (* std.constant should only have vector or tensor types. *)
    assert_ (isaVectorType srcType || isaRankedTensorType srcType)
            "srcType.isa<VectorType>() || srcType.isa<RankedTensorType>()" ;;;
    match convertType typeConverter srcType with
    | None => ret failure
    | Some dstType =>
        let dstElementsAttr := dyn_cast_DenseElementsAttr (value constOp) in
        dstAttrType <- DenseElementsAttr_getType dstElementsAttr ;;
        match dstElementsAttr with
        | None => ret failure
        | Some (_, values) =>
            (* If the composite type has more than one dimensions, perform
               linearization. *)
            if 1 <? getRank srcType then
              if isaRankedTensorType srcType then
                let dstAttrType :=
                  RankedTensorType [getNumElements srcType] (getElementType srcType) in
                (* [reshape] keeps the elements *)
                convertCompositeElements dstType (getElementType srcType)
                                         dstAttrType values
              else
                (* TODO: add support for large vectors. *)
                ret failure
            else
              convertCompositeElements dstType (getElementType srcType)
                                       dstAttrType values
        end
    end.

(* ================================================================ *)
(** ** LoadOp and StoreOp *)
(* ================================================================ *)

(** Modelled from the spec: [spirv::getElementPtr] is defined in
    SPIRVLowering.cpp, which is not part of this file.  For the linear
    access paths that the emulation supports it creates an access chain
    with two indices, a constant zero that selects the struct member and
    the linear index.  For a rank-1 memref of unit stride the linear index
    is the index operand itself (the multiplication by the stride 1 is left
    out); the index of a rank-0 memref is that zero.  Access paths of more
    dimensions are left out. *)
Definition getElementPtr (memrefType : Ty) (basePtr : Value)
    (indices : list Value) : Rewriter AccessChain :=
  let indexType := i32 in
  zero <- create spirv.ConstantOp indexType []
                 (spirv.ValueAttr (getIntegerAttr indexType 0)) ;;
  ptrLoc <- match indices with
            | [] => ret zero
            | [index] => ret index
            | _ => undefined "access path of more than one dimension"
            end ;;
  let linearizedIndices := [zero; ptrLoc] in
  let resultType :=
    match valueType basePtr with
    | SpvPointerType (SpvStructType (SpvArrayType e _)) sc => SpvPointerType e sc
    | SpvPointerType (SpvStructType (SpvRuntimeArrayType e)) sc => SpvPointerType e sc
    | t => t
    end in
  result <- create spirv.AccessChainOp resultType (basePtr :: linearizedIndices)
                   spirv.NoAttrs ;;
  ret (mkAccessChain result basePtr linearizedIndices).

(** [typeConverter.convertType(memrefType).cast<spirv::PointerType>()
     .getPointeeType().cast<spirv::StructType>().getElementType(0)
     .cast<spirv::ArrayType>().getElementType()]. *)
Definition convertedElementType (memrefType : Ty) : option Ty :=
  match convertType typeConverter memrefType with
  | Some (SpvPointerType (SpvStructType (SpvArrayType e _)) _) => Some e
  | _ => None
  end.

Definition castMemRefType (t : Ty) : option Ty :=
  match t with MemRefType _ _ => Some t | _ => None end.

(** Converts std.load to spv.Load on integers. *)
Definition IntLoadOpPattern (loadOp : LoadOp) (memref : Value)
    (loadIndices : list Value) : Rewriter LogicalResult :=
  memrefType <- cast (castMemRefType (loadMemrefType loadOp)) "cast<MemRefType>()" ;;
  if negb (isSignlessInteger (getElementType memrefType)) then ret failure
  else
    accessChainOp <- getElementPtr memrefType memref loadIndices ;;
    srcBits <- cast (getIntOrFloatBitWidth (getElementType memrefType))
                    "getIntOrFloatBitWidth()" ;;
    dstType <- cast (convertedElementType memrefType)
                    "cast<PointerType/StructType/ArrayType>()" ;;
    dstBits <- cast (getIntOrFloatBitWidth dstType) "getIntOrFloatBitWidth()" ;;
    assert_ (dstBits mod srcBits =? 0) "dstBits % srcBits == 0" ;;;
    (* If the rewrited load op has the same bit width, use the loading
       value directly. *)
    if srcBits =? dstBits then
      replaceOpWithNewOp spirv.LoadOp
        (Some (getElementType (valueType (acResult accessChainOp))))
        [acResult accessChainOp] spirv.NoAttrs ;;;
      ret success
    else
      assert_ (Nat.eqb (List.length (indices accessChainOp)) 2)
              "accessChainOp.indices().size() == 2" ;;;
      adjustedPtr <- adjustAccessChainForBitwidth accessChainOp srcBits dstBits ;;
      spvLoadOp <- create spirv.LoadOp dstType [adjustedPtr]
                     (spirv.MemoryAccessAttrs (loadMemoryAccess loadOp)
                                              (loadAlignment loadOp)) ;;
      (* Shift the bits to the rightmost.
         ____XXXX________ -> ____________XXXX *)
      let lastDim := lastOperand accessChainOp in
      offset <- getOffsetForBitwidth lastDim srcBits dstBits ;;
      result <- create spirv.ShiftRightArithmeticOp (valueType spvLoadOp)
                       [spvLoadOp; offset] spirv.NoAttrs ;;
      (* Apply the mask to extract corresponding bits. *)
      mask <- create spirv.ConstantOp dstType []
                (spirv.ValueAttr (getIntegerAttr dstType (lowBitsMask srcBits))) ;;
      result <- create spirv.BitwiseAndOp dstType [result; mask] spirv.NoAttrs ;;
      replaceOp [result] ;;;
      unused <- use_empty (acResult accessChainOp) ;;
      assert_ unused "accessChainOp.use_empty()" ;;;
      eraseCreatedOp (acResult accessChainOp) ;;;
      ret success.

(** Converts std.load to spv.Load. *)
Definition LoadOpPattern (loadOp : LoadOp) (memref : Value)
    (loadIndices : list Value) : Rewriter LogicalResult :=
  memrefType <- cast (castMemRefType (loadMemrefType loadOp)) "cast<MemRefType>()" ;;
  if isSignlessInteger (getElementType memrefType) then ret failure
  else
    loadPtr <- getElementPtr memrefType memref loadIndices ;;
    replaceOpWithNewOp spirv.LoadOp
      (Some (getElementType (valueType (acResult loadPtr))))
      [acResult loadPtr] spirv.NoAttrs ;;;
    ret success.

(** Converts std.store to spv.Store on integers. *)
Definition IntStoreOpPattern (storeOp : StoreOp) (value memref : Value)
    (storeIndices : list Value) : Rewriter LogicalResult :=
  memrefType <- cast (castMemRefType (storeMemrefType storeOp)) "cast<MemRefType>()" ;;
  if negb (isSignlessInteger (getElementType memrefType)) then ret failure
  else
    accessChainOp <- getElementPtr memrefType memref storeIndices ;;
    srcBits <- cast (getIntOrFloatBitWidth (getElementType memrefType))
                    "getIntOrFloatBitWidth()" ;;
    dstType <- cast (convertedElementType memrefType)
                    "cast<PointerType/StructType/ArrayType>()" ;;
    dstBits <- cast (getIntOrFloatBitWidth dstType) "getIntOrFloatBitWidth()" ;;
    assert_ (dstBits mod srcBits =? 0) "dstBits % srcBits == 0" ;;;
    if srcBits =? dstBits then
      replaceOpWithNewOp0 spirv.StoreOp [acResult accessChainOp; value]
                          spirv.NoAttrs ;;;
      ret success
    else
      (* Since there are multi threads in the processing, the emulation
         will be done with atomic operations: the clearing of the bits is
         done by AtomicAnd as one atomic step, the setting by AtomicOr as
         another atomic step. *)
      assert_ (Nat.eqb (List.length (indices accessChainOp)) 2)
              "accessChainOp.indices().size() == 2" ;;;
      let lastDim := lastOperand accessChainOp in
      offset <- getOffsetForBitwidth lastDim srcBits dstBits ;;
      (* Create a mask to clear the destination. E.g., if it is the
         second i8 in i32, 0xFFFF00FF is created. *)
      mask <- create spirv.ConstantOp dstType []
                (spirv.ValueAttr (getIntegerAttr dstType (lowBitsMask srcBits))) ;;
      clearBitsMask <- create spirv.ShiftLeftLogicalOp dstType [mask; offset]
                              spirv.NoAttrs ;;
      clearBitsMask <- create spirv.NotOp dstType [clearBitsMask] spirv.NoAttrs ;;
      storeVal <- shiftValue value offset mask dstBits ;;
      adjustedPtr <- adjustAccessChainForBitwidth accessChainOp srcBits dstBits ;;
      result <- create spirv.AtomicAndOp dstType [adjustedPtr; clearBitsMask]
                  (spirv.AtomicAttrs spirv.Device spirv.AcquireRelease) ;;
      result <- create spirv.AtomicOrOp dstType [adjustedPtr; storeVal]
                  (spirv.AtomicAttrs spirv.Device spirv.AcquireRelease) ;;
      (* The AtomicOrOp has no side effect. Since it is already inserted,
         we can just remove the original StoreOp. *)
      eraseOp ;;;
      unused <- use_empty (acResult accessChainOp) ;;
      assert_ unused "accessChainOp.use_empty()" ;;;
      eraseCreatedOp (acResult accessChainOp) ;;;
      ret success.

(** Converts std.store to spv.Store. *)
Definition StoreOpPattern (storeOp : StoreOp) (value memref : Value)
    (storeIndices : list Value) : Rewriter LogicalResult :=
  memrefType <- cast (castMemRefType (storeMemrefType storeOp)) "cast<MemRefType>()" ;;
  if isSignlessInteger (getElementType memrefType) then ret failure
  else
    storePtr <- getElementPtr memrefType memref storeIndices ;;
    replaceOpWithNewOp0 spirv.StoreOp [acResult storePtr; value] spirv.NoAttrs ;;;
    ret success.

End Patterns.

(* ================================================================== *)
(** * Pattern population *)
(* ================================================================== *)

(** The pattern classes, with the template arguments of each
    instantiation. *)
Inductive Pattern :=
| UnaryAndBinaryOp (StdOp : StdOpKind) (SPIRVOp : spirv.Opcode)
| BitwiseOp (StdOp : StdOpKind) (SPIRVLogicalOp SPIRVBitwiseOp : spirv.Opcode)
| BoolCmpIOp | ConstantCompositeOp | ConstantScalarOp | CmpFOpP | CmpIOpP
| IntLoadOp | LoadOpP | ReturnOpP | SelectOpP | IntStoreOp | StoreOpP
| TypeCastingOp (StdOp : StdOpKind) (SPIRVOp : spirv.Opcode)
| XOrOpP.

Definition populateStandardToSPIRVPatterns : list Pattern :=
  [ UnaryAndBinaryOp AbsFOp spirv.GLSLFAbsOp;
    UnaryAndBinaryOp AddFOp spirv.FAddOp;
    UnaryAndBinaryOp AddIOp spirv.IAddOp;
    UnaryAndBinaryOp CeilFOp spirv.GLSLCeilOp;
    UnaryAndBinaryOp CosOp spirv.GLSLCosOp;
    UnaryAndBinaryOp DivFOp spirv.FDivOp;
    UnaryAndBinaryOp ExpOp spirv.GLSLExpOp;
    UnaryAndBinaryOp LogOp spirv.GLSLLogOp;
    UnaryAndBinaryOp MulFOp spirv.FMulOp;
    UnaryAndBinaryOp MulIOp spirv.IMulOp;
    UnaryAndBinaryOp NegFOp spirv.FNegateOp;
    UnaryAndBinaryOp RemFOp spirv.FRemOp;
    UnaryAndBinaryOp RsqrtOp spirv.GLSLInverseSqrtOp;
    UnaryAndBinaryOp ShiftLeftOp spirv.ShiftLeftLogicalOp;
    UnaryAndBinaryOp SignedDivIOp spirv.SDivOp;
    UnaryAndBinaryOp SignedRemIOp spirv.SRemOp;
    UnaryAndBinaryOp SignedShiftRightOp spirv.ShiftRightArithmeticOp;
    UnaryAndBinaryOp SinOp spirv.GLSLSinOp;
    UnaryAndBinaryOp SqrtOp spirv.GLSLSqrtOp;
    UnaryAndBinaryOp SubFOp spirv.FSubOp;
    UnaryAndBinaryOp SubIOp spirv.ISubOp;
    UnaryAndBinaryOp TanhOp spirv.GLSLTanhOp;
    UnaryAndBinaryOp UnsignedDivIOp spirv.UDivOp;
    UnaryAndBinaryOp UnsignedRemIOp spirv.UModOp;
    UnaryAndBinaryOp UnsignedShiftRightOp spirv.ShiftRightLogicalOp;
    BitwiseOp AndOp spirv.LogicalAndOp spirv.BitwiseAndOp;
    BitwiseOp OrOp spirv.LogicalOrOp spirv.BitwiseOrOp;
    BoolCmpIOp; ConstantCompositeOp; ConstantScalarOp;
    CmpFOpP; CmpIOpP; IntLoadOp; LoadOpP;
    ReturnOpP; SelectOpP; IntStoreOp; StoreOpP;
    TypeCastingOp IndexCastOp spirv.SConvertOp;
    TypeCastingOp SIToFPOp spirv.ConvertSToFOp;
    TypeCastingOp ZeroExtendIOp spirv.UConvertOp;
    TypeCastingOp TruncateIOp spirv.SConvertOp;
    TypeCastingOp FPToSIOp spirv.ConvertFToSOp;
    TypeCastingOp FPExtOp spirv.FConvertOp;
    TypeCastingOp FPTruncOp spirv.FConvertOp;
    XOrOpP ].

(** The patterns that rewrite a one-result Standard operation through the
    generic operand list, applied to an operation of the kind they are
    registered for. *)
Definition matchAndRewrite (typeConverter : SPIRVTypeConverter) (p : Pattern)
    (operation : StdOp) (operands : list Value)
    : option (Rewriter LogicalResult) :=
  let forKind k r :=
    if StdOpKind_eqb k (stdKind operation) then Some r else None in
  match p with
  | UnaryAndBinaryOp k SPIRVOp =>
      forKind k (UnaryAndBinaryOpPattern typeConverter SPIRVOp operation operands)
  | BitwiseOp k SPIRVLogicalOp SPIRVBitwiseOp =>
      forKind k (BitwiseOpPattern typeConverter SPIRVLogicalOp SPIRVBitwiseOp
                                  operation operands)
  | TypeCastingOp k SPIRVOp =>
      forKind k (TypeCastingOpPattern typeConverter SPIRVOp operation operands)
  | XOrOpP => forKind XOrOp (XOrOpPattern typeConverter operation operands)
  | _ => None
  end.

(* ================================================================== *)
(** * Meaning of the emitted instructions *)
(* ================================================================== *)

(** The instructions are evaluated as the SPIR-V specification defines
    them, on one buffer of target words: the storage a converted memref
    points to is a struct whose member 0 is the array of words. *)
Module Exec.

(** A run-time value: an integer kept as the unsigned number of its bit
    pattern, the pointer to the buffer, or a pointer to one of its words. *)
Inductive RtValue :=
| RtInt (z : Z)
| RtBuffer
| RtWord (index : Z).

Definition Env := nat -> option RtValue.
Definition Memory := Z -> Z.

Record Machine := mkMachine { env : Env; memory : Memory }.

(** Wrap-around to [w] bits. *)
Definition wrap (w z : Z) : Z := z mod 2 ^ w.

(** The two's-complement reading of a [w]-bit pattern. *)
Definition signed (w z : Z) : Z := if z <? 2 ^ (w - 1) then z else z - 2 ^ w.

Definition setEnv (e : Env) (id : nat) (v : RtValue) : Env :=
  fun k => if Nat.eqb k id then Some v else e k.

Definition setWord (m : Memory) (index : Z) (word : Z) : Memory :=
  fun k => if k =? index then word else m k.

Definition intOperand (e : Env) (v : Value) : option Z :=
  match e (valueId v) with Some (RtInt z) => Some z | _ => None end.

Definition ptrOperand (e : Env) (v : Value) : option Z :=
  match e (valueId v) with Some (RtWord k) => Some k | _ => None end.

Definition widthOf (t : option Ty) : option Z :=
  match t with Some (IntegerType w _) => Some w | _ => None end.

(** The environment in which the values numbered [0], [1], ... are the
    given ones: the converted operands of the matched operation. *)
Definition args (vals : list RtValue) : Env := fun k => nth_error vals k.

Definition bindResult (m : Machine) (id : nat) (v : RtValue) : Machine :=
  mkMachine (setEnv (env m) id v) (memory m).

(** A binary integer instruction of result width [w]. *)
Definition binary (m : Machine) (id : nat) (op : spirv.Operation)
    (f : Z -> Z -> Z -> option Z) : option Machine :=
  match spirv.operands op, widthOf (spirv.resultType op) with
  | [a; b], Some w =>
      match intOperand (env m) a, intOperand (env m) b with
      | Some x, Some y =>
          match f w x y with
          | Some z => Some (bindResult m id (RtInt z))
          | None => None
          end
      | _, _ => None
      end
  | _, _ => None
  end.

(** One instruction.  [None] stands for an instruction whose result the
    SPIR-V specification leaves undefined (a zero divisor, a shift by the
    width or more) or that is ill-formed. *)
Definition step (m : Machine) (inst : nat * spirv.Operation) : option Machine :=
  let (id, op) := inst in
  match spirv.opcode op with
  | spirv.ConstantOp =>
      match spirv.attrs op with
      | spirv.ValueAttr (IntegerAttr _ a) => Some (bindResult m id (RtInt (U a)))
      | _ => None
      end
  | spirv.SModOp =>
      (* the sign of the result matches the sign of operand 2 *)
      binary m id op (fun w x y =>
        if signed w y =? 0 then None
        else Some (wrap w (signed w x mod signed w y)))
  | spirv.SDivOp =>
      binary m id op (fun w x y =>
        if signed w y =? 0 then None
        else Some (wrap w (Z.quot (signed w x) (signed w y))))
  | spirv.IMulOp => binary m id op (fun w x y => Some (wrap w (x * y)))
  | spirv.ShiftRightArithmeticOp =>
      binary m id op (fun w x y =>
        if y <? w then Some (wrap w (Z.shiftr (signed w x) y)) else None)
  | spirv.ShiftLeftLogicalOp =>
      binary m id op (fun w x y =>
        if y <? w then Some (wrap w (Z.shiftl x y)) else None)
  | spirv.BitwiseAndOp => binary m id op (fun w x y => Some (Z.land x y))
  | spirv.NotOp =>
      match spirv.operands op, widthOf (spirv.resultType op) with
      | [a], Some w =>
          match intOperand (env m) a with
          | Some x => Some (bindResult m id (RtInt (wrap w (Z.lnot x))))
          | None => None
          end
      | _, _ => None
      end
  | spirv.AccessChainOp =>
      match spirv.operands op with
      | [base; member; index] =>
          match env m (valueId base), intOperand (env m) member,
                intOperand (env m) index, widthOf (Some (valueType index)) with
          | Some RtBuffer, Some 0, Some i, Some w =>
              Some (bindResult m id (RtWord (signed w i)))
          | _, _, _, _ => None
          end
      | _ => None
      end
  | spirv.LoadOp =>
      match spirv.operands op with
      | [ptr] =>
          match ptrOperand (env m) ptr with
          | Some k => Some (bindResult m id (RtInt (memory m k)))
          | None => None
          end
      | _ => None
      end
  | spirv.StoreOp =>
      match spirv.operands op with
      | [ptr; v] =>
          match ptrOperand (env m) ptr, intOperand (env m) v with
          | Some k, Some x => Some (mkMachine (env m) (setWord (memory m) k x))
          | _, _ => None
          end
      | _ => None
      end
  | spirv.AtomicAndOp =>
      match spirv.operands op with
      | [ptr; v] =>
          match ptrOperand (env m) ptr, intOperand (env m) v with
          | Some k, Some x =>
              let old := memory m k in
              Some (mkMachine (setEnv (env m) id (RtInt old))
                              (setWord (memory m) k (Z.land old x)))
          | _, _ => None
          end
      | _ => None
      end
  | spirv.AtomicOrOp =>
      match spirv.operands op with
      | [ptr; v] =>
          match ptrOperand (env m) ptr, intOperand (env m) v with
          | Some k, Some x =>
              let old := memory m k in
              Some (mkMachine (setEnv (env m) id (RtInt old))
                              (setWord (memory m) k (Z.lor old x)))
          | _, _ => None
          end
      | _ => None
      end
  | _ => None
  end.

(** The instructions of a rewrite, run in the order they were inserted. *)
Fixpoint run (insts : list (nat * spirv.Operation)) (m : Machine)
    : option Machine :=
  match insts with
  | [] => Some m
  | inst :: rest =>
      match step m inst with
      | Some m' => run rest m'
      | None => None
      end
  end.

(** The [j]-th narrow element of a buffer whose [targetBits]-bit words pack
    [targetBits / sourceBits] elements of [sourceBits] bits each, the
    element of lowest index in the low bits. *)
Definition element (sourceBits targetBits : Z) (mem : Memory) (j : Z) : Z :=
  let r := targetBits / sourceBits in
  Z.shiftr (mem (j / r)) ((j mod r) * sourceBits) mod 2 ^ sourceBits.

End Exec.

(* ================================================================== *)
(** * A sample conversion setting *)
(* ================================================================== *)

(** Modelled from the spec: the type converter is defined in
    SPIRVLowering.cpp, which is not part of this file.  1-bit integers
    stay boolean, scalars of an unsupported width become 32 bits wide,
    [index] becomes [i32], a vector of up to four elements stays a vector
    and any other vector or tensor becomes an array of its number of
    elements, and a memref becomes a pointer to a struct holding the array
    of converted elements. *)
Fixpoint sampleConvertType (t : Ty) : option Ty :=
  match t with
  | IndexType => Some i32
  | IntegerType 1 s => Some (IntegerType 1 s)
  | IntegerType _ s => Some (IntegerType 32 s)
  | FloatType _ => Some f32
  | VectorType s e =>
      match sampleConvertType e, s with
      | Some e', [n] =>
          if n <=? 4 then Some (VectorType [n] e') else Some (SpvArrayType e' n)
      | Some e', _ => Some (SpvArrayType e' (fold_right Z.mul 1 s))
      | None, _ => None
      end
  | RankedTensorType s e =>
      match sampleConvertType e with
      | Some e' => Some (SpvArrayType e' (fold_right Z.mul 1 s))
      | None => None
      end
  | MemRefType s e =>
      match sampleConvertType e, getIntOrFloatBitWidth e with
      | Some e', Some w =>
          Some (SpvPointerType
                  (SpvStructType (SpvArrayType e' ((fold_right Z.mul 1 s * w + 31) / 32)))
                  StorageBuffer)
      | _, _ => None
      end
  | SpvArrayType _ _ | SpvRuntimeArrayType _ | SpvStructType _
  | SpvPointerType _ _ => Some t
  end.

Definition sampleTypeConverter : SPIRVTypeConverter :=
  {| convertType := sampleConvertType |}.

(** A stand-in for [APFloat::convert] in the examples: it hands the value
    back and reports the conversion as exact. *)
Definition sampleAPFloatConvert (v : APFloat) (_ : fltSemantics) (_ : roundingMode)
    : APFloat * opStatus * bool :=
  (v, opOK, false).

(** The converted type of a buffer of [count] 32-bit words. *)
Definition sampleBufferType (count : Z) : Ty :=
  SpvPointerType (SpvStructType (SpvArrayType i32 count)) StorageBuffer.

(** The rewriter a pattern starts from: nothing created, the matched
    operation untouched, [n] the first free value number. *)
Definition startState (n : nat) : RewriterState := mkState n [] Untouched.

(** The outcome of a pattern that succeeds by replacing the matched
    operation with exactly one new operation. *)
Definition replacedByOne (n : nat) (opc : spirv.Opcode) (type : option Ty)
    (operands : list Value) (attrs : spirv.Attrs)
    : Result (LogicalResult * RewriterState) :=
  Done (success,
        mkState (S n) [(n, spirv.mkOp opc type operands attrs)] (ReplacedWith [n])).

(** The outcome of a pattern that reports failure and has changed nothing. *)
Definition failedUntouched (n : nat) : Result (LogicalResult * RewriterState) :=
  Done (failure, startState n).

(** The atomic read-modify-write instructions among the created ones. *)
Definition isAtomic (inst : nat * spirv.Operation) : bool :=
  match spirv.opcode (snd inst) with
  | spirv.AtomicAndOp | spirv.AtomicOrOp => true
  | _ => false
  end.

(** [dst] is what the float converter makes of the element [src]. *)
Definition floatElementConverts
    (conv : APFloat -> fltSemantics -> roundingMode -> APFloat * opStatus * bool)
    (k : FloatKind) (src dst : Attribute) : Prop :=
  exists t v, src = FloatAttr t v /\ fst (convertFloatAttr conv t v k) = Some dst.

(** The float converter rejects the element [src]. *)
Definition floatElementFails
    (conv : APFloat -> fltSemantics -> roundingMode -> APFloat * opStatus * bool)
    (k : FloatKind) (src : Attribute) : Prop :=
  exists t v, src = FloatAttr t v /\ fst (convertFloatAttr conv t v k) = None.

(** [dst] is what the integer converter makes of the element [src]. *)
Definition integerElementConverts (w : Z) (s : Signedness) (src dst : Attribute)
    : Prop :=
  exists t v, src = IntegerAttr t v /\ fst (convertIntegerAttr t v w s) = Some dst.

(** The integer converter rejects the element [src]. *)
Definition integerElementFails (w : Z) (s : Signedness) (src : Attribute) : Prop :=
  exists t v, src = IntegerAttr t v /\ fst (convertIntegerAttr t v w s) = None.

(** The element type the composite pattern reads off the converted type. *)
Definition convertedCompositeElement (dstType : Ty) : option Ty :=
  match dstType with
  | SpvArrayType e _ => Some e
  | VectorType _ e => Some e
  | _ => None
  end.

(** The type under which the converted elements are packed again: the
    shape of the (linearized) attribute type with the new element type. *)
Definition repackedType (dstAttrType dstElemType : Ty) : Ty :=
  if isaRankedTensorType dstAttrType
  then RankedTensorType (getShape dstAttrType) dstElemType
  else VectorType (getShape dstAttrType) dstElemType.

(* ================================================================== *)
(** * ConstantOp with scalar type *)
(* ================================================================== *)

(** [Type::isIntOrIndexOrFloat()]. *)
Definition isIntOrIndexOrFloat (t : Ty) : bool :=
  isaIntegerType t || isIndex t || isaFloatType t.

Section ScalarConstants.

Variable typeConverter : SPIRVTypeConverter.
Variable APFloat_convert :
  APFloat -> fltSemantics -> roundingMode -> APFloat * opStatus * bool.

(** Converts scalar std.constant operation to spv.constant. *)
Definition ConstantScalarOpPattern (constOp : ConstantOp)
    (operands : list Value) : Rewriter LogicalResult :=
  let srcType := constType constOp in
  if negb (isIntOrIndexOrFloat srcType) then ret failure
  else
    match convertType typeConverter srcType with
    | None => ret failure
    | Some dstType =>
        (* Floating-point types. *)
        if isaFloatType srcType then
          srcAttr <- cast (match value constOp with
                           | FloatAttr t v => Some (t, v)
                           | _ => None
                           end) "constOp.value().cast<FloatAttr>()" ;;
          (* Floating-point types not supported in the target environment
             are all converted to float type. *)
          if negb (Ty_eqb srcType dstType) then
            dst <- cast (match dstType with FloatType k => Some k | _ => None end)
                        "dstType.cast<FloatType>()" ;;
            match fst (convertFloatAttr APFloat_convert (fst srcAttr) (snd srcAttr) dst) with
            | None => ret failure
            | Some dstAttr =>
                replaceOpWithNewOp spirv.ConstantOp (Some dstType) []
                                   (spirv.ValueAttr dstAttr) ;;;
                ret success
            end
          else
            replaceOpWithNewOp spirv.ConstantOp (Some dstType) []
              (spirv.ValueAttr (FloatAttr (fst srcAttr) (snd srcAttr))) ;;;
            ret success
        (* Bool type. *)
        else if isInteger srcType 1 then
          (* std.constant can use 0/1 instead of true/false for i1 values.
             We need to handle that here. *)
          match convertBoolAttr (value constOp) with
          | None => ret failure
          | Some dstAttr =>
              replaceOpWithNewOp spirv.ConstantOp (Some dstType) []
                                 (spirv.ValueAttr dstAttr) ;;;
              ret success
          end
        else
          (* IndexType or IntegerType. Index values are converted to 32-bit
             integer values when converting to SPIR-V. *)
          srcAttr <- cast (match value constOp with
                           | IntegerAttr t v => Some (t, v)
                           | _ => None
                           end) "constOp.value().cast<IntegerAttr>()" ;;
          dst <- cast (match dstType with
                       | IntegerType w s => Some (w, s)
                       | _ => None
                       end) "dstType.cast<IntegerType>()" ;;
          match fst (convertIntegerAttr (fst srcAttr) (snd srcAttr) (fst dst) (snd dst)) with
          | None => ret failure
          | Some dstAttr =>
              replaceOpWithNewOp spirv.ConstantOp (Some dstType) []
                                 (spirv.ValueAttr dstAttr) ;;;
              ret success
          end
    end.

End ScalarConstants.

(* ================================================================== *)
(** * The words of a buffer and the elements packed in them *)
(* ================================================================== *)

(** The type of the pointer that [spirv::getElementPtr] returns into a
    buffer of the given converted type. *)
Definition elementPtrType (bufferType : Ty) : Ty :=
  match bufferType with
  | SpvPointerType (SpvStructType (SpvArrayType e _)) sc => SpvPointerType e sc
  | SpvPointerType (SpvStructType (SpvRuntimeArrayType e)) sc => SpvPointerType e sc
  | t => t
  end.

(** The [s] bits of the word [w] that start at bit [off]. *)
Definition slice (s off w : Z) : Z := Z.shiftr w off mod 2 ^ s.

(** The word an index is adjusted to and the bit offset inside that word,
    as the emitted [spv.SDiv] and [spv.SMod], [spv.IMul] compute them on
    [dstBits]-bit values. *)
Definition wordOf (srcBits dstBits i : Z) : Z :=
  Exec.signed dstBits
    (Exec.wrap dstBits (Z.quot (Exec.signed dstBits i) (dstBits / srcBits))).

Definition offsetOf (srcBits dstBits i : Z) : Z :=
  (Exec.signed dstBits i mod (dstBits / srcBits)) * srcBits.

(** What the emitted [spv.Not] of the shifted mask and the emitted shift
    of the masked value compute on [W]-bit values. *)
Definition clearMask (W s off : Z) : Z :=
  Exec.wrap W (Z.lnot (Exec.wrap W (Z.shiftl (Z.ones s) off))).

Definition insertValue (W s off v : Z) : Z :=
  Exec.wrap W (Z.shiftl (Z.land v (Z.ones s)) off).

(** The word after the atomic AND with the clear mask. *)
Definition clearedWord (W s off w : Z) : Z := Z.land w (clearMask W s off).

(** The word after the atomic OR with the insert value. *)
Definition insertedWord (W s off v w : Z) : Z := Z.lor w (insertValue W s off v).

(** The instructions that neither read nor write the buffer. *)
Definition isPure (inst : nat * spirv.Operation) : bool :=
  match spirv.opcode (snd inst) with
  | spirv.LoadOp | spirv.StoreOp | spirv.AtomicAndOp | spirv.AtomicOrOp => false
  | _ => true
  end.

(** The loads among the created instructions. *)
Definition isLoad (inst : nat * spirv.Operation) : bool :=
  match spirv.opcode (snd inst) with
  | spirv.LoadOp => true
  | _ => false
  end.

(** An atomic instruction as the store pattern creates it: on the pointer
    numbered [ptrId] and the value numbered [valId], at [Device] scope with
    [AcquireRelease] semantics. *)
Definition atomicOn (opc : spirv.Opcode) (dstType : Ty) (sc : StorageClass)
    (id ptrId valId : nat) : nat * spirv.Operation :=
  (id, spirv.mkOp opc (Some dstType)
         [mkValue ptrId (SpvPointerType dstType sc); mkValue valId dstType]
         (spirv.AtomicAttrs spirv.Device spirv.AcquireRelease)).

(* ================================================================== *)
(** * Two invocations on one buffer *)
(* ================================================================== *)

(** One invocation: its own values and the instructions it has left. *)
Definition Lane : Type := Exec.Env * list (nat * spirv.Operation).

(** Two invocations that share the buffer, advanced one instruction at a
    time in the order of the schedule: [true] lets the first invocation
    execute its next instruction, [false] the second.  Every instruction,
    an atomic one included, is one indivisible step.  An invocation that
    has finished ignores its turn. *)
Fixpoint interleave (schedule : list bool) (a b : Lane) (mem : Exec.Memory)
    : option (Lane * Lane * Exec.Memory) :=
  match schedule with
  | [] => Some (a, b, mem)
  | turn :: rest =>
      let cur := if turn : bool then a else b in
      match snd cur with
      | [] => interleave rest a b mem
      | inst :: insts =>
          match Exec.step (Exec.mkMachine (fst cur) mem) inst with
          | Some m =>
              let cur' := (Exec.env m, insts) in
              if turn then interleave rest cur' b (Exec.memory m)
              else interleave rest a cur' (Exec.memory m)
          | None => None
          end
      end
  end.

(** How far an invocation has come with its store: before the atomic AND,
    between the AND and the OR, after the OR. *)
Inductive Phase := Before | Cleared | Stored.

(** The order of the phases. *)
Definition follows (ph ph' : Phase) : Prop :=
  match ph, ph' with
  | Before, Before | Before, Cleared | Cleared, Stored => True
  | _, _ => False
  end.

(** Bit [n] of word [k] lies in the [s] bits at [off] of word [w]. *)
Definition inRange (s w off k n : Z) : bool :=
  (k =? w) && (off <=? n) && (n <? off + s).

(** Bit [n] of word [k] as the store of [v] into the [s] bits at [off]
    of word [w] leaves it in each phase, [old] being the bit before. *)
Definition bitOf (s : Z) (ph : Phase) (w off v k n : Z) (old : bool) : bool :=
  if inRange s w off k n then
    match ph with
    | Before => old
    | Cleared => false
    | Stored => Z.testbit v (n - off)
    end
  else old.

(** An invocation of the store of [v] into the [s] bits at [off] of the
    [W]-bit word [w], in the given phase. *)
Definition laneOk (W s : Z) (sc : StorageClass) (w off v : Z) (ph : Phase)
    (l : Lane) : Prop :=
  match ph with
  | Before =>
      exists rest e,
        snd l = rest ++ [atomicOn spirv.AtomicAndOp (IntegerType W Signless) sc 17 16 11;
                         atomicOn spirv.AtomicOrOp (IntegerType W Signless) sc 18 16 13] /\
        forallb isPure rest = true /\
        (forall mem, Exec.run rest (Exec.mkMachine (fst l) mem)
                     = Some (Exec.mkMachine e mem)) /\
        e 16%nat = Some (Exec.RtWord w) /\
        e 11%nat = Some (Exec.RtInt (clearMask W s off)) /\
        e 13%nat = Some (Exec.RtInt (insertValue W s off v))
  | Cleared =>
      snd l = [atomicOn spirv.AtomicOrOp (IntegerType W Signless) sc 18 16 13] /\
      fst l 16%nat = Some (Exec.RtWord w) /\
      fst l 13%nat = Some (Exec.RtInt (insertValue W s off v))
  | Stored => snd l = []
  end.

(** The buffer while two invocations are in the given phases, [mem0]
    being the buffer before either began. *)
Definition memOk (s wA offA vA wB offB vB : Z) (mem0 : Exec.Memory)
    (phA phB : Phase) (mem : Exec.Memory) : Prop :=
  forall k n, 0 <= n ->
    Z.testbit (mem k) n =
    bitOf s phA wA offA vA k n (bitOf s phB wB offB vB k n (Z.testbit (mem0 k) n)).

(* ================================================================== *)
(** * The conversion of floats *)
(* ================================================================== *)

(** Modelled from the spec: the formats [semIEEEhalf], [semIEEEsingle] and
    [semIEEEdouble] are declared in LLVM's support library
    (llvm/lib/Support/APFloat.cpp), which is not part of this file.  These
    are the IEEE 754 binary formats: the precision in bits, the hidden bit
    included, and the range of the exponent. *)
Definition precision (s : fltSemantics) : Z :=
  match s with IEEEhalf => 11 | IEEEsingle => 24 | IEEEdouble => 53 end.

Definition minExponent (s : fltSemantics) : Z :=
  match s with IEEEhalf => -14 | IEEEsingle => -126 | IEEEdouble => -1022 end.

Definition maxExponent (s : fltSemantics) : Z :=
  match s with IEEEhalf => 15 | IEEEsingle => 127 | IEEEdouble => 1023 end.

(** A finite [x] other than zero denotes the number
    [(-1) ^ sign * significand * 2 ^ (exponent - (precision - 1))]: the
    significand is an integer of [precision] bits whose highest bit has
    the weight [2 ^ exponent].  This is the weight of its lowest bit, as a
    power of two. *)
Definition ulpExponent (x : APFloat) : Z :=
  exponent x - (precision (semantics x) - 1).

(** Modelled from the spec: [APFloat::convert] is defined in LLVM's
    support library (llvm/lib/Support/APFloat.cpp), which is not part of
    this file.  The spec says that the conversion rounds toward zero and
    that it reports exact success with no precision lost exactly for a
    float that the destination holds without rounding error.  This is that
    conversion between the IEEE formats for [rmTowardZero], the one
    rounding mode this file asks for.  A finite number keeps the
    significand bits that fit the destination and drops the others; the
    status is [opOK] and [losesInfo] is clear exactly when no bit that is
    set is dropped.  A number beyond the largest finite one of the
    destination becomes that one, inexactly.  Zero and the infinities
    convert exactly.  A NaN keeps the high bits of its payload and
    reports [opOK]; [losesInfo] tells whether payload bits were dropped.
    Where the library sets several status flags at once the first of them
    is given. *)
Definition convertTowardZero (x : APFloat) (toSemantics : fltSemantics)
    : APFloat * opStatus * bool :=
  let p := precision toSemantics in
  let zero := mkAPFloat toSemantics fcZero (sign x) (minExponent toSemantics - 1) 0 in
  match category x with
  | fcZero => (zero, opOK, false)
  | fcInfinity =>
      (mkAPFloat toSemantics fcInfinity (sign x) (maxExponent toSemantics + 1) 0,
       opOK, false)
  | fcNaN =>
      let shift := precision (semantics x) - p in
      let payload := Z.shiftr (significand x) shift in
      (mkAPFloat toSemantics fcNaN (sign x) (maxExponent toSemantics + 1) payload,
       opOK, negb (Z.shiftl payload shift =? significand x))
  | fcNormal =>
      let leading := ulpExponent x + Z.log2 (significand x) in
      if maxExponent toSemantics <? leading then
        (mkAPFloat toSemantics fcNormal (sign x) (maxExponent toSemantics) (2 ^ p - 1),
         opInexact, true)
      else
        let e := Z.max leading (minExponent toSemantics) in
        let shift := e - (p - 1) - ulpExponent x in
        let m := Z.shiftr (significand x) shift in
        if Z.shiftl m shift =? significand x then
          (mkAPFloat toSemantics fcNormal (sign x) e m, opOK, false)
        else if m =? 0 then (zero, opUnderflow, true)
        else (mkAPFloat toSemantics fcNormal (sign x) e m,
              if m <? 2 ^ (p - 1) then opUnderflow else opInexact, true)
  end.

(** The significand and the exponent of a finite number other than zero
    are in the range of its format, and the number is normalized: the
    highest bit of the significand is set unless the exponent is the
    smallest one. *)
Definition wellFormed (x : APFloat) : Prop :=
  let s := semantics x in
  0 < significand x < 2 ^ precision s /\
  minExponent s <= exponent x <= maxExponent s /\
  (2 ^ (precision s - 1) <= significand x \/ exponent x = minExponent s).

(** Two finite floats, of any two formats, denote the same number. *)
Definition sameNumber (x y : APFloat) : Prop :=
  let k := Z.min (ulpExponent x) (ulpExponent y) in
  sign x = sign y /\
  significand x * 2 ^ (ulpExponent x - k) = significand y * 2 ^ (ulpExponent y - k).

(** [y] is a finite number other than zero of the format [s]. *)
Definition finiteIn (s : fltSemantics) (y : APFloat) : Prop :=
  semantics y = s /\ category y = fcNormal /\ wellFormed y.

(* ================================================================== *)
(** * Builds without assertions *)
(* ================================================================== *)

(** The definitions above stop in a failed [assert], as a build with
    assertions enabled does.  The helpers and the two integer patterns
    follow once more, with the build as a parameter. *)

(** How the [assert] macro is compiled: with [NDEBUG] defined, as in a
    release build, it expands to nothing. *)
Inductive Build := AssertionsEnabled | NDEBUG.

(** [assert(cond)] in the given build. *)
Definition assertIn (build : Build) (cond : bool) (what : string) : Rewriter unit :=
  match build with
  | AssertionsEnabled => assert_ cond what
  | NDEBUG => ret tt
  end.

Section Builds.

Variable build : Build.
Variable typeConverter : SPIRVTypeConverter.

(** [getOffsetForBitwidth] in the given build. *)
Definition getOffsetForBitwidthIn (srcIdx : Value) (sourceBits targetBits : Z)
    : Rewriter Value :=
  assertIn build (targetBits mod sourceBits =? 0) "targetBits % sourceBits == 0" ;;;
  let targetType := IntegerType targetBits Signless in
  let idxAttr := getIntegerAttr targetType (targetBits / sourceBits) in
  idx <- create spirv.ConstantOp targetType [] (spirv.ValueAttr idxAttr) ;;
  let srcBitsAttr := getIntegerAttr targetType sourceBits in
  srcBitsValue <- create spirv.ConstantOp targetType [] (spirv.ValueAttr srcBitsAttr) ;;
  m <- create spirv.SModOp (valueType srcIdx) [srcIdx; idx] spirv.NoAttrs ;;
  create spirv.IMulOp targetType [m; srcBitsValue] spirv.NoAttrs.

(** [adjustAccessChainForBitwidth] in the given build. *)
Definition adjustAccessChainForBitwidthIn (op : AccessChain)
    (sourceBits targetBits : Z) : Rewriter Value :=
  assertIn build (targetBits mod sourceBits =? 0) "targetBits % sourceBits == 0" ;;;
  let targetType := IntegerType targetBits Signless in
  let attr := getIntegerAttr targetType (targetBits / sourceBits) in
  idx <- create spirv.ConstantOp targetType [] (spirv.ValueAttr attr) ;;
  let lastDim := lastOperand op in
  let indices := indices op in
  assertIn build (Nat.eqb (List.length indices) 2) "indices.size() == 2" ;;;
  back <- create spirv.SDivOp (valueType lastDim) [lastDim; idx] spirv.NoAttrs ;;
  let indices := setBack indices back in
  match convertType typeConverter (valueType (acResult op)) with
  | Some t => create spirv.AccessChainOp t (base_ptr op :: indices) spirv.NoAttrs
  | None => undefined "spirv::AccessChainOp built with a null result type"
  end.

(** [IntLoadOpPattern::matchAndRewrite] in the given build. *)
Definition IntLoadOpPatternIn (loadOp : LoadOp) (memref : Value)
    (loadIndices : list Value) : Rewriter LogicalResult :=
  memrefType <- cast (castMemRefType (loadMemrefType loadOp)) "cast<MemRefType>()" ;;
  if negb (isSignlessInteger (getElementType memrefType)) then ret failure
  else
    accessChainOp <- getElementPtr memrefType memref loadIndices ;;
    srcBits <- cast (getIntOrFloatBitWidth (getElementType memrefType))
                    "getIntOrFloatBitWidth()" ;;
    dstType <- cast (convertedElementType typeConverter memrefType)
                    "cast<PointerType/StructType/ArrayType>()" ;;
    dstBits <- cast (getIntOrFloatBitWidth dstType) "getIntOrFloatBitWidth()" ;;
    assertIn build (dstBits mod srcBits =? 0) "dstBits % srcBits == 0" ;;;
    if srcBits =? dstBits then
      replaceOpWithNewOp spirv.LoadOp
        (Some (getElementType (valueType (acResult accessChainOp))))
        [acResult accessChainOp] spirv.NoAttrs ;;;
      ret success
    else
      assertIn build (Nat.eqb (List.length (indices accessChainOp)) 2)
               "accessChainOp.indices().size() == 2" ;;;
      adjustedPtr <- adjustAccessChainForBitwidthIn accessChainOp srcBits dstBits ;;
      spvLoadOp <- create spirv.LoadOp dstType [adjustedPtr]
                     (spirv.MemoryAccessAttrs (loadMemoryAccess loadOp)
                                              (loadAlignment loadOp)) ;;
      let lastDim := lastOperand accessChainOp in
      offset <- getOffsetForBitwidthIn lastDim srcBits dstBits ;;
      result <- create spirv.ShiftRightArithmeticOp (valueType spvLoadOp)
                       [spvLoadOp; offset] spirv.NoAttrs ;;
      mask <- create spirv.ConstantOp dstType []
                (spirv.ValueAttr (getIntegerAttr dstType (lowBitsMask srcBits))) ;;
      result <- create spirv.BitwiseAndOp dstType [result; mask] spirv.NoAttrs ;;
      replaceOp [result] ;;;
      unused <- use_empty (acResult accessChainOp) ;;
      assertIn build unused "accessChainOp.use_empty()" ;;;
      eraseCreatedOp (acResult accessChainOp) ;;;
      ret success.

(** [IntStoreOpPattern::matchAndRewrite] in the given build. *)
Definition IntStoreOpPatternIn (storeOp : StoreOp) (value memref : Value)
    (storeIndices : list Value) : Rewriter LogicalResult :=
  memrefType <- cast (castMemRefType (storeMemrefType storeOp)) "cast<MemRefType>()" ;;
  if negb (isSignlessInteger (getElementType memrefType)) then ret failure
  else
    accessChainOp <- getElementPtr memrefType memref storeIndices ;;
    srcBits <- cast (getIntOrFloatBitWidth (getElementType memrefType))
                    "getIntOrFloatBitWidth()" ;;
    dstType <- cast (convertedElementType typeConverter memrefType)
                    "cast<PointerType/StructType/ArrayType>()" ;;
    dstBits <- cast (getIntOrFloatBitWidth dstType) "getIntOrFloatBitWidth()" ;;
    assertIn build (dstBits mod srcBits =? 0) "dstBits % srcBits == 0" ;;;
    if srcBits =? dstBits then
      replaceOpWithNewOp0 spirv.StoreOp [acResult accessChainOp; value]
                          spirv.NoAttrs ;;;
      ret success
    else
      assertIn build (Nat.eqb (List.length (indices accessChainOp)) 2)
               "accessChainOp.indices().size() == 2" ;;;
      let lastDim := lastOperand accessChainOp in
      offset <- getOffsetForBitwidthIn lastDim srcBits dstBits ;;
      mask <- create spirv.ConstantOp dstType []
                (spirv.ValueAttr (getIntegerAttr dstType (lowBitsMask srcBits))) ;;
      clearBitsMask <- create spirv.ShiftLeftLogicalOp dstType [mask; offset]
                              spirv.NoAttrs ;;
      clearBitsMask <- create spirv.NotOp dstType [clearBitsMask] spirv.NoAttrs ;;
      storeVal <- shiftValue value offset mask dstBits ;;
      adjustedPtr <- adjustAccessChainForBitwidthIn accessChainOp srcBits dstBits ;;
      result <- create spirv.AtomicAndOp dstType [adjustedPtr; clearBitsMask]
                  (spirv.AtomicAttrs spirv.Device spirv.AcquireRelease) ;;
      result <- create spirv.AtomicOrOp dstType [adjustedPtr; storeVal]
                  (spirv.AtomicAttrs spirv.Device spirv.AcquireRelease) ;;
      eraseOp ;;;
      unused <- use_empty (acResult accessChainOp) ;;
      assertIn build unused "accessChainOp.use_empty()" ;;;
      eraseCreatedOp (acResult accessChainOp) ;;;
      ret success.

End Builds.

(* ================================================================== *)
(** * Properties of the one-to-one patterns *)
(* ================================================================== *)

Lemma isBoolScalarOrVector_spec (t : Ty) :
  isBoolScalarOrVector t = true <->
  (exists s, t = IntegerType 1 s) \/
  (exists shape s, t = VectorType shape (IntegerType 1 s)).
Proof.
  unfold isBoolScalarOrVector, isInteger. split.
  - destruct t as [| w s | | sh e | | | | | |]; try discriminate.
    + destruct (Z.eqb_spec w 1) as [->|]; [left; eauto | discriminate].
    + destruct e as [| w s | | | | | | | |]; try discriminate.
      destruct (Z.eqb_spec w 1) as [->|]; [right; eauto | discriminate].
  - intros [[s ->] | [sh [s ->]]]; reflexivity.
Qed.

Lemma isBoolScalarOrVector_wider (w : Z) (s : Signedness) :
  w <> 1 -> isBoolScalarOrVector (IntegerType w s) = false.
Proof.
  intros Hw. unfold isBoolScalarOrVector, isInteger.
  destruct (Z.eqb_spec w 1); [contradiction | reflexivity].
Qed.

(** Splits membership in the registration list into its entries. *)
Ltac registered H :=
  unfold populateStandardToSPIRVPatterns in H; simpl in H;
  repeat (destruct H as [H | H]; [try discriminate H | ]); try contradiction.

Lemma matchAndRewrite_BitwiseOp tc operation operands k L B p rw :
  stdKind operation = k ->
  In p populateStandardToSPIRVPatterns ->
  In (BitwiseOp k L B) populateStandardToSPIRVPatterns ->
  matchAndRewrite tc p operation operands = Some rw ->
  rw = BitwiseOpPattern tc L B operation operands.
Proof.
  intros Hk Hp HB Hrw.
  registered HB; injection HB as <- <- <-;
    registered Hp; subst p; unfold matchAndRewrite in Hrw;
    try rewrite Hk in Hrw; simpl in Hrw; try discriminate; congruence.
Qed.

Lemma BitwiseOpPattern_run tc L B operation lhs rhs dstType n :
  convertType tc (getType operation) = Some dstType ->
  BitwiseOpPattern tc L B operation [lhs; rhs] (startState n) =
  replacedByOne n (if isBoolScalarOrVector (valueType lhs) then L else B)
                (Some dstType) [lhs; rhs] spirv.NoAttrs.
Proof.
  intros H. unfold BitwiseOpPattern, bind, assert_. simpl. rewrite H. simpl.
  destruct (isBoolScalarOrVector (valueType lhs)); reflexivity.
Qed.

Lemma XOrOpPattern_run tc operation lhs rhs n :
  XOrOpPattern tc operation [lhs; rhs] (startState n) =
  if isBoolScalarOrVector (valueType lhs) then failedUntouched n
  else match convertType tc (getType operation) with
       | Some dstType =>
           replacedByOne n spirv.BitwiseXorOp (Some dstType) [lhs; rhs] spirv.NoAttrs
       | None => failedUntouched n
       end.
Proof.
  unfold XOrOpPattern, bind, assert_. simpl.
  destruct (isBoolScalarOrVector (valueType lhs)); [reflexivity|].
  destruct (convertType tc (getType operation)); reflexivity.
Qed.

(** C5.  AND and OR each have one registered pattern; on an operation
    whose result type converts it emits the logical opcode when the first
    converted operand is a 1-bit integer or a vector of 1-bit integers, and
    the bitwise opcode otherwise, in particular for every wider integer.
    The one pattern registered for XOR reports failure on such boolean
    operands, whatever the type converter says, and emits the bitwise XOR
    on the others. *)
Theorem bitwise_patterns_dispatch_on_boolean_operands :
  forall (tc : SPIRVTypeConverter) (operation : StdOp) (lhs rhs : Value) (n : nat),
    let operands := [lhs; rhs] in
    let isBool := isBoolScalarOrVector (valueType lhs) in
    let registered := populateStandardToSPIRVPatterns in
    (* what "boolean operand" means *)
    (isBool = true <->
     (exists s, valueType lhs = IntegerType 1 s) \/
     (exists shape s, valueType lhs = VectorType shape (IntegerType 1 s))) /\
    (forall w s, valueType lhs = IntegerType w s -> w <> 1 -> isBool = false) /\
    (* AND *)
    (stdKind operation = AndOp ->
     (exists p rw, In p registered /\
                   matchAndRewrite tc p operation operands = Some rw) /\
     forall p rw dstType,
       In p registered ->
       matchAndRewrite tc p operation operands = Some rw ->
       convertType tc (getType operation) = Some dstType ->
       rw (startState n) =
       replacedByOne n (if isBool then spirv.LogicalAndOp else spirv.BitwiseAndOp)
                     (Some dstType) operands spirv.NoAttrs) /\
    (* OR *)
    (stdKind operation = OrOp ->
     (exists p rw, In p registered /\
                   matchAndRewrite tc p operation operands = Some rw) /\
     forall p rw dstType,
       In p registered ->
       matchAndRewrite tc p operation operands = Some rw ->
       convertType tc (getType operation) = Some dstType ->
       rw (startState n) =
       replacedByOne n (if isBool then spirv.LogicalOrOp else spirv.BitwiseOrOp)
                     (Some dstType) operands spirv.NoAttrs) /\
    (* XOR *)
    (stdKind operation = XOrOp ->
     (exists p rw, In p registered /\
                   matchAndRewrite tc p operation operands = Some rw) /\
     forall p rw,
       In p registered ->
       matchAndRewrite tc p operation operands = Some rw ->
       (isBool = true -> rw (startState n) = failedUntouched n) /\
       (forall dstType,
          isBool = false ->
          convertType tc (getType operation) = Some dstType ->
          rw (startState n) =
          replacedByOne n spirv.BitwiseXorOp (Some dstType) operands spirv.NoAttrs)).
Proof.
  intros tc operation lhs rhs n operands isBool registered.
  split; [apply isBoolScalarOrVector_spec|].
  split.
  { intros w s Ht Hw. unfold isBool. rewrite Ht.
    now apply isBoolScalarOrVector_wider. }
  split; [|split].
  - intros Hk. split.
    + exists (BitwiseOp AndOp spirv.LogicalAndOp spirv.BitwiseAndOp).
      eexists. split; [unfold registered; simpl; tauto|].
      unfold matchAndRewrite. rewrite Hk. reflexivity.
    + intros p rw dstType Hp Hrw Hty.
      rewrite (matchAndRewrite_BitwiseOp tc operation operands AndOp
                 spirv.LogicalAndOp spirv.BitwiseAndOp p rw Hk Hp); auto.
      * now apply BitwiseOpPattern_run.
      * simpl; tauto.
  - intros Hk. split.
    + exists (BitwiseOp OrOp spirv.LogicalOrOp spirv.BitwiseOrOp).
      eexists. split; [unfold registered; simpl; tauto|].
      unfold matchAndRewrite. rewrite Hk. reflexivity.
    + intros p rw dstType Hp Hrw Hty.
      rewrite (matchAndRewrite_BitwiseOp tc operation operands OrOp
                 spirv.LogicalOrOp spirv.BitwiseOrOp p rw Hk Hp); auto.
      * now apply BitwiseOpPattern_run.
      * simpl; tauto.
  - intros Hk. split.
    + exists XOrOpP. eexists. split; [unfold registered; simpl; tauto|].
      unfold matchAndRewrite. rewrite Hk. reflexivity.
    + intros p rw Hp Hrw.
      assert (rw = XOrOpPattern tc operation operands) as ->.
      { unfold registered in Hp. registered Hp; subst p;
          unfold matchAndRewrite in Hrw;
          try rewrite Hk in Hrw; simpl in Hrw; try discriminate; congruence. }
      unfold operands. rewrite XOrOpPattern_run. fold isBool. split.
      * intros ->. reflexivity.
      * intros dstType -> ->. reflexivity.
Qed.

(* ------------------------------------------------------------------ *)
(** ** Integer comparison *)
(* ------------------------------------------------------------------ *)

(** The guard shared by the two comparison patterns: the original
    left-hand operand is a scalar integer of width 1. *)
Lemma cmpi_guard (t : Ty) :
  isaIntegerType t && (match t with IntegerType w _ => w =? 1 | _ => false end) = true
  <-> exists s, t = IntegerType 1 s.
Proof.
  split.
  - destruct t as [| w s | | | | | | | |]; try discriminate. simpl.
    destruct (Z.eqb_spec w 1) as [->|]; [eauto | discriminate].
  - intros [s ->]. reflexivity.
Qed.

Lemma BoolCmpIOpPattern_run cmpIOp lhs rhs n :
  BoolCmpIOpPattern cmpIOp lhs rhs (startState n) =
  if isaIntegerType (lhsType cmpIOp)
     && (match lhsType cmpIOp with IntegerType w _ => w =? 1 | _ => false end)
  then match getPredicate cmpIOp with
       | CmpIPredicate.eq =>
           replacedByOne n spirv.LogicalEqualOp (Some (cmpResultType cmpIOp))
                         [lhs; rhs] spirv.NoAttrs
       | CmpIPredicate.ne =>
           replacedByOne n spirv.LogicalNotEqualOp (Some (cmpResultType cmpIOp))
                         [lhs; rhs] spirv.NoAttrs
       | _ => failedUntouched n
       end
  else failedUntouched n.
Proof.
  unfold BoolCmpIOpPattern.
  destruct (lhsType cmpIOp) as [| w s | | | | | | | |]; try reflexivity.
  simpl. destruct (w =? 1); simpl; [|reflexivity].
  destruct (getPredicate cmpIOp); reflexivity.
Qed.

Lemma CmpIOpPattern_run cmpIOp lhs rhs n :
  CmpIOpPattern cmpIOp lhs rhs (startState n) =
  if isaIntegerType (lhsType cmpIOp)
     && (match lhsType cmpIOp with IntegerType w _ => w =? 1 | _ => false end)
  then failedUntouched n
  else replacedByOne n
         (match getPredicate cmpIOp with
          | CmpIPredicate.eq => spirv.IEqualOp
          | CmpIPredicate.ne => spirv.INotEqualOp
          | CmpIPredicate.slt => spirv.SLessThanOp
          | CmpIPredicate.sle => spirv.SLessThanEqualOp
          | CmpIPredicate.sgt => spirv.SGreaterThanOp
          | CmpIPredicate.sge => spirv.SGreaterThanEqualOp
          | CmpIPredicate.ult => spirv.ULessThanOp
          | CmpIPredicate.ule => spirv.ULessThanEqualOp
          | CmpIPredicate.ugt => spirv.UGreaterThanOp
          | CmpIPredicate.uge => spirv.UGreaterThanEqualOp
          end)
         (Some (cmpResultType cmpIOp)) [lhs; rhs] spirv.NoAttrs.
Proof.
  unfold CmpIOpPattern.
  destruct (isaIntegerType (lhsType cmpIOp)
            && match lhsType cmpIOp with IntegerType w _ => w =? 1 | _ => false end);
    [reflexivity|].
  destruct (getPredicate cmpIOp); reflexivity.
Qed.

(** C6.  Both comparison patterns are registered.  On 1-bit integer
    operands the boolean pattern lowers [eq] and [ne] to the logical
    equal and not-equal and fails on the eight relational predicates, and
    the general pattern fails.  On integer operands of any other width the
    boolean pattern fails and the general pattern succeeds on all ten
    predicates through its table.  On no operation do both succeed. *)
Theorem integer_comparison_splits_on_width :
  forall (cmpIOp : CmpIOp) (lhs rhs : Value) (n : nat),
    let boolPattern := BoolCmpIOpPattern cmpIOp lhs rhs (startState n) in
    let generalPattern := CmpIOpPattern cmpIOp lhs rhs (startState n) in
    let emits opc :=
      replacedByOne n opc (Some (cmpResultType cmpIOp)) [lhs; rhs] spirv.NoAttrs in
    (In BoolCmpIOp populateStandardToSPIRVPatterns /\
     In CmpIOpP populateStandardToSPIRVPatterns) /\
    (* 1-bit operands *)
    (forall s,
       lhsType cmpIOp = IntegerType 1 s ->
       generalPattern = failedUntouched n /\
       boolPattern =
       match getPredicate cmpIOp with
       | CmpIPredicate.eq => emits spirv.LogicalEqualOp
       | CmpIPredicate.ne => emits spirv.LogicalNotEqualOp
       | CmpIPredicate.slt | CmpIPredicate.sle | CmpIPredicate.sgt
       | CmpIPredicate.sge | CmpIPredicate.ult | CmpIPredicate.ule
       | CmpIPredicate.ugt | CmpIPredicate.uge => failedUntouched n
       end) /\
    (* any other width *)
    (forall w s,
       lhsType cmpIOp = IntegerType w s -> w <> 1 ->
       boolPattern = failedUntouched n /\
       generalPattern =
       emits match getPredicate cmpIOp with
             | CmpIPredicate.eq => spirv.IEqualOp
             | CmpIPredicate.ne => spirv.INotEqualOp
             | CmpIPredicate.slt => spirv.SLessThanOp
             | CmpIPredicate.sle => spirv.SLessThanEqualOp
             | CmpIPredicate.sgt => spirv.SGreaterThanOp
             | CmpIPredicate.sge => spirv.SGreaterThanEqualOp
             | CmpIPredicate.ult => spirv.ULessThanOp
             | CmpIPredicate.ule => spirv.ULessThanEqualOp
             | CmpIPredicate.ugt => spirv.UGreaterThanOp
             | CmpIPredicate.uge => spirv.UGreaterThanEqualOp
             end) /\
    (* mutually exclusive *)
    (boolPattern = failedUntouched n \/ generalPattern = failedUntouched n).
Proof.
  intros cmpIOp lhs rhs n boolPattern generalPattern emits.
  unfold boolPattern, generalPattern.
  rewrite BoolCmpIOpPattern_run, CmpIOpPattern_run.
  split; [split; simpl; tauto|].
  split; [|split].
  - intros s ->. simpl. split; [reflexivity|].
    destruct (getPredicate cmpIOp); reflexivity.
  - intros w s -> Hw. simpl.
    destruct (Z.eqb_spec w 1); [contradiction|]. split; reflexivity.
  - destruct (isaIntegerType (lhsType cmpIOp)
              && match lhsType cmpIOp with IntegerType w _ => w =? 1 | _ => false end);
      [right | left]; reflexivity.
Qed.

(** C10.  When the operands of an integer comparison are vectors of 1-bit
    elements the boolean pattern fails and the general pattern succeeds
    on each of the ten predicates, with the ordinary integer comparison
    opcode of its table. *)
Theorem comparison_of_boolean_vectors_is_general :
  forall (predicate : CmpIPredicate.t) (shape : list Z) (s : Signedness)
         (resultType : Ty) (lhs rhs : Value) (n : nat),
    let cmpIOp := mkCmpIOp predicate (VectorType shape (IntegerType 1 s)) resultType in
    BoolCmpIOpPattern cmpIOp lhs rhs (startState n) = failedUntouched n /\
    CmpIOpPattern cmpIOp lhs rhs (startState n) =
    replacedByOne n
      match predicate with
      | CmpIPredicate.eq => spirv.IEqualOp
      | CmpIPredicate.ne => spirv.INotEqualOp
      | CmpIPredicate.slt => spirv.SLessThanOp
      | CmpIPredicate.sle => spirv.SLessThanEqualOp
      | CmpIPredicate.sgt => spirv.SGreaterThanOp
      | CmpIPredicate.sge => spirv.SGreaterThanEqualOp
      | CmpIPredicate.ult => spirv.ULessThanOp
      | CmpIPredicate.ule => spirv.ULessThanEqualOp
      | CmpIPredicate.ugt => spirv.UGreaterThanOp
      | CmpIPredicate.uge => spirv.UGreaterThanEqualOp
      end
      (Some resultType) [lhs; rhs] spirv.NoAttrs.
Proof.
  intros predicate shape s resultType lhs rhs n cmpIOp.
  rewrite BoolCmpIOpPattern_run, CmpIOpPattern_run. simpl.
  split; reflexivity.
Qed.

(* ------------------------------------------------------------------ *)
(** ** Casts *)
(* ------------------------------------------------------------------ *)

Lemma NType_eqb_spec (a b : option Ty) : NType_eqb a b = true <-> a = b.
Proof.
  destruct a as [x|], b as [y|]; simpl; unfold Ty_eqb;
    try (destruct (Ty_eq_dec x y)); split; congruence.
Qed.

Lemma TypeCastingOpPattern_run tc SPIRVOp operation operand n :
  TypeCastingOpPattern tc SPIRVOp operation [operand] (startState n) =
  if NType_eqb (convertType tc (getType operation)) (Some (valueType operand))
  then Done (success, mkState n [] (ReplacedWith [valueId operand]))
  else replacedByOne n SPIRVOp (convertType tc (getType operation)) [operand]
                     spirv.NoAttrs.
Proof.
  unfold TypeCastingOpPattern, bind, assert_. simpl.
  destruct (NType_eqb _ _); reflexivity.
Qed.

(** C7.  Each of the seven cast operations has one registered pattern.
    When the converted result type is the type of the converted operand
    the pattern creates nothing and replaces the operation by that
    operand; otherwise it replaces it by exactly one instruction, of the
    opcode the registration pairs with the cast. *)
Theorem cast_to_same_type_is_forwarded :
  forall (tc : SPIRVTypeConverter) (operation : StdOp) (operand : Value) (n : nat),
    let target :=
      match stdKind operation with
      | IndexCastOp => Some spirv.SConvertOp
      | SIToFPOp => Some spirv.ConvertSToFOp
      | ZeroExtendIOp => Some spirv.UConvertOp
      | TruncateIOp => Some spirv.SConvertOp
      | FPToSIOp => Some spirv.ConvertFToSOp
      | FPExtOp => Some spirv.FConvertOp
      | FPTruncOp => Some spirv.FConvertOp
      | _ => None
      end in
    forall SPIRVOp,
      target = Some SPIRVOp ->
      (exists p rw, In p populateStandardToSPIRVPatterns /\
                    matchAndRewrite tc p operation [operand] = Some rw) /\
      forall p rw,
        In p populateStandardToSPIRVPatterns ->
        matchAndRewrite tc p operation [operand] = Some rw ->
        (convertType tc (getType operation) = Some (valueType operand) ->
         rw (startState n) =
         Done (success, mkState n [] (ReplacedWith [valueId operand]))) /\
        (convertType tc (getType operation) <> Some (valueType operand) ->
         rw (startState n) =
         replacedByOne n SPIRVOp (convertType tc (getType operation)) [operand]
                       spirv.NoAttrs).
Proof.
  intros tc operation operand n target SPIRVOp Ht.
  assert (Hone : forall p rw,
             In p populateStandardToSPIRVPatterns ->
             matchAndRewrite tc p operation [operand] = Some rw ->
             rw = TypeCastingOpPattern tc SPIRVOp operation [operand]).
  { intros p rw Hp Hrw. unfold target in Ht.
    destruct (stdKind operation) eqn:Hk; try discriminate Ht;
      injection Ht as <-;
      registered Hp; subst p; unfold matchAndRewrite in Hrw;
      try rewrite Hk in Hrw; simpl in Hrw; try discriminate; congruence. }
  split.
  - unfold target in Ht.
    destruct (stdKind operation) eqn:Hk; try discriminate Ht;
      exists (TypeCastingOp (stdKind operation) SPIRVOp); eexists;
      (split;
       [ rewrite Hk; injection Ht as <-; simpl; tauto
       | unfold matchAndRewrite, StdOpKind_eqb;
         destruct (StdOpKind_eq_dec (stdKind operation) (stdKind operation));
         [reflexivity | congruence] ]).
  - intros p rw Hp Hrw. rewrite (Hone p rw Hp Hrw), TypeCastingOpPattern_run.
    split.
    + intros H. apply NType_eqb_spec in H. rewrite H. reflexivity.
    + intros H. destruct (NType_eqb _ _) eqn:E; [|reflexivity].
      apply NType_eqb_spec in E. contradiction.
Qed.

(* ================================================================== *)
(** * Attribute conversion *)
(* ================================================================== *)

Section APIntFacts.

Variable a : APInt.
Hypothesis Hwidth : 0 < BitWidth a.
Hypothesis Hrange : 0 <= U a < 2 ^ BitWidth a.

Lemma getActiveBits_le (N : Z) :
  0 <= N -> (getActiveBits a <=? N) = true <-> U a < 2 ^ N.
Proof using Hrange.
  intros HN. unfold getActiveBits.
  destruct (Z.eqb_spec (U a) 0) as [E|E].
  - rewrite E. split; intros _; [apply Z.pow_pos_nonneg; lia | apply Z.leb_le; lia].
  - rewrite Z.leb_le. assert (0 < U a) as Hpos by lia.
    pose proof (Z.log2_lt_pow2 (U a) N Hpos). lia.
Qed.

Lemma isIntN_spec (N : Z) : 0 <= N -> isIntN N a = true <-> U a < 2 ^ N.
Proof using Hrange. apply getActiveBits_le. Qed.

Lemma isNegative_spec : isNegative a = true <-> 2 ^ (BitWidth a - 1) <= U a.
Proof using Hwidth Hrange.
  unfold isNegative. rewrite Z.testbit_true by lia.
  assert (2 ^ BitWidth a = 2 * 2 ^ (BitWidth a - 1)) as E.
  { rewrite <- Z.pow_succ_r by lia. f_equal. lia. }
  assert (0 < 2 ^ (BitWidth a - 1)) as Hp by (apply Z.pow_pos_nonneg; lia).
  split; intros H.
  - destruct (Z_lt_le_dec (U a) (2 ^ (BitWidth a - 1))) as [Hlt|]; [|assumption].
    rewrite Z.div_small in H by lia. discriminate H.
  - assert (U a / 2 ^ (BitWidth a - 1) = 1) as ->; [|reflexivity].
    symmetry. apply Z.div_unique with (r := U a - 2 ^ (BitWidth a - 1)); lia.
Qed.

Lemma getSExtValue_range :
  - 2 ^ (BitWidth a - 1) <= getSExtValue a < 2 ^ (BitWidth a - 1).
Proof using Hwidth Hrange.
  unfold getSExtValue.
  assert (2 ^ BitWidth a = 2 * 2 ^ (BitWidth a - 1)) as E.
  { rewrite <- Z.pow_succ_r by lia. f_equal. lia. }
  destruct (isNegative a) eqn:Hn.
  - apply isNegative_spec in Hn. lia.
  - assert (~ 2 ^ (BitWidth a - 1) <= U a) by (rewrite <- isNegative_spec; congruence).
    lia.
Qed.

Lemma isSignedIntN_spec (N : Z) :
  0 < N ->
  isSignedIntN N a = true <->
  - 2 ^ (N - 1) <= getSExtValue a < 2 ^ (N - 1).
Proof using Hwidth Hrange.
  intros HN. unfold isSignedIntN, getMinSignedBits, getSExtValue.
  assert (2 ^ BitWidth a = 2 * 2 ^ (BitWidth a - 1)) as E.
  { rewrite <- Z.pow_succ_r by lia. f_equal. lia. }
  assert (0 < 2 ^ (N - 1)) as Hp by (apply Z.pow_pos_nonneg; lia).
  destruct (isNegative a) eqn:Hn.
  - apply isNegative_spec in Hn.
    set (f := flipAllBits a).
    assert (0 <= U f < 2 ^ BitWidth f) as Hf by (unfold f, flipAllBits; simpl; lia).
    assert ((getActiveBits f <=? N - 1) = true <-> U f < 2 ^ (N - 1)) as Hact.
    { unfold getActiveBits.
      destruct (Z.eqb_spec (U f) 0) as [E0|E0].
      - rewrite E0. split; intros _; [lia | apply Z.leb_le; lia].
      - rewrite Z.leb_le. assert (0 < U f) as Hpos by lia.
        pose proof (Z.log2_lt_pow2 (U f) (N - 1) Hpos). lia. }
    assert ((getActiveBits f + 1 <=? N) = (getActiveBits f <=? N - 1)) as ->.
    { destruct (Z.leb_spec (getActiveBits f + 1) N), (Z.leb_spec (getActiveBits f) (N - 1));
        try reflexivity; lia. }
    rewrite Hact. unfold f, flipAllBits. simpl. lia.
  - assert (~ 2 ^ (BitWidth a - 1) <= U a) by (rewrite <- isNegative_spec; congruence).
    assert ((getActiveBits a + 1 <=? N) = (getActiveBits a <=? N - 1)) as ->.
    { destruct (Z.leb_spec (getActiveBits a + 1) N), (Z.leb_spec (getActiveBits a) (N - 1));
        try reflexivity; lia. }
    rewrite getActiveBits_le by lia. lia.
Qed.

End APIntFacts.

Lemma getIntegerAttr_IntegerType (N : Z) (s : Signedness) (v : Z) :
  0 < N <= 64 ->
  getIntegerAttr (IntegerType N s) v =
  IntegerAttr (IntegerType N s) (mkAPInt N (v mod 2 ^ N)).
Proof.
  intros HN.
  assert (2 ^ N | 2 ^ 64) as Hdiv.
  { exists (2 ^ (64 - N)). rewrite <- Z.pow_add_r by lia. f_equal. lia. }
  unfold getIntegerAttr, APInt_of, isIndex, getIntOrFloatBitWidth.
  destruct (Z.leb_spec N 64); [|lia].
  do 2 f_equal. now apply Z.mod_mod_divide.
Qed.

(** The signed reading of the [N]-bit pattern of a number that fits in
    [N] bits signed is that number. *)
Lemma getSExtValue_of_signed (N v : Z) :
  0 < N -> - 2 ^ (N - 1) <= v < 2 ^ (N - 1) ->
  getSExtValue (mkAPInt N (v mod 2 ^ N)) = v.
Proof.
  intros HN Hv.
  assert (2 ^ N = 2 * 2 ^ (N - 1)) as E.
  { rewrite <- Z.pow_succ_r by lia. f_equal. lia. }
  assert (0 < 2 ^ (N - 1)) as Hp by (apply Z.pow_pos_nonneg; lia).
  assert (v mod 2 ^ N = if v <? 0 then v + 2 ^ N else v) as Hmod.
  { destruct (Z.ltb_spec v 0).
    - symmetry. apply Z.mod_unique with (q := -1); lia.
    - apply Z.mod_small. lia. }
  set (b := mkAPInt N (v mod 2 ^ N)).
  assert (0 <= U b < 2 ^ BitWidth b) as Hb.
  { unfold b; cbn [U BitWidth]. apply Z.mod_pos_bound. lia. }
  assert (0 < BitWidth b) as Hw by (unfold b; cbn [BitWidth]; lia).
  pose proof (isNegative_spec b Hw Hb) as Hneg.
  unfold getSExtValue. unfold b in *. cbn [U BitWidth] in *.
  rewrite Hmod in *.
  destruct (isNegative _); destruct (Z.ltb_spec v 0); lia.
Qed.

(** C3 (as the code has it).  For a source attribute of at most 64 bits and
    a destination of [N <= 64] bits the conversion splits three ways on
    the source bit pattern.  When the pattern read unsigned fits in [N]
    bits the conversion succeeds without a message and yields the
    sign-extended source value wrapped to [N] bits: the unsigned value is
    unchanged when the source is at least [N] bits wide or its sign bit is
    clear, and the signed value is unchanged when the source is at most
    [N] bits wide.  When only the signed reading fits, it succeeds with a
    debug message and yields the [N]-bit two's-complement pattern of that
    negative value.  When neither fits it returns the null attribute. *)
Theorem convertIntegerAttr_three_way_split :
  forall (srcType : Ty) (src : APInt) (N : Z) (s : Signedness),
    0 < BitWidth src <= 64 ->
    0 <= U src < 2 ^ BitWidth src ->
    0 < N <= 64 ->
    let v := getSExtValue src in
    let dstType := IntegerType N s in
    let dst := mkAPInt N (v mod 2 ^ N) in
    (U src < 2 ^ N ->
     convertIntegerAttr srcType src N s = (Some (IntegerAttr dstType dst), []) /\
     (N <= BitWidth src \/ isNegative src = false -> U dst = U src) /\
     (BitWidth src <= N -> getSExtValue dst = v)) /\
    (2 ^ N <= U src -> - 2 ^ (N - 1) <= v < 2 ^ (N - 1) ->
     convertIntegerAttr srcType src N s =
     (Some (IntegerAttr dstType dst),
      [DbgConverted (IntegerAttr srcType src) (IntegerAttr dstType dst) dstType]) /\
     v < 0 /\ getSExtValue dst = v) /\
    (2 ^ N <= U src -> ~ (- 2 ^ (N - 1) <= v < 2 ^ (N - 1)) ->
     convertIntegerAttr srcType src N s =
     (None, [DbgIllegal (IntegerAttr srcType src) dstType])).
Proof.
  intros srcType src N s HW HU HN v dstType dst.
  assert (0 < BitWidth src) as HW0 by lia.
  pose proof (isIntN_spec src HU N ltac:(lia)) as Hint.
  pose proof (isSignedIntN_spec src HW0 HU N ltac:(lia)) as Hsint.
  pose proof (getSExtValue_range src HW0 HU) as Hv.
  pose proof (isNegative_spec src HW0 HU) as Hneg.
  fold v in Hsint, Hv.
  assert (0 < 2 ^ N) as HpN by (apply Z.pow_pos_nonneg; lia).
  unfold convertIntegerAttr, getInt. fold v.
  rewrite getIntegerAttr_IntegerType by lia. fold dstType dst.
  split; [|split].
  - intros Hfit. apply Hint in Hfit as Hfit'. rewrite Hfit'.
    split; [reflexivity|]. split.
    + intros Hcase. unfold dst; cbn [U]. unfold v, getSExtValue.
      destruct (isNegative src) eqn:Hn.
      * assert (2 ^ (BitWidth src - 1) <= U src) as Hge
            by (apply Hneg; reflexivity).
        destruct Hcase as [Hle|]; [|discriminate].
        assert (N = BitWidth src) as ->.
        { destruct (Z.eq_dec N (BitWidth src)); [assumption|].
          assert (2 ^ N <= 2 ^ (BitWidth src - 1))
            by (apply Z.pow_le_mono_r; lia).
          lia. }
        symmetry. apply Z.mod_unique with (q := -1); lia.
      * apply Z.mod_small. lia.
    + intros Hle. apply getSExtValue_of_signed; [lia|].
      assert (2 ^ (BitWidth src - 1) <= 2 ^ (N - 1))
        by (apply Z.pow_le_mono_r; lia).
      lia.
  - intros Hbig Hs.
    assert (isIntN N src = false) as ->.
    { destruct (isIntN N src) eqn:E; [|reflexivity].
      pose proof (proj1 Hint eq_refl). lia. }
    apply Hsint in Hs as Hs'. rewrite Hs'.
    split; [reflexivity|]. split.
    + unfold v, getSExtValue in *. destruct (isNegative src); [lia|].
      assert (2 ^ (N - 1) < 2 ^ N) by (apply Z.pow_lt_mono_r; lia). lia.
    + apply getSExtValue_of_signed; [lia|assumption].
  - intros Hbig Hs.
    assert (isIntN N src = false) as ->.
    { destruct (isIntN N src) eqn:E; [|reflexivity].
      pose proof (proj1 Hint eq_refl). lia. }
    assert (isSignedIntN N src = false) as ->.
    { destruct (isSignedIntN N src) eqn:E; [|reflexivity].
      pose proof (proj1 Hsint eq_refl). contradiction. }
    reflexivity.
Qed.

(** Whatever [APFloat::convert] does, the float conversion returns an
    attribute only for a single-precision destination, and then exactly
    when the status is [opOK] and no information is lost: the converted
    value, as an [f32] attribute. *)
Lemma convertFloatAttr_follows_status :
  forall (APFloat_convert :
            APFloat -> fltSemantics -> roundingMode -> APFloat * opStatus * bool)
         (srcType : Ty) (srcValue : APFloat) (dstType : FloatKind),
    let converted := APFloat_convert srcValue IEEEsingle rmTowardZero in
    let dstVal := fst (fst converted) in
    let status := snd (fst converted) in
    let losesInfo := snd converted in
    let result := fst (convertFloatAttr APFloat_convert srcType srcValue dstType) in
    (forall dstAttr,
       result = Some dstAttr <->
       dstType = F32 /\ status = opOK /\ losesInfo = false /\
       dstAttr = FloatAttr f32 dstVal) /\
    (result = None <-> dstType <> F32 \/ status <> opOK \/ losesInfo = true).
Proof.
  intros conv srcType srcValue dstType converted dstVal status losesInfo result.
  unfold result, convertFloatAttr. fold converted.
  unfold dstVal, status, losesInfo.
  destruct converted as [[v st] li]. simpl.
  destruct dstType; simpl;
    try (split; [intros a; split; [discriminate | intros [H _]; discriminate H]
                | split; [intros _; left; discriminate | reflexivity]]).
  destruct st, li; simpl;
    (split;
     [ intros a; split;
       [ intros H; try discriminate H; injection H as <-; repeat split; reflexivity
       | intros (_ & H1 & H2 & ->); try discriminate H1; try discriminate H2;
         reflexivity ]
     | split;
       [ intros H; try discriminate H;
         first [ right; left; discriminate | right; right; reflexivity ]
       | intros [H | [H | H]]; try reflexivity; try discriminate H;
         exfalso; apply H; reflexivity ] ]).
Qed.

(** ** The conversion toward zero *)

Lemma precision_pos (s : fltSemantics) : 0 < precision s.
Proof. destruct s; reflexivity. Qed.

Lemma exponent_range (s : fltSemantics) : minExponent s <= maxExponent s.
Proof. destruct s; discriminate. Qed.

Lemma sameNumber_sym (x y : APFloat) : sameNumber x y -> sameNumber y x.
Proof.
  unfold sameNumber. rewrite (Z.min_comm (ulpExponent y)). intros [H1 H2].
  split; congruence.
Qed.

(** Equal numbers have their highest bits at the same place. *)
Lemma sameNumber_leading (x y : APFloat) :
  0 < significand x -> 0 < significand y -> sameNumber x y ->
  ulpExponent x + Z.log2 (significand x) = ulpExponent y + Z.log2 (significand y).
Proof.
  intros Hx Hy [_ H]. cbv zeta in H.
  set (k := Z.min (ulpExponent x) (ulpExponent y)) in *.
  assert (0 <= ulpExponent x - k) by lia.
  assert (0 <= ulpExponent y - k) by lia.
  apply (f_equal Z.log2) in H.
  rewrite !Z.log2_mul_pow2 in H by lia. lia.
Qed.

(** The shift by the difference of the two scales, in both directions. *)
Lemma shift_between (m my u uy : Z) :
  0 < m -> 0 < my ->
  m * 2 ^ (u - Z.min u uy) = my * 2 ^ (uy - Z.min u uy) ->
  Z.shiftr m (uy - u) = my /\ Z.shiftl my (uy - u) = m.
Proof.
  intros Hm Hmy H. destruct (Z_le_gt_dec u uy) as [Hle | Hgt].
  - rewrite Z.min_l in H by lia. rewrite Z.sub_diag, Z.mul_1_r in H.
    assert (0 < 2 ^ (uy - u)) by (apply Z.pow_pos_nonneg; lia).
    rewrite Z.shiftr_div_pow2, Z.shiftl_mul_pow2 by lia.
    split; [|congruence]. rewrite H. apply Z.div_mul. lia.
  - rewrite Z.min_r in H by lia. rewrite Z.sub_diag, Z.mul_1_r in H.
    assert (0 < 2 ^ (u - uy)) by (apply Z.pow_pos_nonneg; lia).
    rewrite Z.shiftr_mul_pow2, Z.shiftl_div_pow2 by lia.
    replace (- (uy - u)) with (u - uy) by lia.
    split; [congruence|]. rewrite <- H. apply Z.div_mul. lia.
Qed.

Lemma shift_back (m m' d : Z) :
  Z.shiftr m d = m' -> Z.shiftl m' d = m ->
  forall u, m * 2 ^ (u - Z.min u (u + d)) = m' * 2 ^ (u + d - Z.min u (u + d)).
Proof.
  intros Hr Hl u. destruct (Z_le_gt_dec 0 d) as [Hd | Hd].
  - rewrite Z.min_l by lia. rewrite Z.sub_diag, Z.mul_1_r.
    rewrite Z.shiftl_mul_pow2 in Hl by lia.
    replace (u + d - u) with d by lia. congruence.
  - rewrite Z.min_r by lia. rewrite Z.sub_diag, Z.mul_1_r.
    rewrite Z.shiftr_mul_pow2 in Hr by lia.
    replace (u - (u + d)) with (- d) by lia. congruence.
Qed.

(** A number that the destination format holds converts to it exactly. *)
Lemma convert_exact (x y : APFloat) :
  category x = fcNormal -> 0 < significand x ->
  category y = fcNormal -> wellFormed y -> sameNumber x y ->
  convertTowardZero x (semantics y) = (y, opOK, false).
Proof.
  intros Hcx Hmx Hcy (Hmy & Hey & Hnorm) Hsame.
  pose proof (sameNumber_leading x y Hmx ltac:(lia) Hsame) as Hlead.
  destruct Hsame as [Hsign Hval]. cbv zeta in Hval.
  pose proof (precision_pos (semantics y)) as Hp.
  assert (Hlog : Z.log2 (significand y) <= precision (semantics y) - 1).
  { pose proof (proj1 (Z.log2_lt_pow2 (significand y) (precision (semantics y))
                         ltac:(lia)) ltac:(lia)). lia. }
  assert (Hlog0 : 0 <= Z.log2 (significand y)) by apply Z.log2_nonneg.
  unfold convertTowardZero. rewrite Hcx. cbv zeta.
  unfold ulpExponent in Hlead |- *. 
  set (p := precision (semantics y)) in *.
  set (lead := exponent x - (precision (semantics x) - 1) + Z.log2 (significand x)) in *.
  destruct (Z.ltb_spec (maxExponent (semantics y)) lead); [lia|].
  assert (He : Z.max lead (minExponent (semantics y)) = exponent y).
  { destruct Hnorm as [Hn | Hn].
    - pose proof (proj1 (Z.log2_le_pow2 (significand y) (p - 1) ltac:(lia)) Hn).
      lia.
    - lia. }
  rewrite He.
  replace (exponent y - (p - 1) - (exponent x - (precision (semantics x) - 1)))
    with (ulpExponent y - ulpExponent x) by (unfold ulpExponent; fold p; lia).
  destruct (shift_between (significand x) (significand y)
              (ulpExponent x) (ulpExponent y) Hmx ltac:(lia) Hval) as [Hr Hl].
  rewrite Hr, Hl, Z.eqb_refl.
  destruct y as [sy cy gy ey my]. simpl in *. subst. reflexivity.
Qed.

(** A conversion that reports [opOK] has produced the same number, in
    the destination format. *)
Lemma convert_ok (x : APFloat) (to : fltSemantics) :
  category x = fcNormal -> 0 < significand x ->
  snd (fst (convertTowardZero x to)) = opOK ->
  let y := fst (fst (convertTowardZero x to)) in
  snd (convertTowardZero x to) = false /\
  semantics y = to /\ category y = fcNormal /\ wellFormed y /\ sameNumber x y.
Proof.
  intros Hcx Hmx. unfold convertTowardZero. rewrite Hcx. cbv zeta.
  set (p := precision to).
  set (lead := ulpExponent x + Z.log2 (significand x)).
  destruct (Z.ltb_spec (maxExponent to) lead) as [|Hmax]; [discriminate|].
  set (e := Z.max lead (minExponent to)).
  set (d := e - (p - 1) - ulpExponent x).
  set (m := Z.shiftr (significand x) d).
  destruct (Z.eqb_spec (Z.shiftl m d) (significand x)) as [Hexact | Hlost].
  2:{ destruct (m =? 0); [discriminate|]. destruct (m <? 2 ^ (p - 1)); discriminate. }
  intros _. cbn [fst snd].
  set (y := mkAPFloat to fcNormal (sign x) e m).
  assert (Hsame : sameNumber x y).
  { unfold sameNumber. cbv zeta. split; [reflexivity|].
    assert (Eu : ulpExponent y = ulpExponent x + d)
      by (unfold y, ulpExponent, d; cbn; fold p; unfold ulpExponent; lia).
    rewrite Eu. cbn [significand y]. unfold y. cbn [significand].
    apply shift_back; [reflexivity | exact Hexact]. }
  assert (Hm0 : 0 <= m) by (unfold m; apply Z.shiftr_nonneg; lia).
  assert (Hmpos : 0 < m).
  { destruct (Z.eq_dec m 0) as [E|]; [|lia].
    rewrite E, Z.shiftl_0_l in Hexact. lia. }
  pose proof (sameNumber_leading x y Hmx Hmpos Hsame) as Hlead.
  fold lead in Hlead.
  assert (Euy : ulpExponent y = e - (p - 1))
    by (unfold y, ulpExponent; cbn; reflexivity).
  rewrite Euy in Hlead. cbn [significand y] in Hlead. unfold y in Hlead.
  cbn [significand] in Hlead.
  pose proof (precision_pos to) as Hp. fold p in Hp.
  pose proof (exponent_range to) as Hrange.
  split; [reflexivity|]. split; [reflexivity|]. split; [reflexivity|].
  split; [|exact Hsame].
  unfold wellFormed. cbn [semantics significand exponent y]. unfold y. cbn. fold p.
  assert (Hlt : m < 2 ^ p).
  { apply Z.log2_lt_pow2; [lia|]. unfold e in Hlead. lia. }
  split; [lia|]. split; [unfold e; lia|].
  destruct (Z_le_gt_dec (minExponent to) lead).
  - left. apply Z.log2_le_pow2; [lia|]. unfold e in Hlead. lia.
  - right. unfold e. lia.
Qed.

(** C4.  With [APFloat::convert] rounding toward zero as modelled, the
    float conversion returns an attribute only for a single-precision
    destination; for any other destination it returns the null attribute.
    For single precision it returns the converted value, as an [f32]
    attribute, exactly when the status is [opOK] and no information is
    lost, and the null attribute otherwise.  So zero and the infinities
    convert; a finite number that single precision holds exactly converts
    to that single-precision number, which converts back to the source
    format as the original value, exactly; and a finite number that no
    single-precision number equals, one that needs rounding, makes the
    conversion return the null attribute. *)
Theorem convertFloatAttr_only_exact_single :
  forall (APFloat_convert :
            APFloat -> fltSemantics -> roundingMode -> APFloat * opStatus * bool)
         (srcType : Ty) (srcValue : APFloat) (dstType : FloatKind),
    (forall v to, APFloat_convert v to rmTowardZero = convertTowardZero v to) ->
    let run := convertFloatAttr APFloat_convert srcType srcValue in
    let illegal := (None, [DbgIllegal (FloatAttr srcType srcValue) f32]) in
    (* a destination other than single precision *)
    (dstType <> F32 -> run dstType = (None, [])) /\
    (* the status and the flag decide *)
    (let converted := APFloat_convert srcValue IEEEsingle rmTowardZero in
     run F32 =
     if opStatus_eqb (snd (fst converted)) opOK && negb (snd converted)
     then (Some (FloatAttr f32 (fst (fst converted))), [])
     else illegal) /\
    (* zero and the infinities *)
    (category srcValue = fcZero \/ category srcValue = fcInfinity ->
     exists y, run F32 = (Some (FloatAttr f32 y), []) /\
               semantics y = IEEEsingle /\
               category y = category srcValue /\ sign y = sign srcValue) /\
    (* the finite numbers other than zero *)
    (category srcValue = fcNormal -> wellFormed srcValue ->
     (forall y, finiteIn IEEEsingle y -> sameNumber srcValue y ->
        run F32 = (Some (FloatAttr f32 y), []) /\
        APFloat_convert y (semantics srcValue) rmTowardZero = (srcValue, opOK, false)) /\
     ((forall y, finiteIn IEEEsingle y -> ~ sameNumber srcValue y) ->
        run F32 = illegal)).
Proof.
  intros conv srcType srcValue dstType Hconv run illegal.
  assert (Hrun : run F32 =
            if opStatus_eqb (snd (fst (convertTowardZero srcValue IEEEsingle))) opOK
               && negb (snd (convertTowardZero srcValue IEEEsingle))
            then (Some (FloatAttr f32 (fst (fst (convertTowardZero srcValue IEEEsingle)))),
                  [])
            else illegal).
  { unfold run, illegal, convertFloatAttr. cbn [isF32 negb]. rewrite Hconv.
    destruct (convertTowardZero srcValue IEEEsingle) as [[v st] li]. cbn [fst snd].
    destruct st, li; reflexivity. }
  split; [|split; [|split]].
  - intros Hne. unfold run, convertFloatAttr.
    destruct dstType; try reflexivity. contradiction Hne. reflexivity.
  - cbv zeta. rewrite Hconv. exact Hrun.
  - intros Hcat. rewrite Hrun. unfold convertTowardZero.
    destruct Hcat as [Hcat | Hcat]; rewrite Hcat; cbn;
      eexists; (split; [reflexivity|]); repeat split; reflexivity.
  - intros Hcat Hwf. split.
    + intros y (Hsem & Hcy & Hwfy) Hsame.
      pose proof (convert_exact srcValue y Hcat (proj1 (proj1 Hwf)) Hcy Hwfy Hsame)
        as Hex.
      rewrite Hsem in Hex. split.
      * rewrite Hrun, Hex. reflexivity.
      * rewrite Hconv.
        apply convert_exact; try assumption.
        -- exact (proj1 (proj1 Hwfy)).
        -- apply sameNumber_sym, Hsame.
    + intros Hnone. rewrite Hrun.
      destruct (opStatus_eqb (snd (fst (convertTowardZero srcValue IEEEsingle))) opOK)
        eqn:Hst; [|reflexivity].
      exfalso.
      assert (Hok : snd (fst (convertTowardZero srcValue IEEEsingle)) = opOK)
        by (destruct (snd (fst (convertTowardZero srcValue IEEEsingle)));
            try discriminate Hst; reflexivity).
      destruct (convert_ok srcValue IEEEsingle Hcat (proj1 (proj1 Hwf)) Hok)
        as (_ & Hsem & Hcy & Hwfy & Hsame).
      exact (Hnone _ (conj Hsem (conj Hcy Hwfy)) Hsame).
Qed.

(* ================================================================== *)
(** * Composite constants *)
(* ================================================================== *)

Section CompositeConstants.

Variable tc : SPIRVTypeConverter.
Variable conv : APFloat -> fltSemantics -> roundingMode -> APFloat * opStatus * bool.

Lemma convertFloatElements_all k values elements st :
  Forall2 (floatElementConverts conv k) values elements ->
  convertFloatElements conv (FloatType k) values st = Done (Some elements, st).
Proof.
  induction 1 as [| a b values elements (t & v & -> & Hc) _ IH]; [reflexivity|].
  simpl. unfold bind, cast. simpl. rewrite Hc, IH. reflexivity.
Qed.

Lemma convertFloatElements_some_fails k values st :
  Forall (fun a => exists t v, a = FloatAttr t v) values ->
  Exists (floatElementFails conv k) values ->
  convertFloatElements conv (FloatType k) values st = Done (None, st).
Proof.
  intros Hall Hex. induction Hex as [a values (t & v & -> & Hc) | a values Hex IH].
  - simpl. unfold bind, cast. simpl. rewrite Hc. reflexivity.
  - inversion Hall as [| ? ? (t & v & ->) Hrest]; subst.
    simpl. unfold bind, cast. simpl.
    destruct (fst (convertFloatAttr conv t v k)); [|reflexivity].
    rewrite (IH Hrest). reflexivity.
Qed.

Lemma convertIntegerElements_all w s values elements st :
  Forall2 (integerElementConverts w s) values elements ->
  convertIntegerElements (IntegerType w s) values st = Done (Some elements, st).
Proof.
  induction 1 as [| a b values elements (t & v & -> & Hc) _ IH]; [reflexivity|].
  simpl. unfold bind, cast. simpl. rewrite Hc, IH. reflexivity.
Qed.

Lemma convertIntegerElements_some_fails w s values st :
  Forall (fun a => exists t v, a = IntegerAttr t v) values ->
  Exists (integerElementFails w s) values ->
  convertIntegerElements (IntegerType w s) values st = Done (None, st).
Proof.
  intros Hall Hex. induction Hex as [a values (t & v & -> & Hc) | a values Hex IH].
  - simpl. unfold bind, cast. simpl. rewrite Hc. reflexivity.
  - inversion Hall as [| ? ? (t & v & ->) Hrest]; subst.
    simpl. unfold bind, cast. simpl.
    destruct (fst (convertIntegerAttr t v w s)); [|reflexivity].
    rewrite (IH Hrest). reflexivity.
Qed.

Lemma Ty_eqb_neq (a b : Ty) : a <> b -> Ty_eqb a b = false.
Proof. intros H. unfold Ty_eqb. destruct (Ty_eq_dec a b); [contradiction|reflexivity]. Qed.

Lemma Ty_eqb_refl (a : Ty) : Ty_eqb a a = true.
Proof. unfold Ty_eqb. destruct (Ty_eq_dec a a); [reflexivity|contradiction]. Qed.

Lemma getRank_gt_1 (t : Ty) :
  (1 <? getRank t) = true <-> (1 < List.length (getShape t))%nat.
Proof. unfold getRank. rewrite Z.ltb_lt. lia. Qed.

(** C8.  For a composite constant that carries a dense elements attribute
    and whose type converts: a vector of rank above 1 makes the pattern
    fail; a tensor of rank above 1 is handled as the rank-1 tensor of
    [product(shape)] elements; a composite of rank at most 1 is handled
    under the type of its attribute.  In that handling, when the source
    and destination element types differ, a 1-bit integer element type
    makes the pattern fail, and float and other integer elements are
    converted one by one: if every element converts the operation is
    replaced by one constant holding the converted elements in order under
    the new element type, and if some element does not convert the
    pattern fails. *)
Theorem composite_constant_rank_and_elements :
  forall (constOp : ConstantOp) (operands : list Value) (n : nat)
         (attrType : Ty) (values : list Attribute) (dstType : Ty),
    value constOp = DenseElementsAttr attrType values ->
    convertType tc (constType constOp) = Some dstType ->
    let srcType := constType constOp in
    let run := ConstantCompositeOpPattern tc conv constOp operands (startState n) in
    let elementwise srcElemType dstAttrType :=
      convertCompositeElements conv dstType srcElemType dstAttrType values
                               (startState n) in
    let emits attr :=
      replacedByOne n spirv.ConstantOp (Some dstType) [] (spirv.ValueAttr attr) in
    (* rank *)
    (forall shape e,
       srcType = VectorType shape e -> (1 < List.length shape)%nat ->
       run = failedUntouched n) /\
    (forall shape e,
       srcType = RankedTensorType shape e -> (1 < List.length shape)%nat ->
       run = elementwise e (RankedTensorType [fold_right Z.mul 1 shape] e)) /\
    (forall shape e,
       srcType = VectorType shape e \/ srcType = RankedTensorType shape e ->
       (List.length shape <= 1)%nat ->
       run = elementwise e attrType) /\
    (* elements *)
    forall srcElemType dstAttrType dstElemType,
      convertedCompositeElement dstType = Some dstElemType ->
      (srcElemType = dstElemType ->
       elementwise srcElemType dstAttrType =
       emits (DenseElementsAttr dstAttrType values)) /\
      (srcElemType <> dstElemType ->
       (forall s, srcElemType = IntegerType 1 s ->
                  elementwise srcElemType dstAttrType = failedUntouched n) /\
       (forall k k',
          srcElemType = FloatType k -> dstElemType = FloatType k' ->
          (forall elements,
             Forall2 (floatElementConverts conv k') values elements ->
             elementwise srcElemType dstAttrType =
             emits (DenseElementsAttr (repackedType dstAttrType dstElemType) elements)) /\
          (Forall (fun a => exists t v, a = FloatAttr t v) values ->
           Exists (floatElementFails conv k') values ->
           elementwise srcElemType dstAttrType = failedUntouched n)) /\
       (forall w s w' s',
          srcElemType = IntegerType w s -> w <> 1 ->
          dstElemType = IntegerType w' s' ->
          (forall elements,
             Forall2 (integerElementConverts w' s') values elements ->
             elementwise srcElemType dstAttrType =
             emits (DenseElementsAttr (repackedType dstAttrType dstElemType) elements)) /\
          (Forall (fun a => exists t v, a = IntegerAttr t v) values ->
           Exists (integerElementFails w' s') values ->
           elementwise srcElemType dstAttrType = failedUntouched n))).
Proof.
  intros constOp operands n attrType values dstType Hval Hty srcType run
         elementwise emits.
  assert (Hrun : forall shape e,
             srcType = VectorType shape e \/ srcType = RankedTensorType shape e ->
             run = if 1 <? getRank srcType
                   then if isaRankedTensorType srcType
                        then elementwise (getElementType srcType)
                               (RankedTensorType [getNumElements srcType]
                                                 (getElementType srcType))
                        else failedUntouched n
                   else elementwise (getElementType srcType) attrType).
  { intros shape e Hs. unfold run, ConstantCompositeOpPattern.
    fold srcType. rewrite Hval. unfold srcType in Hty. fold srcType in Hty.
    destruct Hs as [Hs | Hs]; rewrite Hs in *; simpl;
      unfold bind, assert_; simpl; rewrite Hty; simpl;
      destruct (1 <? getRank _); reflexivity. }
  split; [|split; [|split]].
  - intros shape e Hs Hrank. rewrite (Hrun shape e (or_introl Hs)), Hs.
    assert ((1 <? getRank (VectorType shape e)) = true) as ->
        by (apply getRank_gt_1; exact Hrank).
    reflexivity.
  - intros shape e Hs Hrank. rewrite (Hrun shape e (or_intror Hs)), Hs.
    assert ((1 <? getRank (RankedTensorType shape e)) = true) as ->
        by (apply getRank_gt_1; exact Hrank).
    reflexivity.
  - intros shape e Hs Hrank. rewrite (Hrun shape e Hs).
    assert ((1 <? getRank srcType) = false) as ->.
    { destruct (1 <? getRank srcType) eqn:E; [|reflexivity].
      apply getRank_gt_1 in E. destruct Hs as [Hs | Hs]; rewrite Hs in E;
        simpl in E; lia. }
    destruct Hs as [Hs | Hs]; rewrite Hs; reflexivity.
  - intros srcElemType dstAttrType dstElemType Hde.
    assert (Hhead : forall st,
               match dstType with
               | SpvArrayType e _ => ret e
               | VectorType _ e => ret e
               | _ => fun _ => AssertionFailed "dstType.cast<VectorType>()"
               end st = Done (dstElemType, st)).
    { intros st. destruct dstType; try discriminate Hde;
        injection Hde as <-; reflexivity. }
    split.
    + intros ->. unfold elementwise, convertCompositeElements, bind.
      rewrite Hhead, Ty_eqb_refl. reflexivity.
    + intros Hne.
      assert (Hstep : elementwise srcElemType dstAttrType =
                      (let finish elements :=
                         match elements with
                         | None => ret failure
                         | Some elements =>
                             replaceOpWithNewOp spirv.ConstantOp (Some dstType) []
                               (spirv.ValueAttr
                                  (DenseElementsAttr
                                     (repackedType dstAttrType dstElemType) elements)) ;;;
                             ret success
                         end in
                       if isaFloatType srcElemType then
                         elements <- convertFloatElements conv dstElemType values ;;
                         finish elements
                       else if isInteger srcElemType 1 then ret failure
                       else
                         elements <- convertIntegerElements dstElemType values ;;
                         finish elements) (startState n)).
      { unfold elementwise, convertCompositeElements, bind at 1.
        rewrite Hhead, (Ty_eqb_neq _ _ Hne). reflexivity. }
      rewrite Hstep. clear Hstep. split; [|split].
      * intros s ->. reflexivity.
      * intros k k' -> ->. split.
        -- intros elements Hall. simpl. unfold bind.
           rewrite (convertFloatElements_all _ _ _ _ Hall). reflexivity.
        -- intros Hfl Hex. simpl. unfold bind.
           rewrite (convertFloatElements_some_fails _ _ _ Hfl Hex). reflexivity.
      * intros w s w' s' -> Hw ->. simpl.
        destruct (Z.eqb_spec w 1); [contradiction|]. split.
        -- intros elements Hall. unfold bind.
           rewrite (convertIntegerElements_all _ _ _ _ _ Hall). reflexivity.
        -- intros Hfl Hex. unfold bind.
           rewrite (convertIntegerElements_some_fails _ _ _ _ Hfl Hex). reflexivity.
Qed.

(** C9 (what the code does).  On a vector or tensor constant whose type
    converts and whose value is not a dense elements attribute, the
    pattern reads the type of the null attribute before it tests the
    attribute: it runs into undefined behaviour and does not report
    failure. *)
Lemma composite_constant_reads_null_attribute :
  forall (constOp : ConstantOp) (operands : list Value) (st : RewriterState)
         (dstType : Ty),
    isaVectorType (constType constOp) || isaRankedTensorType (constType constOp) = true ->
    convertType tc (constType constOp) = Some dstType ->
    dyn_cast_DenseElementsAttr (value constOp) = None ->
    ConstantCompositeOpPattern tc conv constOp operands st =
    Undefined "getType() on a null DenseElementsAttr".
Proof.
  intros constOp operands st dstType Hshape Hty Hnull.
  unfold ConstantCompositeOpPattern.
  assert (isaShapedType (constType constOp) = true) as ->.
  { destruct (constType constOp); simpl in *; congruence. }
  simpl. unfold bind, assert_. rewrite Hshape, Hty, Hnull. reflexivity.
Qed.

End CompositeConstants.

(* ================================================================== *)
(** * Sub-word loads and stores *)
(* ================================================================== *)

(** ** Bits of the words *)

Lemma testbit_wrap (W z n : Z) :
  0 <= W -> Z.testbit (Exec.wrap W z) n = (n <? W) && Z.testbit z n.
Proof. intros. unfold Exec.wrap. now apply Z.testbit_mod_pow2. Qed.

Lemma testbit_signed_low (W z n : Z) :
  0 <= n < W -> Z.testbit (Exec.signed W z) n = Z.testbit z n.
Proof.
  intros Hn. unfold Exec.signed. destruct (z <? 2 ^ (W - 1)); [reflexivity|].
  rewrite <- (Z.mod_pow2_bits_low (z - 2 ^ W) W n) by lia.
  rewrite <- (Z.mod_pow2_bits_low z W n) by lia.
  f_equal. replace (z - 2 ^ W) with (z + (-1) * 2 ^ W) by lia.
  apply Z.mod_add. apply Z.pow_nonzero; lia.
Qed.

Lemma testbit_word_high (W w n : Z) :
  0 <= W -> 0 <= w < 2 ^ W -> W <= n -> Z.testbit w n = false.
Proof.
  intros HW Hw Hn. rewrite <- (Z.mod_small w (2 ^ W)) by lia.
  apply Z.mod_pow2_bits_high. lia.
Qed.

Lemma lowBitsMask_ones (s : Z) : 0 <= s -> lowBitsMask s = Z.ones s.
Proof.
  intros. unfold lowBitsMask. rewrite Z.ones_equiv, Z.shiftl_1_l. lia.
Qed.

(** The load: an arithmetic shift right by the offset and the mask leave
    the [s] bits of the word that start at the offset. *)
Lemma load_isolates (W s off w : Z) :
  0 < s -> 0 <= off -> off + s <= W -> 0 <= w < 2 ^ W ->
  Z.land (Exec.wrap W (Z.shiftr (Exec.signed W w) off)) (Z.ones s) =
  Z.shiftr w off mod 2 ^ s.
Proof.
  intros Hs Hoff Hfit Hw. apply Z.bits_inj'. intros n Hn.
  rewrite Z.testbit_mod_pow2 by lia.
  rewrite Z.land_spec, testbit_wrap, Z.shiftr_spec, Z.shiftr_spec by lia.
  destruct (Z.ltb_spec n s).
  - rewrite Z.testbit_ones_nonneg by lia.
    rewrite testbit_signed_low by lia.
    destruct (Z.ltb_spec n W), (Z.ltb_spec n s); try lia.
    simpl. now rewrite andb_true_r.
  - rewrite Z.ones_spec_high by lia. now rewrite andb_false_r.
Qed.

(** The store of the bits that were loaded: clearing the range with the
    complemented shifted mask and setting it with the masked shifted
    value gives the word back. *)
Lemma store_restores (W s off w : Z) :
  0 < s -> 0 <= off -> off + s <= W -> 0 <= w < 2 ^ W ->
  let x := Z.shiftr w off mod 2 ^ s in
  Z.lor (Z.land w (Exec.wrap W (Z.lnot (Exec.wrap W (Z.shiftl (Z.ones s) off)))))
        (Exec.wrap W (Z.shiftl (Z.land x (Z.ones s)) off)) = w.
Proof.
  intros Hs Hoff Hfit Hw x. apply Z.bits_inj'. intros n Hn.
  unfold x.
  rewrite Z.lor_spec, Z.land_spec, !testbit_wrap, Z.lnot_spec, testbit_wrap by lia.
  rewrite !Z.shiftl_spec, Z.land_spec by lia.
  destruct (Z.ltb_spec n W).
  - simpl. destruct (Z.ltb_spec n off).
    + rewrite !(Z.testbit_neg_r _ (n - off)) by lia. simpl.
      now rewrite andb_true_r, orb_false_r.
    + rewrite Z.testbit_mod_pow2, Z.shiftr_spec by lia.
      replace (n - off + off) with n by lia.
      destruct (Z.ltb_spec (n - off) s).
      * rewrite Z.testbit_ones_nonneg by lia.
        destruct (Z.ltb_spec (n - off) s); try lia. simpl.
        now rewrite andb_false_r, andb_true_r.
      * rewrite Z.ones_spec_high by lia. simpl.
        now rewrite andb_true_r, orb_false_r.
  - simpl. rewrite (testbit_word_high W w n) by lia. reflexivity.
Qed.

(** ** Offsets *)

Lemma U_APInt_of (w v : Z) :
  0 < w <= 64 -> 0 <= v < 2 ^ w -> U (APInt_of w v false) = v.
Proof.
  intros Hw Hv. unfold APInt_of. destruct (Z.leb_spec w 64); [|lia]. cbn [U].
  assert (2 ^ w <= 2 ^ 64) by (apply Z.pow_le_mono_r; lia).
  rewrite (Z.mod_small v (2 ^ 64)) by lia. apply Z.mod_small. lia.
Qed.

Lemma width_lt_pow2 (W : Z) : 3 <= W -> W < 2 ^ (W - 1).
Proof.
  intros HW. replace (W - 1) with (Z.succ (W - 2)) by lia.
  rewrite Z.pow_succ_r by lia.
  pose proof (Z.pow_gt_lin_r 2 (W - 2) ltac:(lia) ltac:(lia)). lia.
Qed.

Lemma signed_small (W v : Z) : 0 <= v < 2 ^ (W - 1) -> Exec.signed W v = v.
Proof.
  intros Hv. unfold Exec.signed. destruct (Z.ltb_spec v (2 ^ (W - 1))); lia.
Qed.

Lemma wrap_small (w z : Z) : 0 <= z < 2 ^ w -> Exec.wrap w z = z.
Proof. intros. unfold Exec.wrap. now apply Z.mod_small. Qed.

Lemma ratio_exact (srcBits dstBits : Z) :
  0 < srcBits -> dstBits mod srcBits = 0 ->
  dstBits = srcBits * (dstBits / srcBits).
Proof. intros Hsrc Hmod. apply Z_div_exact_full_2; lia. Qed.

Lemma ratio_range (srcBits dstBits : Z) :
  0 < srcBits -> 3 <= dstBits -> dstBits mod srcBits = 0 ->
  1 <= dstBits / srcBits < 2 ^ (dstBits - 1).
Proof.
  intros Hsrc Hdst Hmod.
  pose proof (ratio_exact srcBits dstBits Hsrc Hmod).
  pose proof (width_lt_pow2 dstBits Hdst).
  split; nia.
Qed.

Lemma pow2_half (W : Z) : 0 < W -> 2 ^ (W - 1) < 2 ^ W.
Proof. intros. apply Z.pow_lt_mono_r; lia. Qed.

(** The offset [(j mod r) * srcBits] selects a range of [srcBits] bits
    inside the target word. *)
Lemma offset_range (srcBits dstBits j : Z) :
  0 < srcBits -> 3 <= dstBits -> dstBits mod srcBits = 0 ->
  let r := dstBits / srcBits in
  let off := (j mod r) * srcBits in
  0 <= j mod r < 2 ^ dstBits /\
  0 <= off /\ off + srcBits <= dstBits /\ off < 2 ^ dstBits.
Proof.
  intros Hsrc Hdst Hmod r off.
  pose proof (ratio_exact srcBits dstBits Hsrc Hmod) as He.
  pose proof (ratio_range srcBits dstBits Hsrc Hdst Hmod) as Hr.
  pose proof (pow2_half dstBits ltac:(lia)).
  pose proof (width_lt_pow2 dstBits Hdst).
  fold r in He, Hr.
  pose proof (Z.mod_pos_bound j r ltac:(lia)).
  unfold off. repeat split; try nia.
Qed.

(** Evaluates the rewriter and the machine and leaves the arithmetic on
    words alone. *)
Ltac ev :=
  cbn -[Z.shiftl Z.shiftr Z.land Z.lor Z.lnot Z.pow Z.modulo Z.div Z.quot
        Z.mul Z.sub Z.ltb Z.eqb Z.leb Z.add].

(** ** A load followed by the store of the loaded value *)

(** The emulated path: the widths differ. *)
Lemma emulated_round_trip :
  forall tc shape srcBits dstBits count sc ma al mem i,
    0 < srcBits < 31 -> 3 <= dstBits <= 64 -> dstBits mod srcBits = 0 ->
    srcBits <> dstBits ->
    let srcType := IntegerType srcBits Signless in
    let dstType := IntegerType dstBits Signless in
    let bufferType := SpvPointerType (SpvStructType (SpvArrayType dstType count)) sc in
    convertType tc (MemRefType shape srcType) = Some bufferType ->
    convertType tc (SpvPointerType dstType sc) = Some (SpvPointerType dstType sc) ->
    (forall k, 0 <= mem k < 2 ^ dstBits) ->
    let memref := mkValue 0 bufferType in
    let index := mkValue 1 dstType in
    let r := dstBits / srcBits in
    let word := Exec.signed dstBits (Exec.wrap dstBits (Z.quot (Exec.signed dstBits i) r)) in
    let off := (Exec.signed dstBits i mod r) * srcBits in
    exists stLoad loaded stStore m,
      IntLoadOpPattern tc (mkLoadOp (MemRefType shape srcType) ma al) memref [index]
                       (startState 2) = Done (success, stLoad) /\
      root stLoad = ReplacedWith [loaded] /\
      IntStoreOpPattern tc (mkStoreOp (MemRefType shape srcType))
                        (mkValue loaded dstType) memref [index]
                        (mkState (nextValue stLoad) (created stLoad) Untouched)
      = Done (success, stStore) /\
      root stStore = Erased /\
      map (fun inst => spirv.opcode (snd inst)) (created stStore) =
        [ (* the load *)
          spirv.ConstantOp; spirv.ConstantOp; spirv.SDivOp; spirv.AccessChainOp;
          spirv.LoadOp;
          spirv.ConstantOp; spirv.ConstantOp; spirv.SModOp; spirv.IMulOp;
          spirv.ShiftRightArithmeticOp; spirv.ConstantOp; spirv.BitwiseAndOp;
          (* the store *)
          spirv.ConstantOp;
          spirv.ConstantOp; spirv.ConstantOp; spirv.SModOp; spirv.IMulOp;
          spirv.ConstantOp; spirv.ShiftLeftLogicalOp; spirv.NotOp;
          spirv.BitwiseAndOp; spirv.ShiftLeftLogicalOp;
          spirv.ConstantOp; spirv.SDivOp; spirv.AccessChainOp;
          spirv.AtomicAndOp; spirv.AtomicOrOp ] /\
      Exec.run (created stStore)
               (Exec.mkMachine (Exec.args [Exec.RtBuffer; Exec.RtInt i]) mem) = Some m /\
      Exec.env m loaded =
        Some (Exec.RtInt (Z.shiftr (mem word) off mod 2 ^ srcBits)) /\
      (forall k, Exec.memory m k = mem k).
Proof.
  intros tc shape srcBits dstBits count sc ma al mem i Hsrc Hdst Hmod Hne
         srcType dstType bufferType Hbuf Hptr Hmem memref index r word off.
  unfold bufferType, srcType, dstType, memref, index in *.
  assert (E0 : (0 =? 0) = true) by reflexivity.
  assert (Ene : (srcBits =? dstBits) = false) by (apply Z.eqb_neq; exact Hne).
  (* the load *)
  unfold IntLoadOpPattern, convertedElementType, bind, cast, castMemRefType.
  ev. rewrite Hbuf. ev. rewrite Hmod, E0, Ene. ev.
  unfold adjustAccessChainForBitwidth, bind. ev. rewrite Hmod, E0. ev.
  rewrite Hptr. ev.
  unfold getOffsetForBitwidth, bind, assert_. rewrite Hmod, E0. ev.
  eexists. eexists. eexists. eexists.
  split; [reflexivity|]. ev. split; [reflexivity|].
  (* the store *)
  unfold IntStoreOpPattern, convertedElementType, bind, cast, castMemRefType.
  ev. rewrite Hbuf. ev. rewrite Hmod, E0, Ene. ev.
  split; [reflexivity|]. ev. split; [reflexivity|]. split; [reflexivity|].
  (* the instructions *)
  fold r.
  assert (Hr : 1 <= r < 2 ^ (dstBits - 1))
    by (apply ratio_range; [lia | lia | exact Hmod]).
  assert (Hhalf : 2 ^ (dstBits - 1) < 2 ^ dstBits) by (apply pow2_half; lia).
  pose proof (offset_range srcBits dstBits (Exec.signed dstBits i)
                ltac:(lia) ltac:(lia) Hmod) as (Hk & Hoff0 & Hoff1 & Hoff2).
  fold r in Hk, Hoff0, Hoff1, Hoff2. fold off in Hoff0, Hoff1, Hoff2.
  assert (Hpow : srcBits < 2 ^ dstBits).
  { pose proof (ratio_exact srcBits dstBits ltac:(lia) Hmod) as He.
    pose proof (width_lt_pow2 dstBits ltac:(lia)). fold r in He. nia. }
  assert (Hmask : U (APInt_of dstBits (lowBitsMask srcBits) false) = Z.ones srcBits).
  { rewrite lowBitsMask_ones by lia. apply U_APInt_of; [lia|].
    rewrite Z.ones_equiv.
    assert (2 ^ srcBits <= 2 ^ dstBits) by (apply Z.pow_le_mono_r; lia).
    pose proof (Z.pow_pos_nonneg 2 srcBits ltac:(lia) ltac:(lia)). lia. }
  set (k := Exec.signed dstBits i mod r) in *.
  pose proof (Hmem word) as Hword.
  assert (Hoff : (off <? dstBits) = true) by (apply Z.ltb_lt; lia).
  change (U (APInt_of 32 0 false)) with 0.
  rewrite !(U_APInt_of dstBits r), !(U_APInt_of dstBits srcBits), !Hmask by lia.
  rewrite !(signed_small dstBits r) by lia.
  assert (Er : (r =? 0) = false) by (apply Z.eqb_neq; lia).
  rewrite !Er.
  repeat (progress (ev; fold k; rewrite ?(wrap_small dstBits k) by lia;
                    fold off; rewrite ?(wrap_small dstBits off) by lia;
                    rewrite ?Hoff)).
  split; [reflexivity|]. ev.
  fold r k off word.
  rewrite (load_isolates dstBits srcBits off (mem word)) by lia.
  split; [reflexivity|].
  intros j. unfold Exec.setWord. rewrite Z.eqb_refl.
  destruct (Z.eqb_spec j word) as [->|]; [|reflexivity].
  apply store_restores; lia.
Qed.

(** The direct path: the widths agree. *)
Lemma direct_round_trip :
  forall tc shape bits count sc ma al mem i,
    0 < bits ->
    let type := IntegerType bits Signless in
    let bufferType := SpvPointerType (SpvStructType (SpvArrayType type count)) sc in
    convertType tc (MemRefType shape type) = Some bufferType ->
    let memref := mkValue 0 bufferType in
    let index := mkValue 1 type in
    exists stLoad loaded stStore m,
      IntLoadOpPattern tc (mkLoadOp (MemRefType shape type) ma al) memref [index]
                       (startState 2) = Done (success, stLoad) /\
      root stLoad = ReplacedWith [loaded] /\
      IntStoreOpPattern tc (mkStoreOp (MemRefType shape type))
                        (mkValue loaded type) memref [index]
                        (mkState (nextValue stLoad) (created stLoad) Untouched)
      = Done (success, stStore) /\
      root stStore = ReplacedWith [] /\
      Exec.run (created stStore)
               (Exec.mkMachine (Exec.args [Exec.RtBuffer; Exec.RtInt i]) mem) = Some m /\
      Exec.env m loaded = Some (Exec.RtInt (mem (Exec.signed bits i))) /\
      (forall k, Exec.memory m k = mem k).
Proof.
  intros tc shape bits count sc ma al mem i Hbits type bufferType Hbuf memref index.
  unfold bufferType, type, memref, index in *.
  assert (E0 : (0 =? 0) = true) by reflexivity.
  assert (Hmod : bits mod bits = 0) by (apply Z.mod_same; lia).
  unfold IntLoadOpPattern, convertedElementType, bind, cast, castMemRefType.
  ev. rewrite Hbuf. ev. rewrite Hmod, E0, Z.eqb_refl. ev.
  eexists. eexists. eexists. eexists.
  split; [reflexivity|]. ev. split; [reflexivity|].
  unfold IntStoreOpPattern, convertedElementType, bind, cast, castMemRefType.
  ev. rewrite Hbuf. ev. rewrite Hmod, E0, Z.eqb_refl. ev.
  split; [reflexivity|]. ev. split; [reflexivity|].
  change (U (APInt_of 32 0 false)) with 0. ev.
  split; [reflexivity|]. split; [reflexivity|].
  intros k. ev. unfold Exec.setWord.
  destruct (Z.eqb_spec k (Exec.signed bits i)) as [->|]; reflexivity.
Qed.

(** C1.  For a source width and a target width that is a multiple of it
    (equal, or else a source below 31 bits in a target of 3 to 64 bits),
    with the index held in a word of the target width: the load pattern
    and then the store pattern, applied to the value the load produced
    and to the same index, both succeed, and running the instructions they
    created in order leaves every word of the buffer as it was; so the
    element at the index and every other element, in the same word or
    elsewhere, keep their values.  For an index that is not negative the
    value loaded is the element at that index.  When the widths differ
    the load is a word load, an arithmetic shift right by the offset and
    an AND with the mask, and the store is an atomic AND with the
    complemented shifted mask followed by an atomic OR with the masked,
    shifted value. *)
Theorem narrow_load_then_store_round_trip :
  forall (tc : SPIRVTypeConverter) (shape : list Z) (srcBits dstBits count : Z)
         (sc : StorageClass) (ma al : option Attribute) (mem : Exec.Memory) (i : Z),
    0 < srcBits -> 0 < dstBits <= 64 -> dstBits mod srcBits = 0 ->
    (srcBits <> dstBits -> srcBits < 31 /\ 3 <= dstBits) ->
    let srcType := IntegerType srcBits Signless in
    let dstType := IntegerType dstBits Signless in
    let bufferType := SpvPointerType (SpvStructType (SpvArrayType dstType count)) sc in
    convertType tc (MemRefType shape srcType) = Some bufferType ->
    convertType tc (SpvPointerType dstType sc) = Some (SpvPointerType dstType sc) ->
    (forall k, 0 <= mem k < 2 ^ dstBits) ->
    0 <= i < 2 ^ dstBits ->
    let memref := mkValue 0 bufferType in
    let index := mkValue 1 dstType in
    exists stLoad loaded stStore m x,
      (* the load, and the store of what it loaded *)
      IntLoadOpPattern tc (mkLoadOp (MemRefType shape srcType) ma al) memref [index]
                       (startState 2) = Done (success, stLoad) /\
      root stLoad = ReplacedWith [loaded] /\
      IntStoreOpPattern tc (mkStoreOp (MemRefType shape srcType))
                        (mkValue loaded dstType) memref [index]
                        (mkState (nextValue stLoad) (created stLoad) Untouched)
      = Done (success, stStore) /\
      (* when the widths differ: shift and mask, then the two atomics *)
      (srcBits <> dstBits ->
       map (fun inst => spirv.opcode (snd inst)) (created stStore) =
        [ (* the load *)
          spirv.ConstantOp; spirv.ConstantOp; spirv.SDivOp; spirv.AccessChainOp;
          spirv.LoadOp;
          spirv.ConstantOp; spirv.ConstantOp; spirv.SModOp; spirv.IMulOp;
          spirv.ShiftRightArithmeticOp; spirv.ConstantOp; spirv.BitwiseAndOp;
          (* the store *)
          spirv.ConstantOp;
          spirv.ConstantOp; spirv.ConstantOp; spirv.SModOp; spirv.IMulOp;
          spirv.ConstantOp; spirv.ShiftLeftLogicalOp; spirv.NotOp;
          spirv.BitwiseAndOp; spirv.ShiftLeftLogicalOp;
          spirv.ConstantOp; spirv.SDivOp; spirv.AccessChainOp;
          spirv.AtomicAndOp; spirv.AtomicOrOp ]) /\
      (* the instructions of both, run in order *)
      Exec.run (created stStore)
               (Exec.mkMachine (Exec.args [Exec.RtBuffer; Exec.RtInt i]) mem) = Some m /\
      Exec.env m loaded = Some (Exec.RtInt x) /\
      (0 <= Exec.signed dstBits i ->
       x = Exec.element srcBits dstBits mem (Exec.signed dstBits i)) /\
      (forall k, Exec.memory m k = mem k) /\
      (forall j, Exec.element srcBits dstBits (Exec.memory m) j =
                 Exec.element srcBits dstBits mem j).
Proof.
  intros tc shape srcBits dstBits count sc ma al mem i Hsrc Hdst Hmod Hemu
         srcType dstType bufferType Hbuf Hptr Hmem Hi memref index.
  assert (Hsigned : 0 <= Exec.signed dstBits i -> Exec.signed dstBits i = i).
  { unfold Exec.signed. destruct (Z.ltb_spec i (2 ^ (dstBits - 1))); lia. }
  destruct (Z.eq_dec srcBits dstBits) as [E | Hne].
  - (* the direct path *)
    unfold srcType, dstType, bufferType, memref, index in *. subst srcBits.
    destruct (direct_round_trip tc shape dstBits count sc ma al mem i
                ltac:(lia) Hbuf)
      as (stLoad & loaded & stStore & m & H1 & H2 & H3 & _ & H5 & H6 & H7).
    exists stLoad, loaded, stStore, m, (mem (Exec.signed dstBits i)).
    do 3 (split; [assumption|]).
    split; [intros Hne; contradiction Hne; reflexivity|].
    do 2 (split; [assumption|]).
    assert (Helem : forall f j, (forall k, 0 <= f k < 2 ^ dstBits) ->
                                Exec.element dstBits dstBits f j = f j).
    { intros f j Hf. unfold Exec.element.
      rewrite Z.div_same, Z.div_1_r, Z.mod_1_r by lia.
      rewrite Z.mul_0_l, Z.shiftr_0_r. apply Z.mod_small, Hf. }
    split; [|split].
    + intros _. symmetry. apply Helem, Hmem.
    + exact H7.
    + intros j. rewrite !Helem; [apply H7 | exact Hmem |].
      intros k. rewrite H7. apply Hmem.
  - (* the emulated path *)
    destruct (Hemu Hne) as [Hs31 Hd3].
    destruct (emulated_round_trip tc shape srcBits dstBits count sc ma al mem i
                ltac:(lia) ltac:(lia) Hmod Hne Hbuf Hptr Hmem)
      as (stLoad & loaded & stStore & m & H1 & H2 & H3 & _ & Hops & H5 & H6 & H7).
    exists stLoad, loaded, stStore, m. eexists.
    do 3 (split; [eassumption|]).
    split; [intros _; exact Hops|].
    do 2 (split; [eassumption|]).
    split; [|split].
    + intros Hpos. rewrite (Hsigned Hpos). unfold Exec.element.
      pose proof (ratio_range srcBits dstBits Hsrc Hd3 Hmod) as Hr.
      pose proof (pow2_half dstBits ltac:(lia)) as Hhalf.
      assert (0 <= i < 2 ^ (dstBits - 1)) as Hi'.
      { rewrite <- (Hsigned Hpos) at 2. unfold Exec.signed.
        destruct (Z.ltb_spec i (2 ^ (dstBits - 1))); lia. }
      rewrite Z.quot_div_nonneg by lia.
      assert (0 <= i / (dstBits / srcBits) <= i).
      { split; [apply Z.div_pos; lia|].
        apply Z.div_le_upper_bound; [lia|]. nia. }
      rewrite wrap_small by lia. rewrite signed_small by lia. reflexivity.
    + exact H7.
    + intros j. unfold Exec.element. rewrite H7. reflexivity.
Qed.

(** ** The store of [0xAB] at index 5 *)

(** C2.  The 8-bit store of a value whose low byte is [0xAB] at linear
    index 5, into a buffer of 32-bit words, succeeds and erases the store.
    It leaves exactly these instructions: the bit offset as the signed
    modulo of the index by the constant 4 multiplied by the constant 8,
    all of type [i32]; the mask [0xFF] shifted left by the offset and
    complemented; the value masked by [0xFF] and shifted left by the
    offset; the access chain whose last index is the signed division of
    the index by 4; one atomic AND with the clear mask followed by one
    atomic OR with the insert value, both on that pointer at [Device]
    scope with [AcquireRelease] semantics.  Run, they compute the offset 8,
    the clear mask [0xFFFF00FF], the insert value [0xAB00] and the pointer
    to word 1, and change word 1 alone. *)
Theorem narrow_store_of_0xAB_at_index_5 :
  forall (tc : SPIRVTypeConverter) (shape : list Z) (count : Z) (sc : StorageClass)
         (mem : Exec.Memory) (v : Z),
    let bufferType := SpvPointerType (SpvStructType (SpvArrayType i32 count)) sc in
    convertType tc (MemRefType shape i8) = Some bufferType ->
    convertType tc (SpvPointerType i32 sc) = Some (SpvPointerType i32 sc) ->
    Z.land v 0xFF = 0xAB ->
    let memref := mkValue 0 bufferType in
    let value := mkValue 1 i32 in
    let index := mkValue 2 i32 in
    let word id := mkValue id i32 in
    let adjustedPtr := mkValue 16 (SpvPointerType i32 sc) in
    let const z :=
      spirv.mkOp spirv.ConstantOp (Some i32) []
                 (spirv.ValueAttr (IntegerAttr i32 (mkAPInt 32 z))) in
    let op opc operands := spirv.mkOp opc (Some i32) operands spirv.NoAttrs in
    let atomic opc operands :=
      spirv.mkOp opc (Some i32) operands
                 (spirv.AtomicAttrs spirv.Device spirv.AcquireRelease) in
    let insts :=
      [ (3%nat, const 0);
        (* offset = (index mod 4) * 8 *)
        (5%nat, const 4);
        (6%nat, const 8);
        (7%nat, op spirv.SModOp [index; word 5%nat]);
        (8%nat, op spirv.IMulOp [word 7%nat; word 6%nat]);
        (* clear mask = ~(0xFF << offset) *)
        (9%nat, const 0xFF);
        (10%nat, op spirv.ShiftLeftLogicalOp [word 9%nat; word 8%nat]);
        (11%nat, op spirv.NotOp [word 10%nat]);
        (* insert value = (value & 0xFF) << offset *)
        (12%nat, op spirv.BitwiseAndOp [value; word 9%nat]);
        (13%nat, op spirv.ShiftLeftLogicalOp [word 12%nat; word 8%nat]);
        (* target word = index / 4 *)
        (14%nat, const 4);
        (15%nat, op spirv.SDivOp [index; word 14%nat]);
        (16%nat, spirv.mkOp spirv.AccessChainOp (Some (SpvPointerType i32 sc))
                            [memref; word 3%nat; word 15%nat] spirv.NoAttrs);
        (17%nat, atomic spirv.AtomicAndOp [adjustedPtr; word 11%nat]);
        (18%nat, atomic spirv.AtomicOrOp [adjustedPtr; word 13%nat]) ] in
    IntStoreOpPattern tc (mkStoreOp (MemRefType shape i8)) value memref [index]
                      (startState 3)
    = Done (success, mkState 19 insts Erased) /\
    filter isAtomic insts =
      [ (17%nat, atomic spirv.AtomicAndOp [adjustedPtr; word 11%nat]);
        (18%nat, atomic spirv.AtomicOrOp [adjustedPtr; word 13%nat]) ] /\
    exists m,
      Exec.run insts
               (Exec.mkMachine (Exec.args [Exec.RtBuffer; Exec.RtInt v; Exec.RtInt 5]) mem)
      = Some m /\
      Exec.env m 8%nat = Some (Exec.RtInt 8) /\
      Exec.env m 11%nat = Some (Exec.RtInt 0xFFFF00FF) /\
      Exec.env m 13%nat = Some (Exec.RtInt 0xAB00) /\
      Exec.env m 16%nat = Some (Exec.RtWord 1) /\
      forall k,
        Exec.memory m k =
        if k =? 1 then Z.lor (Z.land (mem 1) 0xFFFF00FF) 0xAB00 else mem k.
Proof.
  intros tc shape count sc mem v bufferType Hbuf Hptr Hv memref value index word
         adjustedPtr const op atomic insts.
  unfold bufferType, i8, i32 in *.
  split; [|split].
  - unfold IntStoreOpPattern, convertedElementType, bind, cast, castMemRefType.
    cbn. rewrite Hbuf. cbn.
    unfold adjustAccessChainForBitwidth, bind. cbn. rewrite Hptr. reflexivity.
  - reflexivity.
  - unfold insts, const, op, atomic, word, adjustedPtr, memref, value, index.
    cbn. rewrite !Hv. eexists. split; [reflexivity|].
    repeat (split; [reflexivity|]).
    intros k. cbn. unfold Exec.setWord.
    destruct (Z.eqb_spec k 1) as [->|]; reflexivity.
Qed.

(* ================================================================== *)
(** * The properties on concrete inputs *)
(* ================================================================== *)

(** C1 on 8-bit elements in 32-bit words, index 5. *)
Lemma narrow_load_then_store_round_trip_witness :
  let tc := sampleTypeConverter in
  let mem : Exec.Memory := fun _ => 0x12345678 in
  let memref := mkValue 0 (sampleBufferType 4) in
  let index := mkValue 1 i32 in
  exists stLoad loaded stStore m x,
    IntLoadOpPattern tc (mkLoadOp (MemRefType [16] i8) None None) memref [index]
                     (startState 2) = Done (success, stLoad) /\
    root stLoad = ReplacedWith [loaded] /\
    IntStoreOpPattern tc (mkStoreOp (MemRefType [16] i8))
                      (mkValue loaded i32) memref [index]
                      (mkState (nextValue stLoad) (created stLoad) Untouched)
    = Done (success, stStore) /\
    ((8 : Z) <> 32 ->
     map (fun inst => spirv.opcode (snd inst)) (created stStore) =
        [ (* the load *)
          spirv.ConstantOp; spirv.ConstantOp; spirv.SDivOp; spirv.AccessChainOp;
          spirv.LoadOp;
          spirv.ConstantOp; spirv.ConstantOp; spirv.SModOp; spirv.IMulOp;
          spirv.ShiftRightArithmeticOp; spirv.ConstantOp; spirv.BitwiseAndOp;
          (* the store *)
          spirv.ConstantOp;
          spirv.ConstantOp; spirv.ConstantOp; spirv.SModOp; spirv.IMulOp;
          spirv.ConstantOp; spirv.ShiftLeftLogicalOp; spirv.NotOp;
          spirv.BitwiseAndOp; spirv.ShiftLeftLogicalOp;
          spirv.ConstantOp; spirv.SDivOp; spirv.AccessChainOp;
          spirv.AtomicAndOp; spirv.AtomicOrOp ]) /\
    Exec.run (created stStore)
             (Exec.mkMachine (Exec.args [Exec.RtBuffer; Exec.RtInt 5]) mem) = Some m /\
    Exec.env m loaded = Some (Exec.RtInt x) /\
    (0 <= Exec.signed 32 5 -> x = Exec.element 8 32 mem (Exec.signed 32 5)) /\
    (forall k, Exec.memory m k = mem k) /\
    (forall j, Exec.element 8 32 (Exec.memory m) j = Exec.element 8 32 mem j).
Proof.
  refine (narrow_load_then_store_round_trip
            sampleTypeConverter [16] 8 32 4 StorageBuffer None None
            (fun _ => 0x12345678) 5 _ _ _ _ _ _ _ _).
  - lia.
  - lia.
  - reflexivity.
  - intros _. lia.
  - reflexivity.
  - reflexivity.
  - intros _. lia.
  - lia.
Defined.

(** C2 with the sample type converter: the only atomics are the AND and
    the OR, in this order. *)
Lemma narrow_store_of_0xAB_at_index_5_witness :
  match IntStoreOpPattern sampleTypeConverter (mkStoreOp (MemRefType [16] i8))
                          (mkValue 1 i32) (mkValue 0 (sampleBufferType 4))
                          [mkValue 2 i32] (startState 3) with
  | Done (success, st) =>
      map (fun inst => spirv.opcode (snd inst)) (filter isAtomic (created st))
      = [spirv.AtomicAndOp; spirv.AtomicOrOp]
  | _ => False
  end.
Proof.
  unfold sampleBufferType.
  rewrite (proj1 (narrow_store_of_0xAB_at_index_5
                    sampleTypeConverter [16] 4 StorageBuffer (fun _ => 0) 0xAB
                    eq_refl eq_refl eq_refl)).
  reflexivity.
Defined.

(** C3 as the specification words it does not hold on the 8-bit attribute
    [0xFF] converted to 32 bits.  Read unsigned, the value 255 fits in 32
    bits, and the result is not 255 but [0xFFFFFFFF].  Read signed, the
    value -1 fits in 32 bits only as a signed number, and no message is
    printed; and under that reading the 64-bit attribute [0xFFFFFFFF],
    which fits in 32 bits unsigned, changes from 4294967295 to -1. *)
Lemma convertIntegerAttr_sign_extends_narrow_source :
  let src := mkAPInt 8 0xFF in
  let wide := mkAPInt 64 0xFFFFFFFF in
  (* unsigned reading *)
  ((U src <? 2 ^ 32) = true /\
   convertIntegerAttr i8 src 32 Signless =
     (Some (IntegerAttr i32 (mkAPInt 32 0xFFFFFFFF)), []) /\
   (U (mkAPInt 32 0xFFFFFFFF) =? U src) = false) /\
  (* signed reading *)
  (getSExtValue src = -1 /\
   snd (convertIntegerAttr i8 src 32 Signless) = [] /\
   (U wide <? 2 ^ 32) = true /\
   convertIntegerAttr i64 wide 32 Signless =
     (Some (IntegerAttr i32 (mkAPInt 32 0xFFFFFFFF)), []) /\
   (getSExtValue (mkAPInt 32 0xFFFFFFFF) =? getSExtValue wide) = false).
Proof. repeat split. Qed.

(** C3 on one input for each of the three ways. *)
Lemma convertIntegerAttr_three_way_split_witness :
  convertIntegerAttr i64 (mkAPInt 64 300) 32 Signless =
    (Some (IntegerAttr i32 (mkAPInt 32 300)), []) /\
  convertIntegerAttr i64 (mkAPInt 64 (2 ^ 64 - 5)) 32 Signless =
    (Some (IntegerAttr i32 (mkAPInt 32 (2 ^ 32 - 5))),
     [DbgConverted (IntegerAttr i64 (mkAPInt 64 (2 ^ 64 - 5)))
                   (IntegerAttr i32 (mkAPInt 32 (2 ^ 32 - 5))) i32]) /\
  convertIntegerAttr i64 (mkAPInt 64 (2 ^ 40)) 32 Signless =
    (None, [DbgIllegal (IntegerAttr i64 (mkAPInt 64 (2 ^ 40))) i32]).
Proof.
  split; [|split].
  - exact (proj1 (proj1 (convertIntegerAttr_three_way_split
                           i64 (mkAPInt 64 300) 32 Signless
                           ltac:(cbn; lia) ltac:(cbn; lia) ltac:(lia))
                        ltac:(cbn; lia))).
  - exact (proj1 (proj1 (proj2 (convertIntegerAttr_three_way_split
                                  i64 (mkAPInt 64 (2 ^ 64 - 5)) 32 Signless
                                  ltac:(cbn; lia) ltac:(cbn; lia) ltac:(lia)))
                        ltac:(cbn; lia)
                        ltac:(vm_compute; split; [discriminate | reflexivity]))).
  - exact (proj2 (proj2 (convertIntegerAttr_three_way_split
                           i64 (mkAPInt 64 (2 ^ 40)) 32 Signless
                           ltac:(cbn; lia) ltac:(cbn; lia) ltac:(lia)))
                 ltac:(cbn; lia)
                 ltac:(vm_compute; intros [_ H]; discriminate H)).
Defined.

(** C4 on the double-precision numbers 1.5, which single precision holds,
    and 0.1, which it does not. *)
Lemma convertFloatAttr_only_exact_single_witness :
  let conv : APFloat -> fltSemantics -> roundingMode -> APFloat * opStatus * bool :=
    fun v to _ => convertTowardZero v to in
  let f64 := FloatType F64 in
  (* 1.5 *)
  let x := mkAPFloat IEEEdouble fcNormal false 0 (3 * 2 ^ 51) in
  let y := mkAPFloat IEEEsingle fcNormal false 0 (3 * 2 ^ 22) in
  (* 0.1, rounded to double precision *)
  let tenth := mkAPFloat IEEEdouble fcNormal false (-4) 0x1999999999999A in
  (convertFloatAttr conv f64 x F32 = (Some (FloatAttr f32 y), []) /\
   conv y IEEEdouble rmTowardZero = (x, opOK, false)) /\
  convertFloatAttr conv f64 x F64 = (None, []) /\
  convertFloatAttr conv f64 tenth F32
    = (None, [DbgIllegal (FloatAttr f64 tenth) f32]).
Proof.
  intros conv f64 x y tenth.
  pose proof (convertFloatAttr_only_exact_single conv f64 x F32
                (fun v to => eq_refl)) as (_ & _ & _ & Hfinite).
  pose proof (convertFloatAttr_only_exact_single conv f64 x F64
                (fun v to => eq_refl)) as (Hother & _).
  pose proof (convertFloatAttr_only_exact_single conv f64 tenth F32
                (fun v to => eq_refl)) as (_ & Hstatus & _).
  split; [|split].
  - refine (proj1 (Hfinite eq_refl _) y _ _).
    + unfold wellFormed. cbn. lia.
    + unfold finiteIn, wellFormed. cbn. repeat split; try reflexivity; lia.
    + unfold sameNumber. cbn. split; reflexivity.
  - apply Hother. discriminate.
  - exact Hstatus.
Defined.

(** C5 on the AND of two 1-bit values and the XOR of two 1-bit values. *)
Lemma bitwise_patterns_dispatch_on_boolean_operands_witness :
  let a := mkValue 0 i1 in
  let b := mkValue 1 i1 in
  BitwiseOpPattern sampleTypeConverter spirv.LogicalAndOp spirv.BitwiseAndOp
                   (mkStdOp AndOp i1) [a; b] (startState 2)
  = replacedByOne 2 spirv.LogicalAndOp (Some i1) [a; b] spirv.NoAttrs /\
  XOrOpPattern sampleTypeConverter (mkStdOp XOrOp i1) [a; b] (startState 2)
  = failedUntouched 2.
Proof.
  split.
  - exact (proj2 (proj1 (proj2 (proj2 (bitwise_patterns_dispatch_on_boolean_operands
                                         sampleTypeConverter (mkStdOp AndOp i1)
                                         (mkValue 0 i1) (mkValue 1 i1) 2)))
                        eq_refl)
                 (BitwiseOp AndOp spirv.LogicalAndOp spirv.BitwiseAndOp) _ i1
                 ltac:(simpl; tauto) eq_refl eq_refl).
  - exact (proj1 (proj2 (proj2 (proj2 (proj2 (proj2
                   (bitwise_patterns_dispatch_on_boolean_operands
                      sampleTypeConverter (mkStdOp XOrOp i1)
                      (mkValue 0 i1) (mkValue 1 i1) 2))))
                   eq_refl)
                   XOrOpP _ ltac:(simpl; tauto) eq_refl)
                 eq_refl).
Defined.

(** C6 on signed-less-than: on 1-bit operands both patterns fail, on
    32-bit operands the general pattern emits [spv.SLessThan]. *)
Lemma integer_comparison_splits_on_width_witness :
  let a1 := mkValue 0 i1 in
  let b1 := mkValue 1 i1 in
  let a32 := mkValue 0 i32 in
  let b32 := mkValue 1 i32 in
  (BoolCmpIOpPattern (mkCmpIOp CmpIPredicate.slt i1 i1) a1 b1 (startState 2)
   = failedUntouched 2 /\
   CmpIOpPattern (mkCmpIOp CmpIPredicate.slt i1 i1) a1 b1 (startState 2)
   = failedUntouched 2) /\
  (BoolCmpIOpPattern (mkCmpIOp CmpIPredicate.slt i32 i1) a32 b32 (startState 2)
   = failedUntouched 2 /\
   CmpIOpPattern (mkCmpIOp CmpIPredicate.slt i32 i1) a32 b32 (startState 2)
   = replacedByOne 2 spirv.SLessThanOp (Some i1) [a32; b32] spirv.NoAttrs).
Proof.
  split.
  - pose proof (proj1 (proj2 (integer_comparison_splits_on_width
                                (mkCmpIOp CmpIPredicate.slt i1 i1)
                                (mkValue 0 i1) (mkValue 1 i1) 2))
                      Signless eq_refl) as [Hgeneral Hbool].
    split; [exact Hbool | exact Hgeneral].
  - exact (proj1 (proj2 (proj2 (integer_comparison_splits_on_width
                                  (mkCmpIOp CmpIPredicate.slt i32 i1)
                                  (mkValue 0 i32) (mkValue 1 i32) 2)))
                 32 Signless eq_refl ltac:(discriminate)).
Defined.

(** C7 on an index cast whose operand is already an [i32], and on a
    conversion from [i32] to [f32]. *)
Lemma cast_to_same_type_is_forwarded_witness :
  TypeCastingOpPattern sampleTypeConverter spirv.SConvertOp
                       (mkStdOp IndexCastOp IndexType) [mkValue 0 i32] (startState 1)
  = Done (success, mkState 1 [] (ReplacedWith [0%nat])) /\
  TypeCastingOpPattern sampleTypeConverter spirv.ConvertSToFOp
                       (mkStdOp SIToFPOp f32) [mkValue 0 i32] (startState 1)
  = replacedByOne 1 spirv.ConvertSToFOp (Some f32) [mkValue 0 i32] spirv.NoAttrs.
Proof.
  split.
  - exact (proj1 (proj2 (cast_to_same_type_is_forwarded
                           sampleTypeConverter (mkStdOp IndexCastOp IndexType)
                           (mkValue 0 i32) 1 spirv.SConvertOp eq_refl)
                        (TypeCastingOp IndexCastOp spirv.SConvertOp) _
                        ltac:(simpl; tauto) eq_refl)
                 eq_refl).
  - exact (proj2 (proj2 (cast_to_same_type_is_forwarded
                           sampleTypeConverter (mkStdOp SIToFPOp f32)
                           (mkValue 0 i32) 1 spirv.ConvertSToFOp eq_refl)
                        (TypeCastingOp SIToFPOp spirv.ConvertSToFOp) _
                        ltac:(simpl; tauto) eq_refl)
                 ltac:(discriminate)).
Defined.

(** C8 on a 2x2 tensor of 64-bit integers, converted to an array of four
    32-bit integers, and on a 2x2 vector. *)
Lemma composite_constant_rank_and_elements_witness :
  let x z := IntegerAttr i64 (mkAPInt 64 z) in
  let y z := IntegerAttr i32 (mkAPInt 32 z) in
  let values := [x 1; x 2; x 3; x 4] in
  let tensor := RankedTensorType [2; 2] i64 in
  ConstantCompositeOpPattern sampleTypeConverter sampleAPFloatConvert
    (mkConstantOp tensor (DenseElementsAttr tensor values)) [] (startState 0)
  = replacedByOne 0 spirv.ConstantOp (Some (SpvArrayType i32 4)) []
      (spirv.ValueAttr (DenseElementsAttr (RankedTensorType [4] i32)
                                          [y 1; y 2; y 3; y 4])) /\
  ConstantCompositeOpPattern sampleTypeConverter sampleAPFloatConvert
    (mkConstantOp (VectorType [2; 2] i32)
                  (DenseElementsAttr (VectorType [2; 2] i32) [y 1; y 2; y 3; y 4]))
    [] (startState 0)
  = failedUntouched 0.
Proof.
  intros x y values tensor. split.
  - pose proof (composite_constant_rank_and_elements
                  sampleTypeConverter sampleAPFloatConvert
                  (mkConstantOp tensor (DenseElementsAttr tensor values)) [] 0
                  tensor values (SpvArrayType i32 4) eq_refl eq_refl)
      as (_ & Hlinear & _ & Helements).
    rewrite (Hlinear [2; 2] i64 eq_refl ltac:(simpl; lia)).
    refine (proj1 (proj2 (proj2 (proj2 (Helements i64 (RankedTensorType [4] i64) i32
                                          eq_refl)
                                       ltac:(discriminate)))
                         64 Signless 32 Signless eq_refl ltac:(discriminate) eq_refl)
                  [y 1; y 2; y 3; y 4] _).
    repeat (constructor; [eexists; eexists; split; reflexivity|]). constructor.
  - exact (proj1 (composite_constant_rank_and_elements
                    sampleTypeConverter sampleAPFloatConvert
                    (mkConstantOp (VectorType [2; 2] i32)
                       (DenseElementsAttr (VectorType [2; 2] i32)
                                          [y 1; y 2; y 3; y 4])) [] 0
                    (VectorType [2; 2] i32) [y 1; y 2; y 3; y 4]
                    (SpvArrayType i32 4) eq_refl eq_refl)
                 [2; 2] i32 eq_refl ltac:(simpl; lia)).
Defined.

(** C9 on [sparse<[[0]], [5]> : tensor<2xi32>]: the constant is of a
    shaped type that converts and its value is sparse, not dense; the
    pattern does not return [failure]. *)
Lemma sparse_constant_is_not_rejected :
  let type := RankedTensorType [2] i32 in
  let sparse := SparseElementsAttr type [[0]] [IntegerAttr i32 (mkAPInt 32 5)] in
  isaShapedType type = true /\
  convertType sampleTypeConverter type = Some (SpvArrayType i32 2) /\
  dyn_cast_DenseElementsAttr sparse = None /\
  ConstantCompositeOpPattern sampleTypeConverter sampleAPFloatConvert
                             (mkConstantOp type sparse) [] (startState 0)
  = Undefined "getType() on a null DenseElementsAttr".
Proof. repeat split. Qed.

(* ================================================================== *)
(** * Stores and loads of one element *)
(* ================================================================== *)

(** ** Bits of the packed words *)

Lemma testbit_slice (s off w n : Z) :
  0 <= s -> 0 <= off -> 0 <= n ->
  Z.testbit (slice s off w) n = (n <? s) && Z.testbit w (n + off).
Proof.
  intros. unfold slice. rewrite Z.testbit_mod_pow2, Z.shiftr_spec by lia.
  reflexivity.
Qed.

(** The clear mask of the store: ones everywhere in the word but in the
    range of the element. *)
Lemma testbit_clear_mask (W s off n : Z) :
  0 <= W -> 0 <= s -> 0 <= off -> 0 <= n ->
  Z.testbit (clearMask W s off) n =
  (n <? W) && negb ((off <=? n) && (n <? off + s)).
Proof.
  intros HW Hs Hoff Hn. unfold clearMask.
  rewrite testbit_wrap, Z.lnot_spec, testbit_wrap, Z.shiftl_spec by lia.
  destruct (Z.ltb_spec n W); [|reflexivity]. simpl.
  destruct (Z.leb_spec off n).
  - rewrite Z.testbit_ones_nonneg by lia.
    destruct (Z.ltb_spec n (off + s)), (Z.ltb_spec (n - off) s);
      try reflexivity; lia.
  - rewrite Z.testbit_neg_r by lia. reflexivity.
Qed.

(** The insert value of the store: the low [s] bits of the value, moved
    to the range of the element. *)
Lemma testbit_insert_value (W s off v n : Z) :
  0 <= s -> 0 <= off -> off + s <= W -> 0 <= n ->
  Z.testbit (insertValue W s off v) n =
  (off <=? n) && (n <? off + s) && Z.testbit v (n - off).
Proof.
  intros Hs Hoff Hfit Hn. unfold insertValue.
  rewrite testbit_wrap, Z.shiftl_spec, Z.land_spec by lia.
  destruct (Z.leb_spec off n).
  - rewrite Z.testbit_ones_nonneg by lia.
    destruct (Z.ltb_spec n W), (Z.ltb_spec n (off + s)), (Z.ltb_spec (n - off) s);
      simpl; try lia; try reflexivity; now rewrite ?andb_true_r, ?andb_false_r.
  - rewrite !(Z.testbit_neg_r _ (n - off)) by lia.
    destruct (n <? W); reflexivity.
Qed.

Lemma word_of_high_bits (W x : Z) :
  0 <= W -> (forall n, W <= n -> Z.testbit x n = false) -> 0 <= x < 2 ^ W.
Proof.
  intros HW Hhigh.
  assert (x = x mod 2 ^ W) as ->.
  { apply Z.bits_inj'. intros n Hn. rewrite Z.testbit_mod_pow2 by lia.
    destruct (Z.ltb_spec n W); [reflexivity|]. now apply Hhigh. }
  apply Z.mod_pos_bound. apply Z.pow_pos_nonneg; lia.
Qed.

Lemma clearedWord_range (W s off w : Z) :
  0 <= W -> 0 <= w < 2 ^ W -> 0 <= clearedWord W s off w < 2 ^ W.
Proof.
  intros HW Hw. apply word_of_high_bits; [assumption|]. intros n Hn.
  unfold clearedWord. rewrite Z.land_spec, (testbit_word_high W w n) by lia.
  reflexivity.
Qed.

Lemma insertedWord_range (W s off v w : Z) :
  0 <= W -> 0 <= w < 2 ^ W -> 0 <= insertedWord W s off v w < 2 ^ W.
Proof.
  intros HW Hw. apply word_of_high_bits; [assumption|]. intros n Hn.
  unfold insertedWord.
  unfold insertValue.
  rewrite Z.lor_spec, (testbit_word_high W w n), testbit_wrap by lia.
  destruct (Z.ltb_spec n W); [lia|reflexivity].
Qed.

Lemma slice_cleared_same (W s off w : Z) :
  0 <= W -> 0 < s -> 0 <= off ->
  slice s off (clearedWord W s off w) = 0.
Proof.
  intros HW Hs Hoff. apply Z.bits_inj'. intros n Hn.
  rewrite testbit_slice, Z.bits_0 by lia. unfold clearedWord.
  rewrite Z.land_spec, testbit_clear_mask by lia.
  destruct (Z.ltb_spec n s); [|reflexivity].
  destruct (Z.leb_spec off (n + off)), (Z.ltb_spec (n + off) (off + s));
    try lia; simpl; rewrite ?andb_false_r; reflexivity.
Qed.

Lemma slice_cleared_other (W s off off' w : Z) :
  0 <= W -> 0 < s -> 0 <= off -> 0 <= off' -> off' + s <= W ->
  off' + s <= off \/ off + s <= off' ->
  slice s off' (clearedWord W s off w) = slice s off' w.
Proof.
  intros HW Hs Hoff Hoff' Hfit Hdisj. apply Z.bits_inj'. intros n Hn.
  rewrite !testbit_slice by lia. unfold clearedWord.
  rewrite Z.land_spec, testbit_clear_mask by lia.
  destruct (Z.ltb_spec n s); [|reflexivity]. simpl.
  destruct (Z.ltb_spec (n + off') W); [|lia].
  destruct (Z.leb_spec off (n + off')), (Z.ltb_spec (n + off') (off + s));
    try lia; simpl; rewrite ?andb_true_r; reflexivity.
Qed.

Lemma slice_inserted_same (W s off v w : Z) :
  0 <= W -> 0 < s -> 0 <= off -> off + s <= W ->
  slice s off (insertedWord W s off v w) = Z.lor (slice s off w) (v mod 2 ^ s).
Proof.
  intros HW Hs Hoff Hfit. apply Z.bits_inj'. intros n Hn.
  rewrite testbit_slice, Z.lor_spec, testbit_slice, Z.testbit_mod_pow2 by lia.
  unfold insertedWord. rewrite Z.lor_spec, testbit_insert_value by lia.
  replace (n + off - off) with n by lia.
  destruct (Z.ltb_spec n s); [|reflexivity]. simpl.
  destruct (Z.leb_spec off (n + off)), (Z.ltb_spec (n + off) (off + s));
    try lia; reflexivity.
Qed.

Lemma slice_inserted_other (W s off off' v w : Z) :
  0 <= W -> 0 < s -> 0 <= off -> off + s <= W -> 0 <= off' ->
  off' + s <= off \/ off + s <= off' ->
  slice s off' (insertedWord W s off v w) = slice s off' w.
Proof.
  intros HW Hs Hoff Hfit Hoff' Hdisj. apply Z.bits_inj'. intros n Hn.
  rewrite !testbit_slice by lia. unfold insertedWord.
  rewrite Z.lor_spec, testbit_insert_value by lia.
  destruct (Z.ltb_spec n s); [|reflexivity]. simpl.
  destruct (Z.leb_spec off (n + off')), (Z.ltb_spec (n + off') (off + s));
    try lia; simpl; rewrite ?orb_false_r; reflexivity.
Qed.

Lemma slice_of_bits (s off w x : Z) :
  0 <= s -> 0 <= off ->
  (forall n, 0 <= n < s -> Z.testbit w (n + off) = Z.testbit x n) ->
  slice s off w = x mod 2 ^ s.
Proof.
  intros Hs Hoff Hbits. apply Z.bits_inj'. intros n Hn.
  rewrite testbit_slice, Z.testbit_mod_pow2 by lia.
  destruct (Z.ltb_spec n s); [|reflexivity]. simpl. apply Hbits. lia.
Qed.

Lemma element_slice (s W : Z) (mem : Exec.Memory) (j : Z) :
  Exec.element s W mem j = slice s ((j mod (W / s)) * s) (mem (j / (W / s))).
Proof. reflexivity. Qed.

(** Two different elements lie in different words or in disjoint ranges
    of one word. *)
Lemma elements_apart (s r i j : Z) :
  0 < s -> 0 < r -> i <> j ->
  i / r <> j / r \/
  (j mod r) * s + s <= (i mod r) * s \/ (i mod r) * s + s <= (j mod r) * s.
Proof.
  intros Hs Hr Hij.
  destruct (Z.eq_dec (i / r) (j / r)) as [E|]; [right | left; assumption].
  assert (i mod r <> j mod r).
  { intros Em. apply Hij.
    rewrite (Z.div_mod i r), (Z.div_mod j r) by lia. congruence. }
  nia.
Qed.

Lemma wordOf_nonneg (srcBits dstBits i : Z) :
  0 < srcBits -> 3 <= dstBits -> dstBits mod srcBits = 0 ->
  0 <= i < 2 ^ (dstBits - 1) ->
  wordOf srcBits dstBits i = i / (dstBits / srcBits) /\
  offsetOf srcBits dstBits i = (i mod (dstBits / srcBits)) * srcBits.
Proof.
  intros Hsrc Hdst Hmod Hi. unfold wordOf, offsetOf.
  pose proof (ratio_range srcBits dstBits Hsrc Hdst Hmod) as Hr.
  pose proof (pow2_half dstBits ltac:(lia)) as Hhalf.
  rewrite (signed_small dstBits i) by lia.
  rewrite Z.quot_div_nonneg by lia.
  assert (0 <= i / (dstBits / srcBits) <= i).
  { split; [apply Z.div_pos; lia|].
    apply Z.div_le_upper_bound; [lia|]. nia. }
  rewrite wrap_small by lia. rewrite signed_small by lia. split; reflexivity.
Qed.

(** ** The instructions of the patterns *)

Lemma step_pure inst e mem m' :
  isPure inst = true ->
  Exec.step (Exec.mkMachine e mem) inst = Some m' ->
  Exec.memory m' = mem /\
  forall mem2, Exec.step (Exec.mkMachine e mem2) inst
               = Some (Exec.mkMachine (Exec.env m') mem2).
Proof.
  destruct inst as [id [opc ty ops attrs]]. unfold isPure. simpl.
  destruct opc; try discriminate; intros _; simpl;
    try discriminate;
    unfold Exec.binary; simpl;
    repeat match goal with
           | |- context [match ?x with _ => _ end] => destruct x; try discriminate
           end;
    intros H; injection H as <-; split; reflexivity.
Qed.

Lemma run_pure insts : forall e mem m',
  forallb isPure insts = true ->
  Exec.run insts (Exec.mkMachine e mem) = Some m' ->
  Exec.memory m' = mem /\
  forall mem2, Exec.run insts (Exec.mkMachine e mem2)
               = Some (Exec.mkMachine (Exec.env m') mem2).
Proof.
  induction insts as [| inst rest IH]; intros e mem m' Hp Hrun.
  - injection Hrun as <-. split; reflexivity.
  - simpl in Hp. apply andb_prop in Hp as [Hp1 Hp2]. simpl in Hrun.
    destruct (Exec.step (Exec.mkMachine e mem) inst) as [m1|] eqn:Hs;
      [|discriminate].
    destruct (step_pure _ _ _ _ Hp1 Hs) as [Hm1 Hind].
    destruct m1 as [e1 mem1]. simpl in Hm1. subst mem1.
    destruct (IH _ _ _ Hp2 Hrun) as [Hm' Hind'].
    split; [assumption|]. intros mem2. simpl. rewrite Hind. apply Hind'.
Qed.

Lemma run_app (l1 : list (nat * spirv.Operation)) :
  forall l2 m0 m1,
    Exec.run l1 m0 = Some m1 -> Exec.run (l1 ++ l2) m0 = Exec.run l2 m1.
Proof.
  induction l1 as [|x l1 IH]; intros l2 m0 m1 H.
  - injection H as <-. reflexivity.
  - simpl in *. destruct (Exec.step m0 x); [|discriminate]. now apply IH.
Qed.

(** The emulated store creates the instructions that compute the
    pointer, the clear mask and the insert value, none of which touches
    the buffer, and then the atomic AND and the atomic OR. *)
Lemma store_program :
  forall tc shape srcBits dstBits count sc,
    0 < srcBits < 31 -> 3 <= dstBits <= 64 -> dstBits mod srcBits = 0 ->
    srcBits <> dstBits ->
    let srcType := IntegerType srcBits Signless in
    let dstType := IntegerType dstBits Signless in
    let bufferType := SpvPointerType (SpvStructType (SpvArrayType dstType count)) sc in
    convertType tc (MemRefType shape srcType) = Some bufferType ->
    convertType tc (SpvPointerType dstType sc) = Some (SpvPointerType dstType sc) ->
    exists prefix,
      IntStoreOpPattern tc (mkStoreOp (MemRefType shape srcType))
                        (mkValue 1 dstType) (mkValue 0 bufferType)
                        [mkValue 2 dstType] (startState 3)
      = Done (success,
              mkState 19
                (prefix ++ [atomicOn spirv.AtomicAndOp dstType sc 17 16 11;
                            atomicOn spirv.AtomicOrOp dstType sc 18 16 13])
                Erased) /\
      forallb isPure prefix = true /\
      forall v i mem,
        exists e,
          Exec.run prefix
            (Exec.mkMachine (Exec.args [Exec.RtBuffer; Exec.RtInt v; Exec.RtInt i]) mem)
          = Some (Exec.mkMachine e mem) /\
          e 16%nat = Some (Exec.RtWord (wordOf srcBits dstBits i)) /\
          e 11%nat = Some (Exec.RtInt
                             (clearMask dstBits srcBits (offsetOf srcBits dstBits i))) /\
          e 13%nat = Some (Exec.RtInt
                             (insertValue dstBits srcBits (offsetOf srcBits dstBits i) v)).
Proof.
  intros tc shape srcBits dstBits count sc Hsrc Hdst Hmod Hne
         srcType dstType bufferType Hbuf Hptr.
  unfold bufferType, srcType, dstType in *.
  assert (E0 : (0 =? 0) = true) by reflexivity.
  assert (Ene : (srcBits =? dstBits) = false) by (apply Z.eqb_neq; exact Hne).
  unfold IntStoreOpPattern, convertedElementType, bind, cast, castMemRefType.
  ev. rewrite Hbuf. ev. rewrite Hmod, E0, Ene. ev.
  unfold adjustAccessChainForBitwidth, bind. ev. rewrite Hmod, E0. ev.
  rewrite Hptr. ev.
  unfold getOffsetForBitwidth, bind, assert_. rewrite Hmod, E0. ev.
  eexists.
  split.
  { unfold atomicOn, ret.
    match goal with
    | |- Done (_, mkState _ ?l _) = _ =>
        let n := eval cbv in (List.length l - 2)%nat in
        rewrite <- (firstn_skipn n l) at 1
    end.
    cbn [firstn skipn]. reflexivity. }
  split; [reflexivity|].
  intros v i mem. ev.
  set (r := dstBits / srcBits).
  assert (Hr : 1 <= r < 2 ^ (dstBits - 1))
    by (apply ratio_range; [lia | lia | exact Hmod]).
  assert (Hhalf : 2 ^ (dstBits - 1) < 2 ^ dstBits) by (apply pow2_half; lia).
  pose proof (offset_range srcBits dstBits (Exec.signed dstBits i)
                ltac:(lia) ltac:(lia) Hmod) as (Hk & Hoff0 & Hoff1 & Hoff2).
  fold r in Hk, Hoff0, Hoff1, Hoff2.
  unfold wordOf, offsetOf, clearMask, insertValue. fold r.
  set (off := (Exec.signed dstBits i mod r) * srcBits) in *.
  assert (Hpow : srcBits < 2 ^ dstBits).
  { pose proof (ratio_exact srcBits dstBits ltac:(lia) Hmod) as He.
    pose proof (width_lt_pow2 dstBits ltac:(lia)). fold r in He. nia. }
  assert (Hmask : U (APInt_of dstBits (lowBitsMask srcBits) false) = Z.ones srcBits).
  { rewrite lowBitsMask_ones by lia. apply U_APInt_of; [lia|].
    rewrite Z.ones_equiv.
    assert (2 ^ srcBits <= 2 ^ dstBits) by (apply Z.pow_le_mono_r; lia).
    pose proof (Z.pow_pos_nonneg 2 srcBits ltac:(lia) ltac:(lia)). lia. }
  set (k := Exec.signed dstBits i mod r) in *.
  assert (Hoff : (off <? dstBits) = true) by (apply Z.ltb_lt; lia).
  change (U (APInt_of 32 0 false)) with 0.
  rewrite !(U_APInt_of dstBits r), !(U_APInt_of dstBits srcBits), !Hmask by lia.
  rewrite !(signed_small dstBits r) by lia.
  assert (Er : (r =? 0) = false) by (apply Z.eqb_neq; lia).
  rewrite !Er.
  repeat (progress (ev; fold k; rewrite ?(wrap_small dstBits k) by lia;
                    fold off; rewrite ?(wrap_small dstBits off) by lia;
                    rewrite ?Hoff)).
  eexists. split; [reflexivity|]. ev.
  repeat split; reflexivity.
Qed.

(** The emulated store: the instructions the pattern creates, run on the
    operands [v] and [i]. *)
Lemma emulated_store :
  forall tc shape srcBits dstBits count sc mem v i,
    0 < srcBits < 31 -> 3 <= dstBits <= 64 -> dstBits mod srcBits = 0 ->
    srcBits <> dstBits ->
    let srcType := IntegerType srcBits Signless in
    let dstType := IntegerType dstBits Signless in
    let bufferType := SpvPointerType (SpvStructType (SpvArrayType dstType count)) sc in
    convertType tc (MemRefType shape srcType) = Some bufferType ->
    convertType tc (SpvPointerType dstType sc) = Some (SpvPointerType dstType sc) ->
    let off := offsetOf srcBits dstBits i in
    exists st m,
      IntStoreOpPattern tc (mkStoreOp (MemRefType shape srcType))
                        (mkValue 1 dstType) (mkValue 0 bufferType)
                        [mkValue 2 dstType] (startState 3)
      = Done (success, st) /\
      root st = Erased /\
      Exec.run (created st)
        (Exec.mkMachine (Exec.args [Exec.RtBuffer; Exec.RtInt v; Exec.RtInt i]) mem)
      = Some m /\
      forall k,
        Exec.memory m k =
        if k =? wordOf srcBits dstBits i
        then insertedWord dstBits srcBits off v (clearedWord dstBits srcBits off (mem k))
        else mem k.
Proof.
  intros tc shape srcBits dstBits count sc mem v i Hsrc Hdst Hmod Hne
         srcType dstType bufferType Hbuf Hptr off.
  destruct (store_program tc shape srcBits dstBits count sc Hsrc Hdst Hmod Hne
              Hbuf Hptr) as (prefix & Hrw & Hpure & Hrun).
  destruct (Hrun v i mem) as (e & He & H16 & H11 & H13).
  eexists. eexists. split; [exact Hrw|]. split; [reflexivity|].
  cbn [created].
  rewrite (run_app _ _ _ _ He).
  unfold atomicOn. ev. unfold Exec.ptrOperand, Exec.intOperand. ev.
  rewrite H16, H11. ev. rewrite H16, H13. ev.
  split; [reflexivity|].
  intros k. ev. unfold Exec.setWord. rewrite Z.eqb_refl.
  destruct (Z.eqb_spec k (wordOf srcBits dstBits i)) as [->|]; reflexivity.
Qed.

(** The direct store: the widths agree. *)
Lemma direct_store :
  forall tc shape bits count sc mem v i,
    0 < bits ->
    let type := IntegerType bits Signless in
    let bufferType := SpvPointerType (SpvStructType (SpvArrayType type count)) sc in
    convertType tc (MemRefType shape type) = Some bufferType ->
    exists st m,
      IntStoreOpPattern tc (mkStoreOp (MemRefType shape type))
                        (mkValue 1 type) (mkValue 0 bufferType)
                        [mkValue 2 type] (startState 3)
      = Done (success, st) /\
      root st = ReplacedWith [] /\
      Exec.run (created st)
        (Exec.mkMachine (Exec.args [Exec.RtBuffer; Exec.RtInt v; Exec.RtInt i]) mem)
      = Some m /\
      forall k,
        Exec.memory m k = if k =? Exec.signed bits i then v else mem k.
Proof.
  intros tc shape bits count sc mem v i Hbits type bufferType Hbuf.
  unfold bufferType, type in *.
  assert (E0 : (0 =? 0) = true) by reflexivity.
  assert (Hmod : bits mod bits = 0) by (apply Z.mod_same; lia).
  unfold IntStoreOpPattern, convertedElementType, bind, cast, castMemRefType.
  ev. rewrite Hbuf. ev. rewrite Hmod, E0, Z.eqb_refl. ev.
  eexists. eexists. split; [reflexivity|]. ev. split; [reflexivity|].
  change (U (APInt_of 32 0 false)) with 0. ev.
  split; [reflexivity|]. intros k. reflexivity.
Qed.

(** The store pattern, run: the element at the index takes the low bits
    of the value and no other element changes. *)
Lemma store_elements :
  forall (tc : SPIRVTypeConverter) (shape : list Z) (srcBits dstBits count : Z)
         (sc : StorageClass) (mem : Exec.Memory) (v i : Z),
    0 < srcBits -> 0 < dstBits <= 64 -> dstBits mod srcBits = 0 ->
    (srcBits <> dstBits -> srcBits < 31 /\ 3 <= dstBits) ->
    let srcType := IntegerType srcBits Signless in
    let dstType := IntegerType dstBits Signless in
    let bufferType := SpvPointerType (SpvStructType (SpvArrayType dstType count)) sc in
    convertType tc (MemRefType shape srcType) = Some bufferType ->
    convertType tc (SpvPointerType dstType sc) = Some (SpvPointerType dstType sc) ->
    (forall k, 0 <= mem k < 2 ^ dstBits) ->
    0 <= v < 2 ^ dstBits ->
    0 <= i < 2 ^ (dstBits - 1) ->
    exists st m,
      IntStoreOpPattern tc (mkStoreOp (MemRefType shape srcType))
                        (mkValue 1 dstType) (mkValue 0 bufferType)
                        [mkValue 2 dstType] (startState 3)
      = Done (success, st) /\
      Exec.run (created st)
        (Exec.mkMachine (Exec.args [Exec.RtBuffer; Exec.RtInt v; Exec.RtInt i]) mem)
      = Some m /\
      Exec.element srcBits dstBits (Exec.memory m) i = v mod 2 ^ srcBits /\
      (forall j, j <> i ->
         Exec.element srcBits dstBits (Exec.memory m) j =
         Exec.element srcBits dstBits mem j) /\
      (forall k, 0 <= Exec.memory m k < 2 ^ dstBits).
Proof.
  intros tc shape srcBits dstBits count sc mem v i Hsrc Hdst Hmod Hemu
         srcType dstType bufferType Hbuf Hptr Hmem Hv Hi.
  destruct (Z.eq_dec srcBits dstBits) as [E | Hne].
  - unfold srcType, dstType, bufferType in *. subst srcBits.
    destruct (direct_store tc shape dstBits count sc mem v i ltac:(lia) Hbuf)
      as (st & m & Hrw & _ & Hrun & Hm).
    exists st, m. split; [exact Hrw|]. split; [exact Hrun|].
    rewrite signed_small in Hm by lia.
    assert (Helem : forall f j, Exec.element dstBits dstBits f j = f j mod 2 ^ dstBits).
    { intros f j. unfold Exec.element.
      rewrite Z.div_same, Z.div_1_r, Z.mod_1_r by lia.
      rewrite Z.mul_0_l, Z.shiftr_0_r. reflexivity. }
    split; [|split].
    + rewrite Helem, Hm, Z.eqb_refl. reflexivity.
    + intros j Hj. rewrite !Helem, Hm.
      destruct (Z.eqb_spec j i); [contradiction | reflexivity].
    + intros k. rewrite Hm. destruct (k =? i); [exact Hv | apply Hmem].
  - destruct (Hemu Hne) as [Hs31 Hd3].
    destruct (emulated_store tc shape srcBits dstBits count sc mem v i
                ltac:(lia) ltac:(lia) Hmod Hne Hbuf Hptr)
      as (st & m & Hrw & _ & Hrun & Hm).
    exists st, m. split; [exact Hrw|]. split; [exact Hrun|].
    destruct (wordOf_nonneg srcBits dstBits i Hsrc Hd3 Hmod Hi) as [Ew Eo].
    rewrite Ew, Eo in Hm.
    set (r := dstBits / srcBits) in *.
    pose proof (ratio_range srcBits dstBits Hsrc Hd3 Hmod) as Hr. fold r in Hr.
    pose proof (offset_range srcBits dstBits i Hsrc Hd3 Hmod) as (_ & Ho0 & Ho1 & _).
    fold r in Ho0, Ho1.
    split; [|split].
    + rewrite element_slice. fold r. rewrite Hm, Z.eqb_refl.
      rewrite slice_inserted_same, slice_cleared_same by lia.
      apply Z.lor_0_l.
    + intros j Hj. rewrite !element_slice. fold r. rewrite Hm.
      destruct (Z.eqb_spec (j / r) (i / r)) as [E|]; [|reflexivity].
      pose proof (offset_range srcBits dstBits j Hsrc Hd3 Hmod) as (_ & Hj0 & Hj1 & _).
      fold r in Hj0, Hj1.
      destruct (elements_apart srcBits r i j ltac:(lia) ltac:(lia) ltac:(congruence))
        as [Hw | Hd]; [congruence|].
      rewrite slice_inserted_other, slice_cleared_other by lia. reflexivity.
    + intros k. rewrite Hm. destruct (k =? i / r); [|apply Hmem].
      apply insertedWord_range; [lia|]. apply clearedWord_range; [lia|]. apply Hmem.
Qed.

(** The emulated load: the instructions the pattern creates, run on the
    index [j]. *)
Lemma emulated_load :
  forall tc shape srcBits dstBits count sc ma al,
    0 < srcBits < 31 -> 3 <= dstBits <= 64 -> dstBits mod srcBits = 0 ->
    srcBits <> dstBits ->
    let srcType := IntegerType srcBits Signless in
    let dstType := IntegerType dstBits Signless in
    let bufferType := SpvPointerType (SpvStructType (SpvArrayType dstType count)) sc in
    convertType tc (MemRefType shape srcType) = Some bufferType ->
    convertType tc (SpvPointerType dstType sc) = Some (SpvPointerType dstType sc) ->
    exists st loaded,
      IntLoadOpPattern tc (mkLoadOp (MemRefType shape srcType) ma al)
                       (mkValue 0 bufferType) [mkValue 1 dstType] (startState 2)
      = Done (success, st) /\
      root st = ReplacedWith [loaded] /\
      forall mem j,
        (forall k, 0 <= mem k < 2 ^ dstBits) ->
        exists m,
          Exec.run (created st)
            (Exec.mkMachine (Exec.args [Exec.RtBuffer; Exec.RtInt j]) mem) = Some m /\
          Exec.env m loaded =
            Some (Exec.RtInt (slice srcBits (offsetOf srcBits dstBits j)
                                    (mem (wordOf srcBits dstBits j)))) /\
          (forall k, Exec.memory m k = mem k).
Proof.
  intros tc shape srcBits dstBits count sc ma al Hsrc Hdst Hmod Hne
         srcType dstType bufferType Hbuf Hptr.
  unfold bufferType, srcType, dstType in *.
  assert (E0 : (0 =? 0) = true) by reflexivity.
  assert (Ene : (srcBits =? dstBits) = false) by (apply Z.eqb_neq; exact Hne).
  unfold IntLoadOpPattern, convertedElementType, bind, cast, castMemRefType.
  ev. rewrite Hbuf. ev. rewrite Hmod, E0, Ene. ev.
  unfold adjustAccessChainForBitwidth, bind. ev. rewrite Hmod, E0. ev.
  rewrite Hptr. ev.
  unfold getOffsetForBitwidth, bind, assert_. rewrite Hmod, E0. ev.
  eexists. eexists.
  split; [reflexivity|]. ev. split; [reflexivity|].
  intros mem i Hmem. ev.
  set (r := dstBits / srcBits).
  assert (Hr : 1 <= r < 2 ^ (dstBits - 1))
    by (apply ratio_range; [lia | lia | exact Hmod]).
  assert (Hhalf : 2 ^ (dstBits - 1) < 2 ^ dstBits) by (apply pow2_half; lia).
  pose proof (offset_range srcBits dstBits (Exec.signed dstBits i)
                ltac:(lia) ltac:(lia) Hmod) as (Hk & Hoff0 & Hoff1 & Hoff2).
  fold r in Hk, Hoff0, Hoff1, Hoff2.
  unfold wordOf, offsetOf, slice. fold r.
  set (off := (Exec.signed dstBits i mod r) * srcBits) in *.
  set (word := Exec.signed dstBits (Exec.wrap dstBits (Z.quot (Exec.signed dstBits i) r))).
  assert (Hpow : srcBits < 2 ^ dstBits).
  { pose proof (ratio_exact srcBits dstBits ltac:(lia) Hmod) as He.
    pose proof (width_lt_pow2 dstBits ltac:(lia)). fold r in He. nia. }
  assert (Hmask : U (APInt_of dstBits (lowBitsMask srcBits) false) = Z.ones srcBits).
  { rewrite lowBitsMask_ones by lia. apply U_APInt_of; [lia|].
    rewrite Z.ones_equiv.
    assert (2 ^ srcBits <= 2 ^ dstBits) by (apply Z.pow_le_mono_r; lia).
    pose proof (Z.pow_pos_nonneg 2 srcBits ltac:(lia) ltac:(lia)). lia. }
  set (k := Exec.signed dstBits i mod r) in *.
  pose proof (Hmem word) as Hword.
  assert (Hoff : (off <? dstBits) = true) by (apply Z.ltb_lt; lia).
  change (U (APInt_of 32 0 false)) with 0.
  rewrite !(U_APInt_of dstBits r), !(U_APInt_of dstBits srcBits), !Hmask by lia.
  rewrite !(signed_small dstBits r) by lia.
  assert (Er : (r =? 0) = false) by (apply Z.eqb_neq; lia).
  rewrite !Er.
  repeat (progress (ev; fold k; rewrite ?(wrap_small dstBits k) by lia;
                    fold off; rewrite ?(wrap_small dstBits off) by lia;
                    rewrite ?Hoff)).
  eexists. split; [reflexivity|]. ev.
  fold r k off word.
  rewrite (load_isolates dstBits srcBits off (mem word)) by lia.
  split; reflexivity.
Qed.

(** The direct load: the widths agree. *)
Lemma direct_load :
  forall tc shape bits count sc ma al,
    0 < bits ->
    let type := IntegerType bits Signless in
    let bufferType := SpvPointerType (SpvStructType (SpvArrayType type count)) sc in
    convertType tc (MemRefType shape type) = Some bufferType ->
    exists st loaded,
      IntLoadOpPattern tc (mkLoadOp (MemRefType shape type) ma al)
                       (mkValue 0 bufferType) [mkValue 1 type] (startState 2)
      = Done (success, st) /\
      root st = ReplacedWith [loaded] /\
      forall mem j,
        exists m,
          Exec.run (created st)
            (Exec.mkMachine (Exec.args [Exec.RtBuffer; Exec.RtInt j]) mem) = Some m /\
          Exec.env m loaded = Some (Exec.RtInt (mem (Exec.signed bits j))) /\
          (forall k, Exec.memory m k = mem k).
Proof.
  intros tc shape bits count sc ma al Hbits type bufferType Hbuf.
  unfold bufferType, type in *.
  assert (E0 : (0 =? 0) = true) by reflexivity.
  assert (Hmod : bits mod bits = 0) by (apply Z.mod_same; lia).
  unfold IntLoadOpPattern, convertedElementType, bind, cast, castMemRefType.
  ev. rewrite Hbuf. ev. rewrite Hmod, E0, Z.eqb_refl. ev.
  eexists. eexists. split; [reflexivity|]. ev. split; [reflexivity|].
  intros mem j. ev.
  change (U (APInt_of 32 0 false)) with 0. ev.
  eexists. split; [reflexivity|]. split; reflexivity.
Qed.

(** The load pattern, run: the value loaded is the element at the
    index. *)
Lemma loaded_element :
  forall tc shape srcBits dstBits count sc ma al,
    0 < srcBits -> 0 < dstBits <= 64 -> dstBits mod srcBits = 0 ->
    (srcBits <> dstBits -> srcBits < 31 /\ 3 <= dstBits) ->
    let srcType := IntegerType srcBits Signless in
    let dstType := IntegerType dstBits Signless in
    let bufferType := SpvPointerType (SpvStructType (SpvArrayType dstType count)) sc in
    convertType tc (MemRefType shape srcType) = Some bufferType ->
    convertType tc (SpvPointerType dstType sc) = Some (SpvPointerType dstType sc) ->
    exists st loaded,
      IntLoadOpPattern tc (mkLoadOp (MemRefType shape srcType) ma al)
                       (mkValue 0 bufferType) [mkValue 1 dstType] (startState 2)
      = Done (success, st) /\
      root st = ReplacedWith [loaded] /\
      forall mem j,
        (forall k, 0 <= mem k < 2 ^ dstBits) ->
        0 <= j < 2 ^ (dstBits - 1) ->
        exists m,
          Exec.run (created st)
            (Exec.mkMachine (Exec.args [Exec.RtBuffer; Exec.RtInt j]) mem) = Some m /\
          Exec.env m loaded = Some (Exec.RtInt (Exec.element srcBits dstBits mem j)) /\
          (forall k, Exec.memory m k = mem k).
Proof.
  intros tc shape srcBits dstBits count sc ma al Hsrc Hdst Hmod Hemu
         srcType dstType bufferType Hbuf Hptr.
  destruct (Z.eq_dec srcBits dstBits) as [E | Hne].
  - unfold srcType, dstType, bufferType in *. subst srcBits.
    destruct (direct_load tc shape dstBits count sc ma al ltac:(lia) Hbuf)
      as (st & loaded & Hrw & Hroot & Hrun).
    exists st, loaded. split; [exact Hrw|]. split; [exact Hroot|].
    intros mem j Hmem Hj. destruct (Hrun mem j) as (m & H1 & H2 & H3).
    exists m. split; [exact H1|]. split; [|exact H3].
    rewrite H2, signed_small by lia. unfold Exec.element.
    rewrite Z.div_same, Z.div_1_r, Z.mod_1_r by lia.
    rewrite Z.mul_0_l, Z.shiftr_0_r, Z.mod_small by apply Hmem. reflexivity.
  - destruct (Hemu Hne) as [Hs31 Hd3].
    destruct (emulated_load tc shape srcBits dstBits count sc ma al
                ltac:(lia) ltac:(lia) Hmod Hne Hbuf Hptr)
      as (st & loaded & Hrw & Hroot & Hrun).
    exists st, loaded. split; [exact Hrw|]. split; [exact Hroot|].
    intros mem j Hmem Hj. destruct (Hrun mem j Hmem) as (m & H1 & H2 & H3).
    exists m. split; [exact H1|]. split; [|exact H3].
    destruct (wordOf_nonneg srcBits dstBits j Hsrc Hd3 Hmod Hj) as [Ew Eo].
    rewrite H2, Ew, Eo. reflexivity.
Qed.

(* ================================================================== *)
(** * Two stores at once *)
(* ================================================================== *)

Section TwoLanes.

Variables (W s : Z) (sc : StorageClass).
Hypothesis HW : 0 <= W.
Hypothesis Hs : 0 < s.

(** One instruction of an invocation: it takes the invocation to its
    next phase and changes the bits of its own range only. *)
Lemma lane_step (w off v : Z) (ph : Phase) (e : Exec.Env) inst insts mem :
  0 <= off -> off + s <= W ->
  laneOk W s sc w off v ph (e, inst :: insts) ->
  (forall k n, W <= n -> Z.testbit (mem k) n = false) ->
  exists m ph',
    Exec.step (Exec.mkMachine e mem) inst = Some m /\
    follows ph ph' /\
    laneOk W s sc w off v ph' (Exec.env m, insts) /\
    forall k n, 0 <= n ->
      Z.testbit (Exec.memory m k) n =
      if inRange s w off k n then
        match ph' with
        | Before => Z.testbit (mem k) n
        | Cleared => false
        | Stored => Z.testbit (mem k) n || Z.testbit v (n - off)
        end
      else Z.testbit (mem k) n.
Proof.
  intros Hoff Hfit Hok Hhigh. destruct ph; simpl in Hok.
  - destruct Hok as (rest & e' & Hprog & Hpure & Hrun & H16 & H11 & H13).
    destruct rest as [|x rest].
    + (* the atomic AND *)
      simpl in Hprog. injection Hprog as -> ->.
      specialize (Hrun mem). simpl in Hrun. injection Hrun as <-.
      unfold atomicOn, Exec.step. cbn [spirv.opcode spirv.operands snd].
      unfold Exec.ptrOperand, Exec.intOperand. cbn [valueId Exec.env Exec.memory].
      rewrite H16, H11.
      eexists. exists Cleared. split; [reflexivity|]. split; [exact I|]. split.
      * simpl. unfold atomicOn. split; [reflexivity|].
        unfold Exec.setEnv. simpl. split; assumption.
      * intros k n Hn. cbn [Exec.memory]. unfold Exec.setWord, inRange.
        destruct (Z.eqb_spec k w) as [->|]; [|reflexivity].
        rewrite Z.land_spec, testbit_clear_mask by lia.
        simpl.
        destruct (Z.ltb_spec n W).
        -- destruct ((off <=? n) && (n <? off + s)); simpl;
             [apply andb_false_r | apply andb_true_r].
        -- rewrite Hhigh by lia.
           destruct ((off <=? n) && (n <? off + s)); reflexivity.
    + (* an instruction before the atomics *)
      simpl in Hprog. injection Hprog as -> ->.
      simpl in Hpure. apply andb_prop in Hpure as [Hp1 Hp2].
      pose proof (Hrun mem) as Hrun0. simpl in Hrun0.
      destruct (Exec.step (Exec.mkMachine e mem) x) as [m1|] eqn:Hstep;
        [|discriminate].
      destruct (step_pure _ _ _ _ Hp1 Hstep) as [Hm1 Hind].
      exists m1, Before. split; [reflexivity|]. split; [exact I|]. split.
      * simpl. exists rest, e'. split; [reflexivity|]. split; [assumption|].
        split; [|repeat split; assumption].
        intros mem2. specialize (Hrun mem2). simpl in Hrun.
        rewrite Hind in Hrun. exact Hrun.
      * intros k n Hn. rewrite Hm1. destruct (inRange s w off k n); reflexivity.
  - (* the atomic OR *)
    destruct Hok as (Hprog & H16 & H13). simpl in Hprog, H16, H13.
    injection Hprog as -> ->.
    unfold atomicOn, Exec.step. cbn [spirv.opcode spirv.operands snd].
    unfold Exec.ptrOperand, Exec.intOperand. cbn [valueId Exec.env Exec.memory].
    rewrite H16, H13.
    eexists. exists Stored. split; [reflexivity|]. split; [exact I|].
    split; [reflexivity|].
    intros k n Hn. cbn [Exec.memory]. unfold Exec.setWord, inRange.
    destruct (Z.eqb_spec k w) as [->|]; [|reflexivity].
    rewrite Z.lor_spec, testbit_insert_value by lia.
    simpl. destruct ((off <=? n) && (n <? off + s)); simpl;
      [reflexivity | apply orb_false_r].
  - simpl in Hok. discriminate.
Qed.

Variables (wA offA vA wB offB vB : Z) (mem0 : Exec.Memory).
Hypothesis HoffA : 0 <= offA /\ offA + s <= W.
Hypothesis HoffB : 0 <= offB /\ offB + s <= W.
Hypothesis Hmem0 : forall k, 0 <= mem0 k < 2 ^ W.
Hypothesis Hapart :
  forall k n, inRange s wA offA k n && inRange s wB offB k n = false.

Lemma memOk_high phA phB mem :
  memOk s wA offA vA wB offB vB mem0 phA phB mem ->
  forall k n, W <= n -> Z.testbit (mem k) n = false.
Proof.
  intros Hok k n Hn. rewrite Hok by lia. unfold bitOf, inRange.
  destruct (Z.ltb_spec n (offA + s)); [lia|].
  destruct (Z.ltb_spec n (offB + s)); [lia|].
  rewrite !andb_false_r. apply (testbit_word_high W); [lia | apply Hmem0 | lia].
Qed.

Lemma interleave_invariant (schedule : list bool) :
  forall a b mem phA phB,
    laneOk W s sc wA offA vA phA a -> laneOk W s sc wB offB vB phB b ->
    memOk s wA offA vA wB offB vB mem0 phA phB mem ->
    exists a' b' mem' phA' phB',
      interleave schedule a b mem = Some (a', b', mem') /\
      laneOk W s sc wA offA vA phA' a' /\ laneOk W s sc wB offB vB phB' b' /\
      memOk s wA offA vA wB offB vB mem0 phA' phB' mem'.
Proof.
  induction schedule as [|turn rest IH]; intros a b mem phA phB HA HB Hok.
  - exists a, b, mem, phA, phB. repeat split; assumption.
  - pose proof (memOk_high _ _ _ Hok) as Hhigh.
    destruct turn; simpl.
    + destruct a as [e [|inst insts]]; simpl; [now apply (IH _ _ _ phA phB)|].
      destruct (lane_step wA offA vA phA e inst insts mem
                  (proj1 HoffA) (proj2 HoffA) HA Hhigh)
        as (m & ph' & Hstep & Hfol & HA' & Hbits).
      rewrite Hstep. apply (IH _ _ _ ph' phB); [exact HA' | exact HB |].
      intros k n Hn. rewrite Hbits by lia. pose proof (Hok k n Hn) as E.
      unfold bitOf in *.
      destruct (inRange s wA offA k n); [|exact E].
      destruct phA, ph'; simpl in Hfol; try contradiction;
        rewrite ?E; reflexivity.
    + destruct b as [e [|inst insts]]; simpl; [now apply (IH _ _ _ phA phB)|].
      destruct (lane_step wB offB vB phB e inst insts mem
                  (proj1 HoffB) (proj2 HoffB) HB Hhigh)
        as (m & ph' & Hstep & Hfol & HB' & Hbits).
      rewrite Hstep. apply (IH _ _ _ phA ph'); [exact HA | exact HB' |].
      intros k n Hn. rewrite Hbits by lia. pose proof (Hok k n Hn) as E.
      unfold bitOf in *.
      specialize (Hapart k n).
      destruct (inRange s wB offB k n); [|exact E].
      rewrite andb_true_r in Hapart. rewrite Hapart in *.
      destruct phB, ph'; simpl in Hfol; try contradiction;
        rewrite ?E; reflexivity.
Qed.

End TwoLanes.

(** Each turn of an invocation that has not finished executes one of its
    instructions. *)
Lemma interleave_progress (schedule : list bool) :
  forall a b mem a' b' mem',
    interleave schedule a b mem = Some (a', b', mem') ->
    List.length (snd a') =
      (List.length (snd a) - count_occ bool_dec schedule true)%nat /\
    List.length (snd b') =
      (List.length (snd b) - count_occ bool_dec schedule false)%nat.
Proof.
  induction schedule as [|turn rest IH]; intros a b mem a' b' mem' H.
  - injection H as <- <- <-. simpl. lia.
  - simpl in H. destruct turn.
    + destruct a as [e [|inst insts]]; simpl in H.
      * apply IH in H. simpl in *. lia.
      * destruct (Exec.step (Exec.mkMachine e mem) inst); [|discriminate].
        apply IH in H. simpl in *. lia.
    + destruct b as [e [|inst insts]]; simpl in H.
      * apply IH in H. simpl in *. lia.
      * destruct (Exec.step (Exec.mkMachine e mem) inst); [|discriminate].
        apply IH in H. simpl in *. lia.
Qed.

(** An invocation that is given the next turns runs on its own. *)
Lemma interleave_first (l1 : list (nat * spirv.Operation)) :
  forall l2 e mem m b rest,
    Exec.run l1 (Exec.mkMachine e mem) = Some m ->
    interleave (repeat true (List.length l1) ++ rest) (e, l1 ++ l2) b mem =
    interleave rest (Exec.env m, l2) b (Exec.memory m).
Proof.
  induction l1 as [|inst l1 IH]; intros l2 e mem m b rest Hrun.
  - injection Hrun as <-. reflexivity.
  - simpl in *. destruct (Exec.step (Exec.mkMachine e mem) inst) as [[e1 mem1]|];
      [|discriminate].
    simpl. now apply IH.
Qed.

Lemma interleave_second (l1 : list (nat * spirv.Operation)) :
  forall l2 e mem m a rest,
    Exec.run l1 (Exec.mkMachine e mem) = Some m ->
    interleave (repeat false (List.length l1) ++ rest) a (e, l1 ++ l2) mem =
    interleave rest a (Exec.env m, l2) (Exec.memory m).
Proof.
  induction l1 as [|inst l1 IH]; intros l2 e mem m a rest Hrun.
  - injection Hrun as <-. reflexivity.
  - simpl in *. destruct (Exec.step (Exec.mkMachine e mem) inst) as [[e1 mem1]|];
      [|discriminate].
    simpl. now apply IH.
Qed.

Lemma inRange_same (s w off n : Z) :
  0 <= n < s -> inRange s w off w (n + off) = true.
Proof.
  intros Hn. unfold inRange. rewrite Z.eqb_refl.
  destruct (Z.leb_spec off (n + off)), (Z.ltb_spec (n + off) (off + s));
    try lia; reflexivity.
Qed.

Lemma inRange_apart (s w off w' off' n : Z) :
  0 <= n < s ->
  w <> w' \/ off' + s <= off \/ off + s <= off' ->
  inRange s w off w' (n + off') = false.
Proof.
  intros Hn Hd. unfold inRange.
  destruct (Z.eqb_spec w' w) as [->|]; [|reflexivity].
  destruct (Z.leb_spec off (n + off')), (Z.ltb_spec (n + off') (off + s));
    try reflexivity.
  destruct Hd as [Hd | Hd]; [congruence | lia].
Qed.

Lemma inRange_disjoint (s wA offA wB offB : Z) :
  0 < s ->
  wA <> wB \/ offB + s <= offA \/ offA + s <= offB ->
  forall k n, inRange s wA offA k n && inRange s wB offB k n = false.
Proof.
  intros Hs Hd k n. unfold inRange.
  destruct (Z.eqb_spec k wA) as [->|]; [|reflexivity].
  destruct (Z.eqb_spec wA wB) as [E|]; [|apply andb_false_r].
  destruct (Z.leb_spec offA n), (Z.ltb_spec n (offA + s)),
           (Z.leb_spec offB n), (Z.ltb_spec n (offB + s)); try reflexivity.
  destruct Hd as [Hd | Hd]; [congruence | lia].
Qed.

(* ================================================================== *)
(** * Properties of the stores and loads *)
(* ================================================================== *)

(** X1.  The store pattern on a signless integer element, run on a value
    and an index that is not negative: it succeeds, and after the
    instructions it created the element at the index holds the low
    [srcBits] bits of the value, every other element of the buffer, in
    the same word or elsewhere, holds what it held, and every word still
    fits the target width.  This holds on the direct path (equal widths)
    and on the emulated path (a source below 31 bits in a target of 3 to
    64 bits that is a multiple of it), whatever the buffer held before. *)
Theorem narrow_store_writes_one_element :
  forall (tc : SPIRVTypeConverter) (shape : list Z) (srcBits dstBits count : Z)
         (sc : StorageClass) (mem : Exec.Memory) (v i : Z),
    0 < srcBits -> 0 < dstBits <= 64 -> dstBits mod srcBits = 0 ->
    (srcBits <> dstBits -> srcBits < 31 /\ 3 <= dstBits) ->
    let srcType := IntegerType srcBits Signless in
    let dstType := IntegerType dstBits Signless in
    let bufferType := SpvPointerType (SpvStructType (SpvArrayType dstType count)) sc in
    convertType tc (MemRefType shape srcType) = Some bufferType ->
    convertType tc (SpvPointerType dstType sc) = Some (SpvPointerType dstType sc) ->
    (forall k, 0 <= mem k < 2 ^ dstBits) ->
    0 <= v < 2 ^ dstBits ->
    0 <= i < 2 ^ (dstBits - 1) ->
    exists st m,
      IntStoreOpPattern tc (mkStoreOp (MemRefType shape srcType))
                        (mkValue 1 dstType) (mkValue 0 bufferType)
                        [mkValue 2 dstType] (startState 3)
      = Done (success, st) /\
      Exec.run (created st)
        (Exec.mkMachine (Exec.args [Exec.RtBuffer; Exec.RtInt v; Exec.RtInt i]) mem)
      = Some m /\
      Exec.element srcBits dstBits (Exec.memory m) i = v mod 2 ^ srcBits /\
      (forall j, j <> i ->
         Exec.element srcBits dstBits (Exec.memory m) j =
         Exec.element srcBits dstBits mem j) /\
      (forall k, 0 <= Exec.memory m k < 2 ^ dstBits).
Proof. exact store_elements. Qed.

(** X2.  A store followed by a load: the load pattern, run on the buffer
    that the store pattern's instructions left, yields the low [srcBits]
    bits of the stored value at the index of the store and the old
    element at every other index; the value it yields is below
    [2 ^ srcBits], so a narrow element is never sign-extended into the
    wider word. *)
Theorem narrow_load_after_store :
  forall (tc : SPIRVTypeConverter) (shape : list Z) (srcBits dstBits count : Z)
         (sc : StorageClass) (ma al : option Attribute) (mem : Exec.Memory)
         (v i j : Z),
    0 < srcBits -> 0 < dstBits <= 64 -> dstBits mod srcBits = 0 ->
    (srcBits <> dstBits -> srcBits < 31 /\ 3 <= dstBits) ->
    let srcType := IntegerType srcBits Signless in
    let dstType := IntegerType dstBits Signless in
    let bufferType := SpvPointerType (SpvStructType (SpvArrayType dstType count)) sc in
    convertType tc (MemRefType shape srcType) = Some bufferType ->
    convertType tc (SpvPointerType dstType sc) = Some (SpvPointerType dstType sc) ->
    (forall k, 0 <= mem k < 2 ^ dstBits) ->
    0 <= v < 2 ^ dstBits ->
    0 <= i < 2 ^ (dstBits - 1) ->
    0 <= j < 2 ^ (dstBits - 1) ->
    exists stStore stLoad loaded afterStore afterLoad x,
      IntStoreOpPattern tc (mkStoreOp (MemRefType shape srcType))
                        (mkValue 1 dstType) (mkValue 0 bufferType)
                        [mkValue 2 dstType] (startState 3)
      = Done (success, stStore) /\
      IntLoadOpPattern tc (mkLoadOp (MemRefType shape srcType) ma al)
                       (mkValue 0 bufferType) [mkValue 1 dstType] (startState 2)
      = Done (success, stLoad) /\
      root stLoad = ReplacedWith [loaded] /\
      Exec.run (created stStore)
        (Exec.mkMachine (Exec.args [Exec.RtBuffer; Exec.RtInt v; Exec.RtInt i]) mem)
      = Some afterStore /\
      Exec.run (created stLoad)
        (Exec.mkMachine (Exec.args [Exec.RtBuffer; Exec.RtInt j])
                        (Exec.memory afterStore))
      = Some afterLoad /\
      Exec.env afterLoad loaded = Some (Exec.RtInt x) /\
      x = (if j =? i then v mod 2 ^ srcBits
           else Exec.element srcBits dstBits mem j) /\
      0 <= x < 2 ^ srcBits.
Proof.
  intros tc shape srcBits dstBits count sc ma al mem v i j Hsrc Hdst Hmod Hemu
         srcType dstType bufferType Hbuf Hptr Hmem Hv Hi Hj.
  destruct (store_elements tc shape srcBits dstBits count sc mem v i
              Hsrc Hdst Hmod Hemu Hbuf Hptr Hmem Hv Hi)
    as (stS & m1 & HrwS & HrunS & Hsame & Hother & Hrange).
  destruct (loaded_element tc shape srcBits dstBits count sc ma al
              Hsrc Hdst Hmod Hemu Hbuf Hptr)
    as (stL & loaded & HrwL & Hroot & HrunL).
  destruct (HrunL (Exec.memory m1) j Hrange Hj) as (m2 & H1 & H2 & _).
  exists stS, stL, loaded, m1, m2. eexists.
  do 5 (split; [eassumption|]).
  split; [exact H2|].
  split.
  - destruct (Z.eqb_spec j i) as [->|Hne]; [exact Hsame | apply Hother, Hne].
  - unfold Exec.element. apply Z.mod_pos_bound.
    apply Z.pow_pos_nonneg; lia.
Qed.

(** X3.  Two invocations run the instructions of one emulated store, each
    on its own value and its own index, the two indices different and not
    negative, on a shared buffer.  Under every schedule, instruction by
    instruction, no instruction is undefined and each invocation has
    executed as many instructions as it had turns.  Once both have
    finished, each of the two elements holds the low bits of its value
    and every other element holds what it held before, also when the two
    elements share a word: the atomic AND and OR of one invocation never
    change a bit outside its element. *)
Theorem concurrent_narrow_stores_do_not_interfere :
  forall (tc : SPIRVTypeConverter) (shape : list Z) (srcBits dstBits count : Z)
         (sc : StorageClass) (mem : Exec.Memory) (vA iA vB iB : Z)
         (schedule : list bool),
    0 < srcBits < 31 -> 3 <= dstBits <= 64 -> dstBits mod srcBits = 0 ->
    srcBits <> dstBits ->
    let srcType := IntegerType srcBits Signless in
    let dstType := IntegerType dstBits Signless in
    let bufferType := SpvPointerType (SpvStructType (SpvArrayType dstType count)) sc in
    convertType tc (MemRefType shape srcType) = Some bufferType ->
    convertType tc (SpvPointerType dstType sc) = Some (SpvPointerType dstType sc) ->
    (forall k, 0 <= mem k < 2 ^ dstBits) ->
    0 <= iA < 2 ^ (dstBits - 1) ->
    0 <= iB < 2 ^ (dstBits - 1) ->
    iA <> iB ->
    exists st a b mem',
      IntStoreOpPattern tc (mkStoreOp (MemRefType shape srcType))
                        (mkValue 1 dstType) (mkValue 0 bufferType)
                        [mkValue 2 dstType] (startState 3)
      = Done (success, st) /\
      interleave schedule
        (Exec.args [Exec.RtBuffer; Exec.RtInt vA; Exec.RtInt iA], created st)
        (Exec.args [Exec.RtBuffer; Exec.RtInt vB; Exec.RtInt iB], created st)
        mem
      = Some (a, b, mem') /\
      List.length (snd a) =
        (List.length (created st) - count_occ bool_dec schedule true)%nat /\
      List.length (snd b) =
        (List.length (created st) - count_occ bool_dec schedule false)%nat /\
      (snd a = [] -> snd b = [] ->
       Exec.element srcBits dstBits mem' iA = vA mod 2 ^ srcBits /\
       Exec.element srcBits dstBits mem' iB = vB mod 2 ^ srcBits /\
       forall j, j <> iA -> j <> iB ->
         Exec.element srcBits dstBits mem' j = Exec.element srcBits dstBits mem j).
Proof.
  intros tc shape srcBits dstBits count sc mem vA iA vB iB schedule
         Hsrc Hdst Hmod Hne srcType dstType bufferType Hbuf Hptr Hmem HiA HiB Hdiff.
  destruct (store_program tc shape srcBits dstBits count sc Hsrc Hdst Hmod Hne
              Hbuf Hptr) as (prefix & Hrw & Hpure & Hrun).
  set (r := dstBits / srcBits).
  pose proof (ratio_range srcBits dstBits ltac:(lia) ltac:(lia) Hmod) as Hr.
  fold r in Hr.
  destruct (wordOf_nonneg srcBits dstBits iA ltac:(lia) ltac:(lia) Hmod HiA)
    as [EwA EoA].
  destruct (wordOf_nonneg srcBits dstBits iB ltac:(lia) ltac:(lia) Hmod HiB)
    as [EwB EoB].
  fold r in EwA, EoA, EwB, EoB.
  pose proof (offset_range srcBits dstBits iA ltac:(lia) ltac:(lia) Hmod)
    as (_ & HA0 & HA1 & _).
  pose proof (offset_range srcBits dstBits iB ltac:(lia) ltac:(lia) Hmod)
    as (_ & HB0 & HB1 & _).
  fold r in HA0, HA1, HB0, HB1.
  assert (Hlane : forall v i,
             laneOk dstBits srcBits sc (wordOf srcBits dstBits i)
                    (offsetOf srcBits dstBits i) v Before
                    (Exec.args [Exec.RtBuffer; Exec.RtInt v; Exec.RtInt i],
                     prefix ++ [atomicOn spirv.AtomicAndOp dstType sc 17 16 11;
                                atomicOn spirv.AtomicOrOp dstType sc 18 16 13])).
  { intros v i. destruct (Hrun v i mem) as (e & He & H16 & H11 & H13).
    exists prefix, e. split; [reflexivity|]. split; [exact Hpure|].
    split; [|repeat split; assumption].
    intros mem2. destruct (run_pure _ _ _ _ Hpure He) as [_ Hind].
    apply Hind. }
  pose proof (elements_apart srcBits r iA iB ltac:(lia) ltac:(lia) Hdiff) as Hapart.
  destruct (interleave_invariant dstBits srcBits sc ltac:(lia) ltac:(lia)
              (iA / r) (iA mod r * srcBits) vA (iB / r) (iB mod r * srcBits) vB mem
              ltac:(lia) ltac:(lia) Hmem
              (inRange_disjoint srcBits _ _ _ _ ltac:(lia) Hapart)
              schedule _ _ mem Before Before
              ltac:(rewrite <- EwA, <- EoA; apply Hlane)
              ltac:(rewrite <- EwB, <- EoB; apply Hlane)
              ltac:(intros k n _; unfold bitOf;
                    repeat match goal with
                           | |- context [if ?c then _ else _] => destruct c
                           end; reflexivity))
    as (a & b & mem' & phA & phB & Hrunl & HA & HB & Hok).
  eexists. exists a, b, mem'. split; [exact Hrw|]. split; [exact Hrunl|].
  destruct (interleave_progress _ _ _ _ _ _ _ Hrunl) as [HpA HpB].
  split; [exact HpA|]. split; [exact HpB|].
  intros Ha Hb.
  assert (phA = Stored) as ->.
  { destruct phA; [| |reflexivity]; simpl in HA.
    - destruct HA as (rest & e & Hp & _). rewrite Ha in Hp.
      destruct rest; discriminate.
    - destruct HA as (Hp & _). rewrite Ha in Hp. discriminate. }
  assert (phB = Stored) as ->.
  { destruct phB; [| |reflexivity]; simpl in HB.
    - destruct HB as (rest & e & Hp & _). rewrite Hb in Hp.
      destruct rest; discriminate.
    - destruct HB as (Hp & _). rewrite Hb in Hp. discriminate. }
  split; [|split].
  - rewrite element_slice. fold r. apply slice_of_bits; [lia | lia |].
    intros n Hn. rewrite Hok by lia. unfold bitOf.
    rewrite inRange_same by lia. f_equal. lia.
  - rewrite element_slice. fold r. apply slice_of_bits; [lia | lia |].
    intros n Hn. rewrite Hok by lia. unfold bitOf.
    rewrite (inRange_apart srcBits (iA / r)) by (try lia; tauto).
    rewrite inRange_same by lia. f_equal. lia.
  - intros j HjA HjB. rewrite !element_slice. fold r.
    pose proof (offset_range srcBits dstBits j ltac:(lia) ltac:(lia) Hmod)
      as (_ & Hj0 & Hj1 & _).
    fold r in Hj0, Hj1.
    pose proof (elements_apart srcBits r iA j ltac:(lia) ltac:(lia) ltac:(congruence)).
    pose proof (elements_apart srcBits r iB j ltac:(lia) ltac:(lia) ltac:(congruence)).
    unfold slice at 2.
    apply slice_of_bits; [lia | lia |].
    intros n Hn. rewrite Hok by lia. unfold bitOf.
    rewrite (inRange_apart srcBits (iA / r)) by (try lia; tauto).
    rewrite (inRange_apart srcBits (iB / r)) by (try lia; tauto).
    rewrite Z.shiftr_spec by lia. reflexivity.
Qed.

(** X4.  Two invocations that store to the same element are not kept
    apart: under the schedule in which both execute their atomic AND
    before either executes its atomic OR, both finish and the element
    holds the bitwise OR of the low bits of the two values, which need be
    neither of them.  The clearing and the setting are two atomic steps,
    not one. *)
Theorem concurrent_narrow_stores_to_one_element_can_mix :
  forall (tc : SPIRVTypeConverter) (shape : list Z) (srcBits dstBits count : Z)
         (sc : StorageClass) (mem : Exec.Memory) (vA vB i : Z),
    0 < srcBits < 31 -> 3 <= dstBits <= 64 -> dstBits mod srcBits = 0 ->
    srcBits <> dstBits ->
    let srcType := IntegerType srcBits Signless in
    let dstType := IntegerType dstBits Signless in
    let bufferType := SpvPointerType (SpvStructType (SpvArrayType dstType count)) sc in
    convertType tc (MemRefType shape srcType) = Some bufferType ->
    convertType tc (SpvPointerType dstType sc) = Some (SpvPointerType dstType sc) ->
    0 <= i < 2 ^ (dstBits - 1) ->
    exists st e e' mem',
      IntStoreOpPattern tc (mkStoreOp (MemRefType shape srcType))
                        (mkValue 1 dstType) (mkValue 0 bufferType)
                        [mkValue 2 dstType] (startState 3)
      = Done (success, st) /\
      let n := (List.length (created st) - 1)%nat in
      interleave (repeat true n ++ repeat false n ++ [true; false])
        (Exec.args [Exec.RtBuffer; Exec.RtInt vA; Exec.RtInt i], created st)
        (Exec.args [Exec.RtBuffer; Exec.RtInt vB; Exec.RtInt i], created st)
        mem
      = Some ((e, []), (e', []), mem') /\
      Exec.element srcBits dstBits mem' i =
        Z.lor (vA mod 2 ^ srcBits) (vB mod 2 ^ srcBits).
Proof.
  intros tc shape srcBits dstBits count sc mem vA vB i
         Hsrc Hdst Hmod Hne srcType dstType bufferType Hbuf Hptr Hi.
  destruct (store_program tc shape srcBits dstBits count sc Hsrc Hdst Hmod Hne
              Hbuf Hptr) as (prefix & Hrw & Hpure & Hrun).
  set (andI := atomicOn spirv.AtomicAndOp dstType sc 17 16 11) in *.
  set (orI := atomicOn spirv.AtomicOrOp dstType sc 18 16 13) in *.
  set (w := wordOf srcBits dstBits i).
  set (off := offsetOf srcBits dstBits i).
  (* an invocation up to and including its atomic AND *)
  assert (Hhead : forall v mem1,
            exists e1,
              Exec.run (prefix ++ [andI])
                (Exec.mkMachine (Exec.args [Exec.RtBuffer; Exec.RtInt v; Exec.RtInt i]) mem1)
              = Some (Exec.mkMachine e1
                        (Exec.setWord mem1 w (clearedWord dstBits srcBits off (mem1 w)))) /\
              e1 16%nat = Some (Exec.RtWord w) /\
              e1 13%nat = Some (Exec.RtInt (insertValue dstBits srcBits off v))).
  { intros v mem1. destruct (Hrun v i mem1) as (e0 & He & H16 & H11 & H13).
    rewrite (run_app _ _ _ _ He). unfold andI, atomicOn. ev.
    unfold Exec.ptrOperand, Exec.intOperand. ev. rewrite H16, H11. ev.
    eexists. split; [reflexivity|]. ev. split; assumption. }
  assert (Hlen : List.length (prefix ++ [andI]) =
                 (List.length ((prefix ++ [andI]) ++ [orI]) - 1)%nat).
  { rewrite (length_app (prefix ++ [andI])). simpl. lia. }
  assert (Hsplit : prefix ++ [andI; orI] = (prefix ++ [andI]) ++ [orI]).
  { rewrite <- app_assoc. reflexivity. }
  destruct (Hhead vA mem) as (eA & HrunA & HA16 & HA13).
  destruct (Hhead vB (Exec.memory
                        (Exec.mkMachine eA
                           (Exec.setWord mem w
                              (clearedWord dstBits srcBits off (mem w))))))
    as (eB & HrunB & HB16 & HB13).
  eexists. eexists. eexists. eexists. split; [exact Hrw|].
  cbn [created]. cbv zeta.
  unfold andI, orI, dstType in Hsplit, Hlen, HrunA, HrunB.
  rewrite Hsplit, <- Hlen.
  rewrite (interleave_first _ _ _ _ _ _ _ HrunA).
  rewrite (interleave_second _ _ _ _ _ _ _ HrunB).
  unfold atomicOn. cbn [interleave snd fst Exec.env Exec.memory].
  unfold Exec.step. cbn [spirv.opcode spirv.operands].
  unfold Exec.ptrOperand, Exec.intOperand. cbn [valueId Exec.env Exec.memory].
  rewrite HA16, HA13.
  unfold Exec.setEnv at 1 2. cbn [Nat.eqb]. rewrite HB16, HB13.
  cbn [Exec.env Exec.memory].
  split; [reflexivity|].
  unfold w, off.
  destruct (wordOf_nonneg srcBits dstBits i ltac:(lia) ltac:(lia) Hmod Hi) as [Ew Eo].
  rewrite element_slice.
  pose proof (offset_range srcBits dstBits i ltac:(lia) ltac:(lia) Hmod)
    as (_ & Ho0 & Ho1 & _).
  rewrite Ew, Eo in *.
  unfold Exec.setWord. rewrite !Z.eqb_refl.
  repeat match goal with
         | |- context [Z.lor ?a (insertValue ?W ?s ?o ?v)] =>
             change (Z.lor a (insertValue W s o v)) with (insertedWord W s o v a)
         | |- context [Z.land ?a (clearMask ?W ?s ?o)] =>
             change (Z.land a (clearMask W s o)) with (clearedWord W s o a)
         end.
  rewrite !slice_inserted_same by lia.
  rewrite slice_cleared_same by lia.
  rewrite Z.lor_0_l. reflexivity.
Qed.

(** X5.  [getOffsetForBitwidth] on widths that divide creates two
    constants, a signed modulo and a multiplication, none of which
    touches the buffer.  Run on any index, a negative one included, they
    yield [(index mod (targetBits / sourceBits)) * sourceBits] with the
    mathematical, never negative, modulo of the signed index: a multiple
    of [sourceBits] from 0 to [targetBits - sourceBits], so shifting by
    it keeps the element inside the word. *)
Theorem offset_stays_inside_the_word :
  forall (srcBits dstBits i : Z) (e : Exec.Env) (mem : Exec.Memory)
         (idx n : nat),
    0 < srcBits -> 3 <= dstBits <= 64 -> dstBits mod srcBits = 0 ->
    e idx = Some (Exec.RtInt i) -> (idx < n)%nat ->
    let srcIdx := mkValue idx (IntegerType dstBits Signless) in
    exists offset st m off,
      getOffsetForBitwidth srcIdx srcBits dstBits (startState n) = Done (offset, st) /\
      map (fun inst => spirv.opcode (snd inst)) (created st) =
        [spirv.ConstantOp; spirv.ConstantOp; spirv.SModOp; spirv.IMulOp] /\
      Exec.run (created st) (Exec.mkMachine e mem) = Some m /\
      Exec.memory m = mem /\
      Exec.env m (valueId offset) = Some (Exec.RtInt off) /\
      off = (Exec.signed dstBits i mod (dstBits / srcBits)) * srcBits /\
      0 <= off <= dstBits - srcBits /\
      off mod srcBits = 0.
Proof.
  intros srcBits dstBits i e mem idx n Hsrc Hdst Hmod He Hlt srcIdx.
  assert (E0 : (0 =? 0) = true) by reflexivity.
  unfold getOffsetForBitwidth, bind, assert_. rewrite Hmod, E0. ev.
  set (r := dstBits / srcBits).
  assert (Hr : 1 <= r < 2 ^ (dstBits - 1))
    by (apply ratio_range; [lia | lia | exact Hmod]).
  assert (Hhalf : 2 ^ (dstBits - 1) < 2 ^ dstBits) by (apply pow2_half; lia).
  pose proof (offset_range srcBits dstBits (Exec.signed dstBits i)
                ltac:(lia) ltac:(lia) Hmod) as (Hk & Hoff0 & Hoff1 & Hoff2).
  fold r in Hk, Hoff0, Hoff1, Hoff2.
  assert (Hpow : srcBits < 2 ^ dstBits).
  { pose proof (ratio_exact srcBits dstBits ltac:(lia) Hmod) as Hx.
    pose proof (width_lt_pow2 dstBits ltac:(lia)). fold r in Hx. nia. }
  eexists. eexists. eexists. eexists.
  split; [reflexivity|]. ev. split; [reflexivity|].
  assert (Er : (r =? 0) = false) by (apply Z.eqb_neq; lia).
  unfold Exec.binary, Exec.intOperand, Exec.bindResult, Exec.setEnv.
  repeat (progress (ev;
    repeat match goal with
           | |- context [Nat.eqb ?a ?b] =>
               first [ rewrite (proj2 (Nat.eqb_neq a b)) by lia
                     | rewrite (proj2 (Nat.eqb_eq a b)) by lia ]
           end;
    rewrite ?He, ?(U_APInt_of dstBits r), ?(U_APInt_of dstBits srcBits),
            ?(signed_small dstBits r), ?Er by lia)).
  split; [reflexivity|]. split; [reflexivity|].
  ev.
  repeat match goal with
         | |- context [Nat.eqb ?a ?b] =>
             first [ rewrite (proj2 (Nat.eqb_neq a b)) by lia
                   | rewrite (proj2 (Nat.eqb_eq a b)) by lia ]
         end.
  split; [reflexivity|].
  rewrite (wrap_small dstBits (Exec.signed dstBits i mod r)) by lia.
  rewrite wrap_small by lia.
  split; [reflexivity|]. split; [lia|]. apply Z.mod_mul. lia.
Qed.

(** The divisor [targetBits / sourceBits] of a source wider than the
    target is the constant zero. *)
Lemma zero_divisor (dstBits : Z) :
  0 < dstBits ->
  U (APInt_of dstBits 0 false) = 0 /\ Exec.signed dstBits 0 = 0.
Proof.
  intros H. split.
  - unfold APInt_of. cbv zeta. rewrite (Zmod_0_l (2 ^ 64)).
    destruct (dstBits <=? 64); cbn [U]; [apply Zmod_0_l | reflexivity].
  - unfold Exec.signed.
    assert (0 < 2 ^ (dstBits - 1)) by (apply Z.pow_pos_nonneg; lia).
    destruct (Z.ltb_spec 0 (2 ^ (dstBits - 1))); lia.
Qed.


(** X7.  The load and store patterns split on the element type of the
    memref.  For a signless integer element the general patterns
    [LoadOpPattern] and [StoreOpPattern] report failure and create
    nothing.  For any other element type, signed and unsigned integers
    and floats included, the integer patterns report failure and create
    nothing, and the general patterns succeed with the constant zero, the
    access chain on the unchanged index and one [spv.Load] or
    [spv.Store] on that pointer, without any adjustment to a wider
    word. *)
Theorem load_store_patterns_split_on_signless_integers :
  forall (tc : SPIRVTypeConverter) (shape : list Z) (e : Ty)
         (ma al : option Attribute) (value memref index : Value) (n : nat),
    let loadOp := mkLoadOp (MemRefType shape e) ma al in
    let storeOp := mkStoreOp (MemRefType shape e) in
    let ptrType := elementPtrType (valueType memref) in
    let zero := (n, spirv.mkOp spirv.ConstantOp (Some i32) []
                      (spirv.ValueAttr (IntegerAttr i32 (mkAPInt 32 0)))) in
    let chain := (S n, spirv.mkOp spirv.AccessChainOp (Some ptrType)
                         [memref; mkValue n i32; index] spirv.NoAttrs) in
    if isSignlessInteger e then
      LoadOpPattern loadOp memref [index] (startState n) = failedUntouched n /\
      StoreOpPattern storeOp value memref [index] (startState n) = failedUntouched n
    else
      IntLoadOpPattern tc loadOp memref [index] (startState n) = failedUntouched n /\
      IntStoreOpPattern tc storeOp value memref [index] (startState n)
        = failedUntouched n /\
      LoadOpPattern loadOp memref [index] (startState n) =
        Done (success,
              mkState (S (S (S n)))
                [zero; chain;
                 (S (S n), spirv.mkOp spirv.LoadOp (Some (getElementType ptrType))
                             [mkValue (S n) ptrType] spirv.NoAttrs)]
                (ReplacedWith [S (S n)])) /\
      StoreOpPattern storeOp value memref [index] (startState n) =
        Done (success,
              mkState (S (S (S n)))
                [zero; chain;
                 (S (S n), spirv.mkOp spirv.StoreOp None
                             [mkValue (S n) ptrType; value] spirv.NoAttrs)]
                (ReplacedWith [])).
Proof.
  intros tc shape e ma al value memref index n loadOp storeOp ptrType zero chain.
  unfold LoadOpPattern, StoreOpPattern, IntLoadOpPattern, IntStoreOpPattern, bind, cast.
  cbn [castMemRefType loadMemrefType storeMemrefType loadOp storeOp getElementType].
  destruct (isSignlessInteger e); cbn [negb].
  - split; reflexivity.
  - split; [reflexivity|]. split; [reflexivity|].
    unfold zero, chain, ptrType, elementPtrType, getElementPtr, bind.
    cbn [create ret nextValue created root startState].
    destruct (valueType memref) as [| | | | | | | | | p sc]; try (split; reflexivity).
    destruct p as [| | | | | | | | q |]; try (split; reflexivity).
    destruct q; split; reflexivity.
Qed.

(** X13.  The integer load pattern forwards the memory-access and
    alignment attributes of the [std.load] only on the emulated path: when
    the widths differ the one [spv.Load] it creates carries them, as given
    or absent; when the widths agree the one [spv.Load] it creates carries
    no attributes at all. *)
Theorem load_attributes_survive_only_the_emulated_path :
  forall (tc : SPIRVTypeConverter) (shape : list Z) (srcBits dstBits count : Z)
         (sc : StorageClass) (ma al : option Attribute),
    0 < srcBits -> dstBits mod srcBits = 0 ->
    let srcType := IntegerType srcBits Signless in
    let dstType := IntegerType dstBits Signless in
    let bufferType := SpvPointerType (SpvStructType (SpvArrayType dstType count)) sc in
    convertType tc (MemRefType shape srcType) = Some bufferType ->
    convertType tc (SpvPointerType dstType sc) = Some (SpvPointerType dstType sc) ->
    exists st,
      IntLoadOpPattern tc (mkLoadOp (MemRefType shape srcType) ma al)
                       (mkValue 0 bufferType) [mkValue 1 dstType] (startState 2)
      = Done (success, st) /\
      map (fun inst => spirv.attrs (snd inst)) (filter isLoad (created st)) =
        [if srcBits =? dstBits then spirv.NoAttrs
         else spirv.MemoryAccessAttrs ma al].
Proof.
  intros tc shape srcBits dstBits count sc ma al Hsrc Hmod
         srcType dstType bufferType Hbuf Hptr.
  unfold bufferType, srcType, dstType in *.
  assert (E0 : (0 =? 0) = true) by reflexivity.
  unfold IntLoadOpPattern, convertedElementType, bind, cast, castMemRefType.
  ev. rewrite Hbuf. ev. rewrite Hmod, E0.
  destruct (srcBits =? dstBits).
  - ev. eexists. split; reflexivity.
  - ev. unfold adjustAccessChainForBitwidth, bind. ev. rewrite Hmod, E0. ev.
    rewrite Hptr. ev.
    unfold getOffsetForBitwidth, bind, assert_. rewrite Hmod, E0. ev.
    eexists. split; reflexivity.
Qed.

(* ================================================================== *)
(** * Properties of the arithmetic and the constant patterns *)
(* ================================================================== *)

(** X8.  Every registration of [UnaryAndBinaryOpPattern] is the only
    registered pattern that rewrites, through the generic operand list,
    an operation of its kind.  It asserts that there are at most two
    operands; it reports failure and creates nothing when the result type
    does not convert; otherwise it replaces the operation by exactly one
    instruction of the registered opcode, with the converted result type
    and the operands in their order. *)
Theorem arithmetic_patterns_are_one_to_one :
  forall (tc : SPIRVTypeConverter) (k : StdOpKind) (SPIRVOp : spirv.Opcode)
         (operation : StdOp) (operands : list Value) (n : nat),
    In (UnaryAndBinaryOp k SPIRVOp) populateStandardToSPIRVPatterns ->
    stdKind operation = k ->
    (exists rw, matchAndRewrite tc (UnaryAndBinaryOp k SPIRVOp) operation operands
                = Some rw) /\
    forall p rw,
      In p populateStandardToSPIRVPatterns ->
      matchAndRewrite tc p operation operands = Some rw ->
      p = UnaryAndBinaryOp k SPIRVOp /\
      rw (startState n) =
        if Nat.leb (List.length operands) 2 then
          match convertType tc (getType operation) with
          | Some dstType =>
              replacedByOne n SPIRVOp (Some dstType) operands spirv.NoAttrs
          | None => failedUntouched n
          end
        else AssertionFailed "operands.size() <= 2".
Proof.
  intros tc k SPIRVOp operation operands n Hreg Hk.
  split.
  - eexists. unfold matchAndRewrite, StdOpKind_eqb. rewrite Hk.
    destruct (StdOpKind_eq_dec k k); [reflexivity | congruence].
  - intros p rw Hp Hrw.
    assert (p = UnaryAndBinaryOp k SPIRVOp) as ->.
    { registered Hreg; injection Hreg as <- <-;
        registered Hp; subst p; unfold matchAndRewrite in Hrw;
        try rewrite Hk in Hrw; simpl in Hrw; try discriminate; reflexivity. }
    split; [reflexivity|].
    unfold matchAndRewrite, StdOpKind_eqb in Hrw. rewrite Hk in Hrw.
    destruct (StdOpKind_eq_dec k k); [|congruence].
    injection Hrw as <-.
    unfold UnaryAndBinaryOpPattern, bind, assert_.
    destruct (Nat.leb (List.length operands) 2); [|reflexivity].
    destruct (convertType tc (getType operation)); reflexivity.
Qed.

(** X9.  A scalar constant of a 1-bit integer type, of any signedness,
    whose type converts: a boolean attribute is kept, an integer
    attribute becomes the boolean "the value is not zero", and the
    constant is replaced by one [spv.constant] of the converted type;
    with any other attribute, and when the type does not convert, the
    pattern reports failure and creates nothing. *)
Theorem scalar_constant_of_boolean_type :
  forall (tc : SPIRVTypeConverter)
         (conv : APFloat -> fltSemantics -> roundingMode -> APFloat * opStatus * bool)
         (s : Signedness) (attr : Attribute) (operands : list Value) (n : nat),
    let run :=
      ConstantScalarOpPattern tc conv (mkConstantOp (IntegerType 1 s) attr) operands
                              (startState n) in
    match convertType tc (IntegerType 1 s) with
    | None => run = failedUntouched n
    | Some dstType =>
        let emits b :=
          replacedByOne n spirv.ConstantOp (Some dstType) []
                        (spirv.ValueAttr (BoolAttr b)) in
        match attr with
        | BoolAttr b => run = emits b
        | IntegerAttr _ v => run = emits (negb (U v =? 0))
        | _ => run = failedUntouched n
        end
    end.
Proof.
  intros tc conv s attr operands n run.
  unfold run, ConstantScalarOpPattern, bind. simpl.
  destruct (convertType tc (IntegerType 1 s)) as [dstType|]; [|reflexivity].
  destruct attr; reflexivity.
Qed.

(** X10.  A scalar constant of index type or of an integer type other
    than 1 bit wide, holding an integer attribute of at most 64 bits,
    whose type converts to an integer type of [N <= 64] bits.  When the
    bit pattern fits in [N] bits, read unsigned or read signed, the
    constant is replaced by one [spv.constant] of the converted type that
    holds the sign-extended source value wrapped to [N] bits; when it
    fits in neither reading the pattern reports failure and creates
    nothing. *)
Theorem scalar_constant_of_integer_type :
  forall (tc : SPIRVTypeConverter)
         (conv : APFloat -> fltSemantics -> roundingMode -> APFloat * opStatus * bool)
         (srcType t : Ty) (v : APInt) (N : Z) (s' : Signedness)
         (operands : list Value) (n : nat),
    isIndex srcType || (isaIntegerType srcType && negb (isInteger srcType 1)) = true ->
    convertType tc srcType = Some (IntegerType N s') ->
    0 < BitWidth v <= 64 ->
    0 <= U v < 2 ^ BitWidth v ->
    0 < N <= 64 ->
    let dstType := IntegerType N s' in
    let x := getSExtValue v in
    let run :=
      ConstantScalarOpPattern tc conv (mkConstantOp srcType (IntegerAttr t v)) operands
                              (startState n) in
    (U v < 2 ^ N \/ - 2 ^ (N - 1) <= x < 2 ^ (N - 1) ->
     run = replacedByOne n spirv.ConstantOp (Some dstType) []
             (spirv.ValueAttr (IntegerAttr dstType (mkAPInt N (x mod 2 ^ N))))) /\
    (2 ^ N <= U v -> ~ (- 2 ^ (N - 1) <= x < 2 ^ (N - 1)) ->
     run = failedUntouched n).
Proof.
  intros tc conv srcType t v N s' operands n Hsrc Hty HW HU HN dstType x run.
  assert (0 < BitWidth v) as HW0 by lia.
  pose proof (isIntN_spec v HU N ltac:(lia)) as Hint.
  pose proof (isSignedIntN_spec v HW0 HU N ltac:(lia)) as Hsint.
  fold x in Hsint.
  assert (Hrun : run =
            match fst (convertIntegerAttr t v N s') with
            | None => failedUntouched n
            | Some dstAttr =>
                replacedByOne n spirv.ConstantOp (Some dstType) []
                              (spirv.ValueAttr dstAttr)
            end).
  { unfold run, ConstantScalarOpPattern, bind, isIntOrIndexOrFloat.
    cbn [constType value].
    destruct srcType as [| w s | | | | | | | |]; try discriminate Hsrc.
    - simpl. rewrite Hty. simpl.
      destruct (fst (convertIntegerAttr t v N s')); reflexivity.
    - simpl in Hsrc. simpl. rewrite Hty. simpl.
      destruct (w =? 1); [discriminate Hsrc|].
      destruct (fst (convertIntegerAttr t v N s')); reflexivity. }
  rewrite Hrun. unfold convertIntegerAttr, getInt. fold x.
  rewrite getIntegerAttr_IntegerType by lia. fold dstType.
  split.
  - intros Hfit. destruct (isIntN N v) eqn:E1; [reflexivity|].
    destruct (isSignedIntN N v) eqn:E2; [reflexivity|].
    exfalso. destruct Hfit as [Hfit | Hfit].
    + apply Hint in Hfit. congruence.
    + apply Hsint in Hfit. congruence.
  - intros Hbig Hs.
    destruct (isIntN N v) eqn:E1.
    + pose proof (proj1 Hint eq_refl). lia.
    + destruct (isSignedIntN N v) eqn:E2; [|reflexivity].
      pose proof (proj1 Hsint eq_refl). contradiction.
Qed.

(** X11.  A scalar constant of a float type holding a float attribute.
    When the type does not convert the pattern reports failure.  When it
    converts to itself the attribute is passed on as it is and
    [APFloat::convert] is not consulted.  When it converts to another
    float type the constant is re-emitted only for [f32] and only with a
    conversion that is exact ([opOK], nothing lost); in every other such
    case the pattern reports failure and creates nothing.  A converted
    type that is no float type at all stops in the cast. *)
Theorem scalar_constant_of_float_type :
  forall (tc : SPIRVTypeConverter)
         (conv : APFloat -> fltSemantics -> roundingMode -> APFloat * opStatus * bool)
         (k : FloatKind) (t : Ty) (v : APFloat) (operands : list Value) (n : nat),
    let run :=
      ConstantScalarOpPattern tc conv (mkConstantOp (FloatType k) (FloatAttr t v))
                              operands (startState n) in
    let emits dstType attr :=
      replacedByOne n spirv.ConstantOp (Some dstType) [] (spirv.ValueAttr attr) in
    match convertType tc (FloatType k) with
    | None => run = failedUntouched n
    | Some (FloatType k') =>
        if FloatKind_eq_dec k k' then run = emits (FloatType k') (FloatAttr t v)
        else
          match k', conv v IEEEsingle rmTowardZero with
          | F32, (dstVal, opOK, false) => run = emits f32 (FloatAttr f32 dstVal)
          | _, _ => run = failedUntouched n
          end
    | Some _ => run = AssertionFailed "dstType.cast<FloatType>()"
    end.
Proof.
  intros tc conv k t v operands n run emits.
  unfold run, emits, ConstantScalarOpPattern, bind, isIntOrIndexOrFloat.
  cbn [constType value isaIntegerType isIndex isaFloatType orb negb].
  destruct (convertType tc (FloatType k)) as [dstType|]; [|reflexivity].
  unfold Ty_eqb.
  destruct dstType as [| w s | k' | | | | | | |];
    try (destruct (Ty_eq_dec _ _) as [E|E]; [discriminate E | reflexivity]).
  destruct (Ty_eq_dec (FloatType k) (FloatType k')) as [E|E];
    destruct (FloatKind_eq_dec k k') as [E'|E']; try congruence.
  - reflexivity.
  - cbn [negb cast fst snd]. unfold convertFloatAttr.
    destruct k'; try reflexivity.
    cbn [isF32 negb].
    destruct (conv v IEEEsingle rmTowardZero) as [[dstVal status] losesInfo].
    destruct status, losesInfo; reflexivity.
Qed.

(** X12.  The scalar and the composite constant pattern never both
    rewrite one constant: on every constant, with every type converter,
    at least one of them reports failure and creates nothing.  The scalar
    pattern does so on every type that is not an integer, index or float
    type, the composite pattern on every type that is not shaped. *)
Theorem constant_patterns_are_exclusive :
  forall (tc : SPIRVTypeConverter)
         (conv : APFloat -> fltSemantics -> roundingMode -> APFloat * opStatus * bool)
         (constOp : ConstantOp) (operands : list Value) (n : nat),
    let scalar := ConstantScalarOpPattern tc conv constOp operands (startState n) in
    let composite := ConstantCompositeOpPattern tc conv constOp operands (startState n) in
    (scalar = failedUntouched n \/ composite = failedUntouched n) /\
    (isIntOrIndexOrFloat (constType constOp) = false -> scalar = failedUntouched n) /\
    (isaShapedType (constType constOp) = false -> composite = failedUntouched n).
Proof.
  intros tc conv constOp operands n scalar composite.
  assert (Hs : isIntOrIndexOrFloat (constType constOp) = false ->
               scalar = failedUntouched n).
  { intros H. unfold scalar, ConstantScalarOpPattern. rewrite H. reflexivity. }
  assert (Hc : isaShapedType (constType constOp) = false ->
               composite = failedUntouched n).
  { intros H. unfold composite, ConstantCompositeOpPattern. rewrite H. reflexivity. }
  split; [|split; assumption].
  destruct (isaShapedType (constType constOp)) eqn:H.
  - left. apply Hs. destruct (constType constOp); try discriminate H; reflexivity.
  - right. apply Hc. reflexivity.
Qed.

(* ================================================================== *)
(** * These properties on concrete inputs *)
(* ================================================================== *)

(** X1 on the store of [0xAB] at index 5 of 8-bit elements in 32-bit
    words. *)
Lemma narrow_store_writes_one_element_witness :
  let mem : Exec.Memory := fun _ => 0x12345678 in
  exists st m,
    IntStoreOpPattern sampleTypeConverter (mkStoreOp (MemRefType [16] i8))
                      (mkValue 1 i32) (mkValue 0 (sampleBufferType 4))
                      [mkValue 2 i32] (startState 3)
    = Done (success, st) /\
    Exec.run (created st)
      (Exec.mkMachine (Exec.args [Exec.RtBuffer; Exec.RtInt 0xAB; Exec.RtInt 5]) mem)
    = Some m /\
    Exec.element 8 32 (Exec.memory m) 5 = 0xAB mod 2 ^ 8 /\
    (forall j, j <> 5 ->
       Exec.element 8 32 (Exec.memory m) j = Exec.element 8 32 mem j) /\
    (forall k, 0 <= Exec.memory m k < 2 ^ 32).
Proof.
  refine (narrow_store_writes_one_element
            sampleTypeConverter [16] 8 32 4 StorageBuffer
            (fun _ => 0x12345678) 0xAB 5 _ _ _ _ _ _ _ _ _).
  - lia.
  - lia.
  - reflexivity.
  - intros _. lia.
  - reflexivity.
  - reflexivity.
  - intros _. lia.
  - lia.
  - lia.
Defined.

(** X2 on the store of [0xAB] at index 5 and the load at index 5. *)
Lemma narrow_load_after_store_witness :
  let mem : Exec.Memory := fun _ => 0x12345678 in
  exists stStore stLoad loaded afterStore afterLoad x,
    IntStoreOpPattern sampleTypeConverter (mkStoreOp (MemRefType [16] i8))
                      (mkValue 1 i32) (mkValue 0 (sampleBufferType 4))
                      [mkValue 2 i32] (startState 3)
    = Done (success, stStore) /\
    IntLoadOpPattern sampleTypeConverter (mkLoadOp (MemRefType [16] i8) None None)
                     (mkValue 0 (sampleBufferType 4)) [mkValue 1 i32] (startState 2)
    = Done (success, stLoad) /\
    root stLoad = ReplacedWith [loaded] /\
    Exec.run (created stStore)
      (Exec.mkMachine (Exec.args [Exec.RtBuffer; Exec.RtInt 0xAB; Exec.RtInt 5]) mem)
    = Some afterStore /\
    Exec.run (created stLoad)
      (Exec.mkMachine (Exec.args [Exec.RtBuffer; Exec.RtInt 5])
                      (Exec.memory afterStore))
    = Some afterLoad /\
    Exec.env afterLoad loaded = Some (Exec.RtInt x) /\
    x = (if 5 =? 5 then 0xAB mod 2 ^ 8 else Exec.element 8 32 mem 5) /\
    0 <= x < 2 ^ 8.
Proof.
  refine (narrow_load_after_store
            sampleTypeConverter [16] 8 32 4 StorageBuffer None None
            (fun _ => 0x12345678) 0xAB 5 5 _ _ _ _ _ _ _ _ _ _).
  - lia.
  - lia.
  - reflexivity.
  - intros _. lia.
  - reflexivity.
  - reflexivity.
  - intros _. lia.
  - lia.
  - lia.
  - lia.
Defined.

(** X3 on the stores of [0xAB] at index 5 and of [0xCD] at index 6, two
    elements of word 1, the invocations taking turns. *)
Lemma concurrent_narrow_stores_do_not_interfere_witness :
  let mem : Exec.Memory := fun _ => 0x12345678 in
  let schedule := flat_map (fun _ : nat => [true; false]) (seq 0 15) in
  exists st a b mem',
    IntStoreOpPattern sampleTypeConverter (mkStoreOp (MemRefType [16] i8))
                      (mkValue 1 i32) (mkValue 0 (sampleBufferType 4))
                      [mkValue 2 i32] (startState 3)
    = Done (success, st) /\
    interleave schedule
      (Exec.args [Exec.RtBuffer; Exec.RtInt 0xAB; Exec.RtInt 5], created st)
      (Exec.args [Exec.RtBuffer; Exec.RtInt 0xCD; Exec.RtInt 6], created st)
      mem
    = Some (a, b, mem') /\
    List.length (snd a) =
      (List.length (created st) - count_occ bool_dec schedule true)%nat /\
    List.length (snd b) =
      (List.length (created st) - count_occ bool_dec schedule false)%nat /\
    (snd a = [] -> snd b = [] ->
     Exec.element 8 32 mem' 5 = 0xAB mod 2 ^ 8 /\
     Exec.element 8 32 mem' 6 = 0xCD mod 2 ^ 8 /\
     forall j, j <> 5 -> j <> 6 ->
       Exec.element 8 32 mem' j = Exec.element 8 32 mem j).
Proof.
  refine (concurrent_narrow_stores_do_not_interfere
            sampleTypeConverter [16] 8 32 4 StorageBuffer
            (fun _ => 0x12345678) 0xAB 5 0xCD 6
            (flat_map (fun _ : nat => [true; false]) (seq 0 15))
            _ _ _ _ _ _ _ _ _ _).
  - lia.
  - lia.
  - reflexivity.
  - lia.
  - reflexivity.
  - reflexivity.
  - intros _. lia.
  - lia.
  - lia.
  - lia.
Defined.

(** X4 on the stores of [0x0F] and of [0xF0] at index 5: the element ends
    as [0xFF]. *)
Lemma concurrent_narrow_stores_to_one_element_can_mix_witness :
  let mem : Exec.Memory := fun _ => 0x12345678 in
  exists st e e' mem',
    IntStoreOpPattern sampleTypeConverter (mkStoreOp (MemRefType [16] i8))
                      (mkValue 1 i32) (mkValue 0 (sampleBufferType 4))
                      [mkValue 2 i32] (startState 3)
    = Done (success, st) /\
    let n := (List.length (created st) - 1)%nat in
    interleave (repeat true n ++ repeat false n ++ [true; false])
      (Exec.args [Exec.RtBuffer; Exec.RtInt 0x0F; Exec.RtInt 5], created st)
      (Exec.args [Exec.RtBuffer; Exec.RtInt 0xF0; Exec.RtInt 5], created st)
      mem
    = Some ((e, []), (e', []), mem') /\
    Exec.element 8 32 mem' 5 = Z.lor (0x0F mod 2 ^ 8) (0xF0 mod 2 ^ 8).
Proof.
  refine (concurrent_narrow_stores_to_one_element_can_mix
            sampleTypeConverter [16] 8 32 4 StorageBuffer
            (fun _ => 0x12345678) 0x0F 0xF0 5 _ _ _ _ _ _ _).
  - lia.
  - lia.
  - reflexivity.
  - lia.
  - reflexivity.
  - reflexivity.
  - lia.
Defined.

(** X5 on 8-bit elements in 32-bit words and the index -1, held as
    [0xFFFFFFFF]: the offset is 24. *)
Lemma offset_stays_inside_the_word_witness :
  let e := Exec.args [Exec.RtInt 0xFFFFFFFF] in
  let mem : Exec.Memory := fun _ => 0 in
  exists offset st m off,
    getOffsetForBitwidth (mkValue 0 i32) 8 32 (startState 1) = Done (offset, st) /\
    map (fun inst => spirv.opcode (snd inst)) (created st) =
      [spirv.ConstantOp; spirv.ConstantOp; spirv.SModOp; spirv.IMulOp] /\
    Exec.run (created st) (Exec.mkMachine e mem) = Some m /\
    Exec.memory m = mem /\
    Exec.env m (valueId offset) = Some (Exec.RtInt off) /\
    off = (Exec.signed 32 0xFFFFFFFF mod (32 / 8)) * 8 /\
    0 <= off <= 32 - 8 /\
    off mod 8 = 0.
Proof.
  refine (offset_stays_inside_the_word
            8 32 0xFFFFFFFF (Exec.args [Exec.RtInt 0xFFFFFFFF]) (fun _ => 0)
            0 1 _ _ _ _ _).
  - lia.
  - lia.
  - reflexivity.
  - reflexivity.
  - lia.
Defined.


(** X8 on the addition of two 32-bit integers. *)
Lemma arithmetic_patterns_are_one_to_one_witness :
  let a := mkValue 0 i32 in
  let b := mkValue 1 i32 in
  UnaryAndBinaryOpPattern sampleTypeConverter spirv.IAddOp (mkStdOp AddIOp i32)
                          [a; b] (startState 2)
  = replacedByOne 2 spirv.IAddOp (Some i32) [a; b] spirv.NoAttrs.
Proof.
  exact (proj2 (proj2 (arithmetic_patterns_are_one_to_one
                         sampleTypeConverter AddIOp spirv.IAddOp (mkStdOp AddIOp i32)
                         [mkValue 0 i32; mkValue 1 i32] 2
                         ltac:(simpl; tauto) eq_refl)
                      (UnaryAndBinaryOp AddIOp spirv.IAddOp) _
                      ltac:(simpl; tauto) eq_refl)).
Defined.

(** X10 on the 64-bit constants 300 and [2 ^ 40], converted to 32 bits. *)
Lemma scalar_constant_of_integer_type_witness :
  ConstantScalarOpPattern sampleTypeConverter sampleAPFloatConvert
    (mkConstantOp i64 (IntegerAttr i64 (mkAPInt 64 300))) [] (startState 0)
  = replacedByOne 0 spirv.ConstantOp (Some i32) []
      (spirv.ValueAttr (IntegerAttr i32 (mkAPInt 32 300))) /\
  ConstantScalarOpPattern sampleTypeConverter sampleAPFloatConvert
    (mkConstantOp i64 (IntegerAttr i64 (mkAPInt 64 (2 ^ 40)))) [] (startState 0)
  = failedUntouched 0.
Proof.
  split.
  - exact (proj1 (scalar_constant_of_integer_type
                    sampleTypeConverter sampleAPFloatConvert i64 i64 (mkAPInt 64 300)
                    32 Signless [] 0 eq_refl eq_refl
                    ltac:(cbn; lia) ltac:(cbn; lia) ltac:(lia))
                 ltac:(left; cbn; lia)).
  - exact (proj2 (scalar_constant_of_integer_type
                    sampleTypeConverter sampleAPFloatConvert i64 i64
                    (mkAPInt 64 (2 ^ 40)) 32 Signless [] 0 eq_refl eq_refl
                    ltac:(cbn; lia) ltac:(cbn; lia) ltac:(lia))
                 ltac:(cbn; lia)
                 ltac:(vm_compute; intros [_ H]; discriminate H)).
Defined.

(** X13 on an aligned load of an 8-bit element from 32-bit words. *)
Lemma load_attributes_survive_only_the_emulated_path_witness :
  let aligned := Some (IntegerAttr i32 (mkAPInt 32 2)) in
  let four := Some (IntegerAttr i32 (mkAPInt 32 4)) in
  exists st,
    IntLoadOpPattern sampleTypeConverter (mkLoadOp (MemRefType [16] i8) aligned four)
                     (mkValue 0 (sampleBufferType 4)) [mkValue 1 i32] (startState 2)
    = Done (success, st) /\
    map (fun inst => spirv.attrs (snd inst)) (filter isLoad (created st)) =
      [spirv.MemoryAccessAttrs aligned four].
Proof.
  exact (load_attributes_survive_only_the_emulated_path
           sampleTypeConverter [16] 8 32 4 StorageBuffer
           (Some (IntegerAttr i32 (mkAPInt 32 2)))
           (Some (IntegerAttr i32 (mkAPInt 32 4)))
           ltac:(lia) eq_refl eq_refl eq_refl).
Defined.
